(** * bdk-examples: the YAML document concept, the Twilio message filter and
    the OpenWeather book

    A shallow embedding of [yaml_book/book.py], [twilio_book/sms_message_filter.py],
    [twilio_book/sms_message.py], [twilio_book/twilio_book.py] and
    [openweather_book/book.py], the properties of their specification, and
    further properties of the code.

    Modelling choices, common to the whole development:
    - a Python [str] is a [string], read as its UTF-8 bytes; [str.lower] is
      the ASCII lower-casing, which is what Python computes on ASCII text;
    - a Python [dict] is an object in a heap, known by its reference, since
      the code changes dicts in place and several [YAMLConcept] nodes may
      share one; its items are an association list in insertion order,
      because the case-insensitive accessors take the first matching key
      in iteration order;
    - a [YAMLConcept] node is an object in the heap too, and the procedures
      of the book return the reference of the node they were given;
    - a Python [list] is held by value: the code builds lists and changes
      none in place;
    - an exception is an outcome [Raise e s] that carries the state at the
      time it was raised;
    - the third-party libraries (PyYAML, deepmerge, the Twilio client,
      requests, the BDK) are not part of the repository: PyYAML, the Twilio
      client and the network behind requests are parameters, deepmerge's
      [always_merger] and the BDK filter tree are modelled after their
      documented behaviour, each where it is used. *)

From Stdlib Require Import ZArith String Ascii List Bool Lia.
From Stdlib Require Floats.
From stdpp Require Import gmap strings list.

Set Warnings "-register-all,-clear-no-such-hyp".
Open Scope string_scope.

(** ** Python: outcomes of a call, and strings *)

Module Py.

(** The outcome of a call on a state [S]: a returned value, or an
    exception of type [E]; both with the state that the call leaves. *)
Inductive outcome (E S A : Type) : Type :=
| Ret (a : A) (s : S)
| Raise (e : E) (s : S).
Arguments Ret {E S A} a s.
Arguments Raise {E S A} e s.

Definition M (E S A : Type) : Type := S -> outcome E S A.

Definition ret {E S A} (a : A) : M E S A := fun s => Ret a s.

Definition raise {E S A} (e : E) : M E S A := fun s => Raise e s.

Definition bind {E S A B} (m : M E S A) (k : A -> M E S B) : M E S B :=
  fun s => match m s with
           | Ret a s' => k a s'
           | Raise e s' => Raise e s'
           end.

Definition state_of {E S A} (o : outcome E S A) : S :=
  match o with Ret _ s => s | Raise _ s => s end.

Definition returns {E S A} (o : outcome E S A) : bool :=
  match o with Ret _ _ => true | Raise _ _ => false end.

(** [str.lower()] on ASCII text. *)
Definition ascii_lower (c : ascii) : ascii :=
  let n := nat_of_ascii c in
  if (65 <=? n)%nat && (n <=? 90)%nat then ascii_of_nat (n + 32) else c.

Fixpoint lower (s : string) : string :=
  match s with
  | EmptyString => EmptyString
  | String c r => String (ascii_lower c) (lower r)
  end.

(** [x in l] for a list of strings. *)
Definition str_in (x : string) (l : list string) : bool :=
  existsb (String.eqb x) l.

(** [str.encode("utf-8")] and [bytes.decode("utf-8")]: a [str] is held as
    its UTF-8 bytes, so both only change the type. *)
Definition bytes : Type := list Byte.byte.
Definition encode (s : string) : bytes := list_byte_of_string s.
Definition decode (b : bytes) : string := string_of_list_byte b.

(** A Python [float], held as its IEEE-754 binary64 bit pattern; the code
    never computes with one. *)
Definition float : Type := Z.

End Py.

Notation "'do' x <- m ; k" := (Py.bind m (fun x => k))
  (at level 10, x name, m at level 100, k at level 200).
Notation "m ;; k" := (Py.bind m (fun _ => k))
  (at level 100, k at level 200, right associativity).

(** ** The BDK's noun phrases *)

Module bdk.

(** [kognitos.bdk.api.NounPhrase]. Its declaration is outside the
    repository; the code compares noun phrases with [==] and builds them
    with [from_word_list], so a noun phrase is identified here with the
    word list it is built from. *)
Record NounPhrase := { words : list string }.

Definition from_word_list (ws : list string) : NounPhrase := {| words := ws |}.

Definition NounPhrase_eqb (a b : NounPhrase) : bool :=
  bool_decide (words a = words b).

End bdk.

(** ** yaml_book/book.py *)

Module yaml_book.
Import Py bdk.

(** *** YAML data as Python objects *)

Inductive scalar :=
| SNone
| SBool (b : bool)
| SInt (z : Z)
| SFloat (f : float)
| SStr (s : string).

Definition loc : Type := nat.

(** A value of YAML data. A dict is an object, known by its reference: the
    code changes dicts in place and lets several nodes share one. A list is
    held by value, with the references of the dicts in it: the code builds
    new lists and changes none. *)
Inductive pyvalue :=
| VScalar (s : scalar)
| VList (items : list pyvalue)
| VDict (d : loc).

(** The items of a dict, in insertion order. *)
Section Items.

Context {V : Type}.

(** [d.keys()] *)
Definition keys (d : list (string * V)) : list string := map fst d.

(** [d.get(k)]: the value under [k], if any. *)
Fixpoint dict_get (k : string) (d : list (string * V)) : option V :=
  match d with
  | [] => None
  | (k', v) :: rest => if String.eqb k k' then Some v else dict_get k rest
  end.

(** [k in d] *)
Definition contains (k : string) (d : list (string * V)) : bool :=
  match dict_get k d with Some _ => true | None => false end.

(** [d[k] = v]: an existing key keeps its place, a new one goes last. *)
Fixpoint dict_set (k : string) (v : V) (d : list (string * V)) : list (string * V) :=
  match d with
  | [] => [(k, v)]
  | (k', v') :: rest =>
      if String.eqb k k' then (k', v) :: rest else (k', v') :: dict_set k v rest
  end.

(** [d.pop(k)] for a key that is present. *)
Fixpoint dict_pop (k : string) (d : list (string * V)) : list (string * V) :=
  match d with
  | [] => []
  | (k', v') :: rest =>
      if String.eqb k k' then rest else (k', v') :: dict_pop k rest
  end.

End Items.

Definition dict : Type := list (string * pyvalue).

(** [class YAMLConcept]: [value: Optional[dict] = None]. *)
Record YAMLConcept := cls { value : option loc }.

(** The heap: the dict objects and the [YAMLConcept] objects. *)
Record heap := {
  dicts : gmap loc dict;
  nodes : gmap loc YAMLConcept
}.

(** [YAMLValue = Union[str, int, float, bool, "YAMLConcept", List["YAMLValue"]]] *)
Inductive YAMLValue :=
| YScalar (s : scalar)
| YConcept (node : loc)
| YList (items : list YAMLValue).

Inductive exn :=
| KeyError (key : string)
| IndexError
| YAMLError
| RecursionError
| InvalidReference (l : loc).

Definition run (A : Type) : Type := M exn heap A.

(** Reading the object behind a reference. A reference to no object does
    not occur in a Python run; the model answers [InvalidReference]. *)
Definition node (l : loc) : run YAMLConcept :=
  fun h => match nodes h !! l with
           | Some c => Ret c h
           | None => Raise (InvalidReference l) h
           end.

Definition items (r : loc) : run dict :=
  fun h => match dicts h !! r with
           | Some d => Ret d h
           | None => Raise (InvalidReference r) h
           end.

(** [YAMLConcept(v)]: a new object. *)
Definition new (v : option loc) : run loc :=
  fun h => let l := fresh (dom (nodes h)) in
           Ret l {| dicts := dicts h; nodes := <[l := cls v]> (nodes h) |}.

(** The dict object [r] gets the items [d]. *)
Definition store (r : loc) (d : dict) : run unit :=
  fun h => Ret tt {| dicts := <[r := d]> (dicts h); nodes := nodes h |}.

(** [r[key] = v] *)
Definition setitem (r : loc) (key : string) (v : pyvalue) : run unit :=
  do d <- items r; store r (dict_set key v d).

(** [r.pop(key)] *)
Definition pop (r : loc) (key : string) : run unit :=
  do d <- items r; store r (dict_pop key d).

(** [d[key]] *)
Definition subscript (d : dict) (key : string) : run pyvalue :=
  match dict_get key d with
  | Some v => ret v
  | None => raise (KeyError key)
  end.

(** [[value_key for value_key in self.value.keys()
      if key.lower() == value_key.lower()][0]] *)
Definition matching_keys (key : string) (d : dict) : list string :=
  List.filter (fun value_key => String.eqb (lower key) (lower value_key)) (keys d).

Definition first_matching_key (key : string) (d : dict) : run string :=
  match matching_keys key d with
  | new_key :: _ => ret new_key
  | [] => raise IndexError
  end.

(** [key.lower() in [value_key.lower() for value_key in self.value.keys()]] *)
Definition lower_in_keys (key : string) (d : dict) : bool :=
  str_in (lower key) (map lower (keys d)).

(** *** The methods of [YAMLConcept] *)

(** [has]: membership, exact or by lower-cased names. *)
Definition has (self : loc) (key : string) (case_sensitive : bool) : run bool :=
  do c <- node self;
  match value c with
  | Some r =>
      do d <- items r;
      if case_sensitive && contains key d then ret true
      else if negb case_sensitive && lower_in_keys key d then ret true
      else ret false
  | None => ret false
  end.

(** The local [wrap] of [get]: a dict becomes a new node on that same dict,
    a list is wrapped element by element, anything else passes. *)
Fixpoint wrap (item : pyvalue) : run YAMLValue :=
  match item with
  | VDict r => do l <- new (Some r); ret (YConcept l)
  | VList items =>
      do wrapped <-
        (fix wrap_each (items : list pyvalue) : run (list YAMLValue) :=
           match items with
           | [] => ret []
           | item :: rest =>
               do y <- wrap item; do ys <- wrap_each rest; ret (y :: ys)
           end) items;
      ret (YList wrapped)
  | VScalar s => ret (YScalar s)
  end.

Definition get (self : loc) (key : string) (case_sensitive : bool) : run YAMLValue :=
  do c <- node self;
  match value c with
  | Some r =>
      do d <- items r;
      if case_sensitive then
        if contains key d then do item <- subscript d key; wrap item
        else raise (KeyError key)
      else if lower_in_keys key d then
        do new_key <- first_matching_key key d;
        do item <- subscript d new_key;
        wrap item
      else raise (KeyError key)
  | None => raise (KeyError key)
  end.

(** [self.value] as a value: the dict, or [None]. *)
Definition value_of (v : option loc) : pyvalue :=
  match v with
  | Some r => VDict r
  | None => VScalar SNone
  end.

(** The local [unwrap] of [set]: a node gives its [value], a list is
    unwrapped element by element, anything else passes. *)
Fixpoint unwrap (item : YAMLValue) : run pyvalue :=
  match item with
  | YConcept l => do c <- node l; ret (value_of (value c))
  | YList items =>
      do unwrapped <-
        (fix unwrap_each (items : list YAMLValue) : run (list pyvalue) :=
           match items with
           | [] => ret []
           | item :: rest =>
               do v <- unwrap item; do vs <- unwrap_each rest; ret (v :: vs)
           end) items;
      ret (VList unwrapped)
  | YScalar s => ret (VScalar s)
  end.

(** [set] returns [self]. *)
Definition set (self : loc) (key : string) (v : YAMLValue) (case_sensitive : bool)
  : run loc :=
  do c <- node self;
  match value c with
  | Some r =>
      if case_sensitive then
        do item <- unwrap v;
        setitem r key item;;
        ret self
      else
        do d <- items r;
        if lower_in_keys key d then
          do new_key <- first_matching_key key d;
          do item <- unwrap v;
          setitem r new_key item;;
          ret self
        else raise (KeyError key)
  | None => raise (KeyError key)
  end.

Definition delete (self : loc) (key : string) (case_sensitive : bool) : run unit :=
  do c <- node self;
  match value c with
  | Some r =>
      do d <- items r;
      if case_sensitive then
        if contains key d then pop r key
        else raise (KeyError key)
      else if lower_in_keys key d then
        do new_key <- first_matching_key key d;
        pop r new_key
      else raise (KeyError key)
  | None => raise (KeyError key)
  end.

(** *** Serialization, over PyYAML *)

(** [io.StringIO]: the text it holds and the position of its cursor. *)
Record StringIO := { getvalue : string; tell : nat }.

Definition StringIO_new : StringIO := {| getvalue := ""; tell := 0 |}.

(** [io.write(s)] with the cursor at the end of the text. *)
Definition write (io : StringIO) (s : string) : StringIO :=
  {| getvalue := getvalue io ++ s; tell := tell io + String.length s |}.

(** [io.read()]: the text from the cursor to the end. *)
Definition read (io : StringIO) : string :=
  substring (tell io) (String.length (getvalue io) - tell io) (getvalue io).

Section Serialization.

(** PyYAML is not part of the repository. [yaml.safe_dump(data)] reads the
    objects of [data] and returns the text of a document.
    [yaml.safe_load(text)] builds the objects of the document and returns
    its root, or raises [yaml.YAMLError]; [YAMLConcept.value] is annotated
    [Optional[dict]], so the roots considered are [None] (an empty or null
    document) and the dicts. *)
Variable safe_dump : gmap loc dict -> pyvalue -> string.
Variable safe_load : string -> run (option loc).

Definition to_bytes (self : loc) : run bytes :=
  do c <- node self;
  match value c with
  | None => ret []
  | Some r => fun h => Ret (encode (safe_dump (dicts h) (VDict r))) h
  end.

(** [from_bytes] is a class method: it builds a new node. *)
Definition from_bytes (data : bytes) : run loc :=
  match data with
  | [] => new None
  | _ => do root <- safe_load (decode data); new root
  end.

(** [yaml.safe_dump(self.value, io)] writes the text of the document to
    [io]. *)
Definition to_stream (self : loc) : run StringIO :=
  do c <- node self;
  fun h => Ret (write StringIO_new (safe_dump (dicts h) (value_of (value c)))) h.

(** [from_stream] is a class method: [yaml.safe_load(io)] reads [io] from
    its cursor to its end, and the parsed root is held by a new node. *)
Definition from_stream (io : StringIO) : run loc :=
  do root <- safe_load (read io); new root.

End Serialization.

(** *** deepmerge's [always_merger] *)

(** deepmerge is not part of the repository. Its [always_merger] is
    [Merger([(list, "append"), (dict, "merge"), (set, "union")],
            ["override"], ["override"])]:
    [Merger.value_strategy(path, base, nxt)] applies the strategy of the
    first listed type that both values are instances of, and otherwise
    the fallback or the type-conflict strategy, which are both "override",
    that is [nxt]. YAML data has no sets. The list strategy "append" is
    [base + nxt], a new list. The dict strategy "merge" is
    [for k, v in nxt.items():
         if k not in base: base[k] = v
         else: base[k] = config.value_strategy(path + [k], base[k], v)
     return base]
    which changes [base] in place. The loop below runs over the items that
    [nxt] has when the loop starts, which are those that Python iterates
    over as long as the merge does not change [nxt] itself. The recursion
    of Python is bounded: [recursion_limit] is the depth that the
    interpreter still allows, and beyond it the call raises
    [RecursionError]. *)
Definition strategy_merge_with (value_strategy : pyvalue -> pyvalue -> run pyvalue)
    (base : loc) : dict -> run unit :=
  fix strategy_merge (nxt_items : dict) : run unit :=
    match nxt_items with
    | [] => ret tt
    | (k, v) :: rest =>
        do base_items <- items base;
        match dict_get k base_items with
        | None => setitem base k v
        | Some bv =>
            do merged <- value_strategy bv v;
            setitem base k merged
        end;;
        strategy_merge rest
    end.

Fixpoint value_strategy (recursion_limit : nat) (base nxt : pyvalue) : run pyvalue :=
  match recursion_limit with
  | O => raise RecursionError
  | S recursion_limit =>
      match base, nxt with
      | VList b, VList n => ret (VList (b ++ n)%list)
      | VDict b, VDict n =>
          do nxt_items <- items n;
          strategy_merge_with (value_strategy recursion_limit) b nxt_items;;
          ret (VDict b)
      | _, _ => ret nxt
      end
  end.

(** *** The procedures of [YAMLBook] *)

Inductive property :=
| PropertyStr (name : string)
| PropertyNounPhrase (np : NounPhrase).

Section Book.

(** [NounPhrase.to_field_names()], of the BDK. *)
Variable to_field_names : NounPhrase -> list string.

(** The loop of [set_property_to_value] over the candidate field names:
    the first one that the node has is set, and the loop is left. *)
Fixpoint set_first_field (yaml : loc) (v : YAMLValue) (field_names : list string)
  : run unit :=
  match field_names with
  | [] => ret tt
  | field_name :: rest =>
      do present <- has yaml field_name false;
      if present then set yaml field_name v false;; ret tt
      else set_first_field yaml v rest
  end.

Definition set_property_to_value (yaml : loc) (p : property) (v : YAMLValue)
  : run loc :=
  match p with
  | PropertyStr name => set yaml name v true;; ret yaml
  | PropertyNounPhrase np => set_first_field yaml v (to_field_names np);; ret yaml
  end.

(** What [get_property_by_name] raises: an exception of the concept, or
    its own [ValueError(property)]. *)
Inductive book_exn :=
| ConceptError (e : exn)
| ValueError (p : property).

Definition lift {A : Type} (m : run A) : M book_exn heap A :=
  fun h => match m h with
           | Ret a h' => Ret a h'
           | Raise e h' => Raise (ConceptError e) h'
           end.

(** The loop of [get_property_by_name] over the candidate field names: the
    first one that the node has is read; when the loop ends without one,
    the procedure goes on to [raise ValueError(property)]. *)
Fixpoint get_first_field (yaml : loc) (p : property) (field_names : list string)
  : M book_exn heap YAMLValue :=
  match field_names with
  | [] => raise (ValueError p)
  | field_name :: rest =>
      do present <- lift (has yaml field_name false);
      if present then lift (get yaml field_name false)
      else get_first_field yaml p rest
  end.

Definition get_property_by_name (yaml : loc) (p : property)
  : M book_exn heap YAMLValue :=
  match p with
  | PropertyStr name => lift (get yaml name true)
  | PropertyNounPhrase np => get_first_field yaml p (to_field_names np)
  end.

End Book.

(** [always_merger.merge(yaml.value, another_yaml.value)], whose result is
    dropped, and [return yaml]. *)
Definition merge (recursion_limit : nat) (yaml another_yaml : loc) : run loc :=
  do y <- node yaml;
  do a <- node another_yaml;
  value_strategy recursion_limit (value_of (value y)) (value_of (value a));;
  ret yaml.

(** The conversions of the book, over PyYAML as above. *)
Section Conversions.

Variable safe_dump : gmap loc dict -> pyvalue -> string.
Variable safe_load : string -> run (option loc).

(** [yaml.to_bytes().decode("utf-8")] *)
Definition convert_to_text (yaml : loc) : run string :=
  do data <- to_bytes safe_dump yaml; ret (decode data).

(** [YAMLConcept.from_bytes(bytes(text, "utf-8"))] *)
Definition convert_from_text (text : string) : run loc :=
  from_bytes safe_load (encode text).

Definition convert_to_file (yaml : loc) : run StringIO :=
  to_stream safe_dump yaml.

Definition convert_from_file (file : StringIO) : run loc :=
  from_stream safe_load file.

End Conversions.

End yaml_book.

(** ** twilio_book/sms_message_filter.py *)

Module sms_message_filter.
Import Py bdk.

Definition SENDER_NUMBER : NounPhrase := from_word_list ["sender"; "number"].
Definition RECIPIENT_NUMBER : NounPhrase := from_word_list ["recipient"; "number"].
Definition DATE_SENT : NounPhrase := from_word_list ["date"; "sent"].

(** [twilio.base.values.unset], or a value. *)
Inductive slot (A : Type) : Type :=
| unset
| holds (a : A).
Arguments unset {A}.
Arguments holds {A} a.

(** [kognitos.bdk.api.FilterBinaryOperator]: the four members that the
    visitor names, and the others of the enumeration, which is declared
    outside the repository. *)
Inductive FilterBinaryOperator :=
| EQUALS
| GREATER_THAN
| LESS_THAN
| AND
| OtherOperator (name : string).

(** [kognitos.bdk.reflection.ConceptScalarType], of which the visitor names
    one member. *)
Inductive ConceptScalarType :=
| DATETIME.

Section Filter.

(** [datetime.datetime], with what [str] returns for one. *)
Variable datetime : Type.
Variable datetime_str : datetime -> string.

(** The literal of a [ValueExpression] is any Python object. The visitor
    asks two things of it: [isinstance(_, datetime)] and [str(_)]. An
    object that is neither a [str] nor a [datetime] is given by what [str]
    returns for it. *)
Inductive pyobject :=
| ObjStr (s : string)
| ObjDatetime (t : datetime)
| ObjOther (shown : string).

(** [str(self.current_value)], where [current_value] is [None] until a
    [ValueExpression] is visited. *)
Definition str (v : option pyobject) : string :=
  match v with
  | Some (ObjStr s) => s
  | Some (ObjDatetime t) => datetime_str t
  | Some (ObjOther shown) => shown
  | None => "None"
  end.

(** The filter tree of [kognitos.bdk.api]; [accept] calls the visitor's
    method for the node. *)
Inductive FilterExpression :=
| FilterBinaryExpression (left : FilterExpression) (operator : FilterBinaryOperator)
                         (right : FilterExpression)
| FilterUnaryExpression (operator : string) (expression : FilterExpression)
| NounPhrasesExpression (noun_phrases : list NounPhrase)
| ValueExpression (value : pyobject).

Inductive exn :=
| ValueError_operator (operator : FilterBinaryOperator)
    (* f"unsupported filtering operator: {expression.operator}" *)
| ValueError_noun_phrases (noun_phrases : list NounPhrase)
    (* f"unsupported filtering noun phrase: {expression.noun_phrases}" *)
| TypeMismatchError (name : string) (expected : ConceptScalarType).

(** [class SMSMessageFilter(FilterExpressionVisitor)] *)
Record SMSMessageFilter := {
  current_noun_phrase : option NounPhrase;
  current_value : option pyobject;
  recipient_number : slot string;
  sender_number : slot string;
  date_sent : slot datetime;
  date_sent_before : slot datetime;
  date_sent_after : slot datetime
}.

(** [SMSMessageFilter()]: the defaults of the class. *)
Definition SMSMessageFilter_new : SMSMessageFilter := {|
  current_noun_phrase := None;
  current_value := None;
  recipient_number := unset;
  sender_number := unset;
  date_sent := unset;
  date_sent_before := unset;
  date_sent_after := unset
|}.

Definition visit : Type := M exn SMSMessageFilter unit.

Definition self : M exn SMSMessageFilter SMSMessageFilter := fun s => Ret s s.

Definition assign (f : SMSMessageFilter -> SMSMessageFilter) : visit :=
  fun s => Ret tt (f s).

Definition set_current_noun_phrase (np : NounPhrase) (s : SMSMessageFilter) :=
  {| current_noun_phrase := Some np;
     current_value := current_value s;
     recipient_number := recipient_number s;
     sender_number := sender_number s;
     date_sent := date_sent s;
     date_sent_before := date_sent_before s;
     date_sent_after := date_sent_after s |}.

Definition set_current_value (v : pyobject) (s : SMSMessageFilter) :=
  {| current_noun_phrase := current_noun_phrase s;
     current_value := Some v;
     recipient_number := recipient_number s;
     sender_number := sender_number s;
     date_sent := date_sent s;
     date_sent_before := date_sent_before s;
     date_sent_after := date_sent_after s |}.

Definition set_recipient_number (x : string) (s : SMSMessageFilter) :=
  {| current_noun_phrase := current_noun_phrase s;
     current_value := current_value s;
     recipient_number := holds x;
     sender_number := sender_number s;
     date_sent := date_sent s;
     date_sent_before := date_sent_before s;
     date_sent_after := date_sent_after s |}.

Definition set_sender_number (x : string) (s : SMSMessageFilter) :=
  {| current_noun_phrase := current_noun_phrase s;
     current_value := current_value s;
     recipient_number := recipient_number s;
     sender_number := holds x;
     date_sent := date_sent s;
     date_sent_before := date_sent_before s;
     date_sent_after := date_sent_after s |}.

Definition set_date_sent (t : datetime) (s : SMSMessageFilter) :=
  {| current_noun_phrase := current_noun_phrase s;
     current_value := current_value s;
     recipient_number := recipient_number s;
     sender_number := sender_number s;
     date_sent := holds t;
     date_sent_before := date_sent_before s;
     date_sent_after := date_sent_after s |}.

Definition set_date_sent_before (t : datetime) (s : SMSMessageFilter) :=
  {| current_noun_phrase := current_noun_phrase s;
     current_value := current_value s;
     recipient_number := recipient_number s;
     sender_number := sender_number s;
     date_sent := date_sent s;
     date_sent_before := holds t;
     date_sent_after := date_sent_after s |}.

Definition set_date_sent_after (t : datetime) (s : SMSMessageFilter) :=
  {| current_noun_phrase := current_noun_phrase s;
     current_value := current_value s;
     recipient_number := recipient_number s;
     sender_number := sender_number s;
     date_sent := date_sent s;
     date_sent_before := date_sent_before s;
     date_sent_after := holds t |}.

(** [self.current_noun_phrase == NP] *)
Definition current_noun_phrase_is (np : NounPhrase) (s : SMSMessageFilter) : bool :=
  match current_noun_phrase s with
  | Some cur => NounPhrase_eqb cur np
  | None => false
  end.

(** The date branches: [if not isinstance(self.current_value, datetime):
    raise TypeMismatchError("date_sent", ConceptScalarType.DATETIME)], and
    then the assignment of the value to a date slot. *)
Definition assign_datetime (s : SMSMessageFilter)
    (setter : datetime -> SMSMessageFilter -> SMSMessageFilter) : visit :=
  match current_value s with
  | Some (ObjDatetime t) => assign (setter t)
  | _ => raise (TypeMismatchError "date_sent" DATETIME)
  end.

(** [visit_binary_expression], given what [expression.left.accept(self)]
    and [expression.right.accept(self)] do. *)
Definition visit_binary_expression (accept_left accept_right : visit)
    (operator : FilterBinaryOperator) : visit :=
  accept_left;;
  accept_right;;
  do s <- self;
  match operator with
  | EQUALS =>
      if current_noun_phrase_is SENDER_NUMBER s then
        assign (set_sender_number (str (current_value s)))
      else if current_noun_phrase_is RECIPIENT_NUMBER s then
        assign (set_recipient_number (str (current_value s)))
      else if current_noun_phrase_is DATE_SENT s then
        assign_datetime s set_date_sent
      else ret tt
  | GREATER_THAN =>
      if current_noun_phrase_is DATE_SENT s then
        assign_datetime s set_date_sent_after
      else ret tt
  | LESS_THAN =>
      if current_noun_phrase_is DATE_SENT s then
        assign_datetime s set_date_sent_before
      else ret tt
  | AND => ret tt
  | OtherOperator _ => raise (ValueError_operator operator)
  end.

Definition visit_unary_expression : visit := ret tt.

Definition visit_value (v : pyobject) : visit := assign (set_current_value v).

(** [expression.noun_phrases[0] in [SENDER_NUMBER, RECIPIENT_NUMBER, DATE_SENT]] *)
Definition allowed (np : NounPhrase) : bool :=
  existsb (NounPhrase_eqb np) [SENDER_NUMBER; RECIPIENT_NUMBER; DATE_SENT].

Definition visit_noun_phrases (noun_phrases : list NounPhrase) : visit :=
  match noun_phrases with
  | [np] =>
      if allowed np then assign (set_current_noun_phrase np)
      else raise (ValueError_noun_phrases noun_phrases)
  | _ => raise (ValueError_noun_phrases noun_phrases)
  end.

Fixpoint accept (expression : FilterExpression) : visit :=
  match expression with
  | FilterBinaryExpression lhs operator rhs =>
      visit_binary_expression (accept lhs) (accept rhs) operator
  | FilterUnaryExpression _ _ => visit_unary_expression
  | NounPhrasesExpression noun_phrases => visit_noun_phrases noun_phrases
  | ValueExpression v => visit_value v
  end.

End Filter.

Arguments ObjStr {datetime} s.
Arguments ObjDatetime {datetime} t.
Arguments ObjOther {datetime} shown.
Arguments FilterBinaryExpression {datetime} left operator right.
Arguments FilterUnaryExpression {datetime} operator expression.
Arguments NounPhrasesExpression {datetime} noun_phrases.
Arguments ValueExpression {datetime} value.
Arguments current_noun_phrase {datetime} s.
Arguments current_value {datetime} s.
Arguments recipient_number {datetime} s.
Arguments sender_number {datetime} s.
Arguments date_sent {datetime} s.
Arguments date_sent_before {datetime} s.
Arguments date_sent_after {datetime} s.
Arguments SMSMessageFilter_new {datetime}.
Arguments accept {datetime} datetime_str expression.
Arguments visit_binary_expression {datetime} datetime_str accept_left accept_right operator.
Arguments visit_unary_expression {datetime}.
Arguments visit_value {datetime} v.
Arguments visit_noun_phrases {datetime} noun_phrases.

End sms_message_filter.

(** ** twilio_book/sms_message.py *)

Module sms_message.
Import Py.

Section Message.

Variable datetime : Type.

(** [twilio.rest.api.v2010.account.message.MessageInstance]: the
    attributes that [from_message_instance] reads. *)
Record MessageInstance := {
  instance_sid : option string;
  instance_body : option string;
  instance_num_segments : option string;
  instance_from_ : option string;
  instance_to : option string;
  instance_date_updated : option datetime;
  instance_price : option float;
  instance_status : option string;
  instance_messaging_service_sid : string;
  instance_date_sent : option datetime;
  instance_date_created : option datetime;
  instance_account_sid : string;
  instance_num_media : Z;
  instance_price_unit : string;
  instance_error_code : option Z;
  instance_error_message : option string
}.

(** [@dataclass class SMSMessage] *)
Record SMSMessage := {
  sid : option string;
  body : option string;
  num_segments : option string;
  sender_number : option string;
  recipient_number : option string;
  price : option float;
  account_sid : string;
  num_media : Z;
  status : option string;
  messaging_service_sid : string;
  date_sent : option datetime;
  date_created : option datetime;
  date_updated : option datetime;
  price_unit : string;
  error_code : option Z;
  error_message : option string
}.

Definition from_message_instance (message_instance : MessageInstance) : SMSMessage := {|
  sid := instance_sid message_instance;
  body := instance_body message_instance;
  num_segments := instance_num_segments message_instance;
  sender_number := instance_from_ message_instance;
  recipient_number := instance_to message_instance;
  date_updated := instance_date_updated message_instance;
  price := instance_price message_instance;
  status := instance_status message_instance;
  messaging_service_sid := instance_messaging_service_sid message_instance;
  date_sent := instance_date_sent message_instance;
  date_created := instance_date_created message_instance;
  account_sid := instance_account_sid message_instance;
  num_media := instance_num_media message_instance;
  price_unit := instance_price_unit message_instance;
  error_code := instance_error_code message_instance;
  error_message := instance_error_message message_instance
|}.

End Message.

Arguments from_message_instance {datetime} message_instance.

End sms_message.

(** ** twilio_book/twilio_book.py *)

Module twilio_book.
Import Py bdk sms_message_filter.

(** [messages[offset:]] for a Python list and an [int], which may be
    negative (counted from the end) or beyond the length (clamped). *)
Definition slice_from {A : Type} (offset : Z) (messages : list A) : list A :=
  let n := Z.of_nat (length messages) in
  let start := if (offset <? 0)%Z then Z.max (n + offset) 0 else Z.min offset n in
  skipn (Z.to_nat start) messages.

(** [messages[:limit]] *)
Definition slice_to {A : Type} (limit : Z) (messages : list A) : list A :=
  let n := Z.of_nat (length messages) in
  let stop := if (limit <? 0)%Z then Z.max (n + limit) 0 else Z.min limit n in
  firstn (Z.to_nat stop) messages.

Section Book.

Variable datetime : Type.
Variable datetime_str : datetime -> string.

(** The keyword arguments of one [client.messages.list(...)] call. *)
Record query := {
  to : slot string;
  from_ : slot string;
  date_sent : slot datetime;
  date_sent_before : slot datetime;
  date_sent_after : slot datetime
}.

(** The Twilio client is not part of the repository: what the provider
    answers to a query is a parameter, and the state of the procedure is
    the list of the queries that were sent, latest first. *)
Variable messages_list : query -> list (sms_message.MessageInstance datetime).

Definition client_messages_list (q : query)
  : M exn (list query) (list (sms_message.MessageInstance datetime)) :=
  fun sent => Ret (messages_list q) (q :: sent).

(** [filter_expression.accept(filter_visitor)] on the visitor that the
    procedure has just built; an exception leaves the procedure. *)
Definition run_filter (filter_expression : option (FilterExpression datetime))
  : M exn (list query) (SMSMessageFilter datetime) :=
  fun sent =>
    let filter_visitor := SMSMessageFilter_new in
    match filter_expression with
    | Some e =>
        match accept datetime_str e filter_visitor with
        | Ret _ visited => Ret visited sent
        | Raise err _ => Raise err sent
        end
    | None => Ret filter_visitor sent
    end.

Definition read_sms_messages (offset limit : option Z)
    (filter_expression : option (FilterExpression datetime))
  : M exn (list query) (list (sms_message.SMSMessage datetime)) :=
  do filter_visitor <- run_filter filter_expression;
  do messages <- client_messages_list {|
      to := recipient_number filter_visitor;
      from_ := sender_number filter_visitor;
      date_sent := sms_message_filter.date_sent filter_visitor;
      date_sent_before := sms_message_filter.date_sent_before filter_visitor;
      date_sent_after := sms_message_filter.date_sent_after filter_visitor |};
  let messages :=
    match offset with
    | Some offset => slice_from offset messages
    | None => messages
    end in
  let messages :=
    match limit with
    | Some limit => slice_to limit messages
    | None => messages
    end in
  ret (map sms_message.from_message_instance messages).

End Book.

Arguments to {datetime} q.
Arguments from_ {datetime} q.
Arguments date_sent {datetime} q.
Arguments date_sent_before {datetime} q.
Arguments date_sent_after {datetime} q.
Arguments run_filter {datetime} datetime_str filter_expression.
Arguments read_sms_messages {datetime} datetime_str messages_list offset limit
  filter_expression.

End twilio_book.

(** ** openweather_book/book.py *)

Module openweather_book.
Import Py bdk PrimFloat.

Definition OPENWEATHER_BASE_URL : string :=
  "http://api.openweathermap.org/data/2.5/weather".

(** [DEFAULT_TIMEOUT = 30]; the book holds [float(DEFAULT_TIMEOUT)]. A
    Python [float] is an IEEE-754 binary64 number, as a primitive float
    is; here the code compares floats. *)
Definition DEFAULT_TIMEOUT : PrimFloat.float := 30.

(** *** The requests library and JSON *)

(** What [response.json()] returns. *)
Inductive json :=
| JNull
| JBool (b : bool)
| JInt (z : Z)
| JFloat (x : PrimFloat.float)
| JString (s : string)
| JArray (items : list json)
| JObject (members : list (string * json)).

(** [requests.exceptions]: [Timeout] and [HTTPError] are kinds of
    [RequestException]. *)
Inductive RequestException :=
| Timeout
| HTTPError (status : Z)
| OtherRequestException (shown : string).

(** A [requests.Response]: its status, and its body when that is JSON. *)
Record Response := {
  status_code : Z;
  body : option json
}.

Inductive exn :=
| ValueError (message : string)
| Requests (e : RequestException)
| JSONDecodeError
| KeyError (key : string)
| TypeError
| AttributeError.

(** [class OpenWeatherBook] *)
Record OpenWeatherBook := {
  _base_url : string;
  _api_key : option string;
  _timeout : PrimFloat.float
}.

(** One [requests.get(url, timeout=...)]. *)
Record request := {
  url : string;
  timeout_of : PrimFloat.float
}.

(** The state of a run: the book, and the requests sent, latest first. *)
Record state := {
  self : OpenWeatherBook;
  sent : list request
}.

Definition run (A : Type) : Type := M exn state A.

(** [OpenWeatherBook()] *)
Definition OpenWeatherBook_new : OpenWeatherBook := {|
  _base_url := OPENWEATHER_BASE_URL;
  _api_key := None;
  _timeout := DEFAULT_TIMEOUT
|}.

(** *** The [timeout] property *)

Definition timeout : run PrimFloat.float :=
  fun s => Ret (_timeout (self s)) s.

(** The setter: [if timeout <= 0: raise ValueError(...)]. *)
Definition set_timeout (timeout : PrimFloat.float) : run unit :=
  if PrimFloat.leb timeout 0 then raise (ValueError "timeout must be positive")
  else fun s => Ret tt {| self := {| _base_url := _base_url (self s);
                                     _api_key := _api_key (self s);
                                     _timeout := timeout |};
                          sent := sent s |}.

(** *** Python on JSON values *)

(** [needle in text] for two [str]. *)
Definition str_contains (needle text : string) : bool :=
  match index 0 needle text with Some _ => true | None => false end.

(** [needle in x], for a [str] needle: a substring of a [str], an element
    of a list, a key of a dict; [TypeError] for what is not iterable. *)
Definition contains (needle : string) (x : json) : run bool :=
  match x with
  | JString text => ret (str_contains needle text)
  | JArray items =>
      ret (existsb (fun item => match item with
                                | JString s => String.eqb s needle
                                | _ => false
                                end) items)
  | JObject members => ret (existsb (fun kv => String.eqb (fst kv) needle) members)
  | _ => raise TypeError
  end.

Fixpoint member (key : string) (members : list (string * json)) : option json :=
  match members with
  | [] => None
  | (k, v) :: rest => if String.eqb key k then Some v else member key rest
  end.

(** [x.get(key, default)]: a method of dicts only. *)
Definition get_default (x : json) (key : string) (default : json) : run json :=
  match x with
  | JObject members =>
      ret (match member key members with Some v => v | None => default end)
  | _ => raise AttributeError
  end.

(** [x[key]] for a [str] key: the value of a dict under the key, or
    [KeyError]; [TypeError] for every other value. *)
Definition subscript (x : json) (key : string) : run json :=
  match x with
  | JObject members =>
      match member key members with
      | Some v => ret v
      | None => raise (KeyError key)
      end
  | _ => raise TypeError
  end.

(** [response.json()] *)
Definition json_of (response : Response) : run json :=
  match body response with
  | Some data => ret data
  | None => raise JSONDecodeError
  end.

(** [response.raise_for_status()]: [HTTPError] for the 4xx and 5xx. *)
Definition raise_for_status (response : Response) : run unit :=
  if (400 <=? status_code response)%Z && (status_code response <? 600)%Z
  then raise (Requests (HTTPError (status_code response)))
  else ret tt.

Section Book.

(** The environment of the process, the network, [urllib.parse.quote] and
    the BDK's [str] and truth value of a noun phrase are not part of the
    repository. What the network answers to a request is a parameter. *)
Variable getenv : string -> option string.
Variable requests_get : string -> PrimFloat.float -> RequestException + Response.
Variable quote : string -> string.
Variable NounPhrase_str : NounPhrase -> string.
Variable NounPhrase_bool : NounPhrase -> bool.

(** [requests.get(url, timeout=timeout)] *)
Definition get (url : string) (timeout : PrimFloat.float) : run Response :=
  fun s =>
    let s' := {| self := self s;
                 sent := {| url := url; timeout_of := timeout |} :: sent s |} in
    match requests_get url timeout with
    | inl e => Raise (Requests e) s'
    | inr response => Ret response s'
    end.

Definition connect (api_key : string) : run unit :=
  let api_key := match getenv "API_KEY" with Some v => v | None => api_key end in
  do book <- (fun s => Ret (self s) s);
  let test_url := _base_url book ++ "?appid=" ++ api_key ++ "&q=London" in
  do response <- get test_url (_timeout book);
  (if (status_code response =? 401)%Z then
     do response_data <- json_of response;
     do message <- get_default response_data "message" (JString "");
     do invalid <- contains "Invalid API key" message;
     if invalid then raise (ValueError "Invalid API key") else ret tt
   else ret tt);;
  fun s => Ret tt {| self := {| _base_url := _base_url (self s);
                                _api_key := Some api_key;
                                _timeout := _timeout (self s) |};
                     sent := sent s |}.

(** [f"{self._api_key}"]: the key, or "None" before [connect]. *)
Definition format_key (api_key : option string) : string :=
  match api_key with Some k => k | None => "None" end.

(** [str(unit) if unit else 'standard'] *)
Definition units (unit : option NounPhrase) : string :=
  match unit with
  | Some u => if NounPhrase_bool u then NounPhrase_str u else "standard"
  | None => "standard"
  end.

(** [current_temperature]: each [except] clause logs and raises the
    exception again, so the exceptions of the body are those of the
    procedure. The log is not part of the model. *)
Definition current_temperature (city : NounPhrase) (unit : option NounPhrase)
  : run json :=
  do book <- (fun s => Ret (self s) s);
  let complete_url :=
    _base_url book ++ "?appid=" ++ format_key (_api_key book)
    ++ "&q=" ++ quote (NounPhrase_str city) ++ "&units=" ++ units unit in
  do response <- get complete_url (_timeout book);
  raise_for_status response;;
  do weather_data <- json_of response;
  do main <- subscript weather_data "main";
  do temperature <- subscript main "temp";
  ret temperature.

End Book.

End openweather_book.

(** ** Vocabulary of the statements *)

Module vocabulary.
Import Py bdk yaml_book.

(** The first key of [d], in iteration order, whose lower-cased name is the
    lower-cased [key]. *)
Definition first_folding (key : string) (d : dict) : option string :=
  head (List.filter (fun k => String.eqb (lower k) (lower key)) (keys d)).

(** Every node that [v] refers to is in the heap. *)
Fixpoint allocated (h : heap) (v : YAMLValue) : bool :=
  match v with
  | YScalar _ => true
  | YConcept l => bool_decide (is_Some (nodes h !! l))
  | YList items => forallb (allocated h) items
  end.

(** The text that PyYAML's [safe_dump] gives for [None]: the line "null"
    and the end-of-document line "...". *)
Definition newline : string := String (ascii_of_nat 10) "".
Definition pyyaml_null : string := "null" ++ newline ++ "..." ++ newline.

(** *** Heaps *)

(** [h'] has the dicts of [h] and its nodes, and maybe more nodes. *)
Definition extends (h h' : heap) : Prop :=
  dicts h' = dicts h /\ forall l c, nodes h !! l = Some c -> nodes h' !! l = Some c.

(** [h'] has the nodes of [h], and its dicts but for the items of the dict
    of the node [self]. *)
Definition changes_own_dict (self : loc) (h h' : heap) : Prop :=
  nodes h' = nodes h
  /\ forall r', (forall r, nodes h !! self = Some (cls (Some r)) -> r <> r') ->
                dicts h' !! r' = dicts h !! r'.

(** *** Documents *)

(** What a value is made of, without the objects: a YAML document as a
    tree of scalars, sequences and mappings. *)
Inductive document :=
| DScalar (s : scalar)
| DSeq (items : list document)
| DMap (items : list (string * document)).

(** The depth of nesting of a document. *)
Fixpoint height (t : document) : nat :=
  match t with
  | DScalar _ => 0
  | DSeq ts => S (fold_right (fun t n => Nat.max (height t) n) 0%nat ts)
  | DMap m => S (fold_right (fun kt n => Nat.max (height (snd kt)) n) 0%nat m)
  end.

(** Structural equality of documents: scalars by kind and content,
    sequences element-wise, mappings as Python compares dicts (same size,
    and every key of the one is in the other with an equal value). *)
Definition scalar_eqb (a b : scalar) : bool :=
  match a, b with
  | SNone, SNone => true
  | SBool x, SBool y => Bool.eqb x y
  | SInt x, SInt y => Z.eqb x y
  | SFloat x, SFloat y => Z.eqb x y
  | SStr x, SStr y => String.eqb x y
  | _, _ => false
  end.

Fixpoint document_eqb (a b : document) {struct a} : bool :=
  match a, b with
  | DScalar x, DScalar y => scalar_eqb x y
  | DSeq la, DSeq lb =>
      (fix all2 (la lb : list document) : bool :=
         match la, lb with
         | [], [] => true
         | x :: ra, y :: rb => document_eqb x y && all2 ra rb
         | _, _ => false
         end) la lb
  | DMap da, DMap db =>
      Nat.eqb (length da) (length db)
      && (fix each (da : list (string * document)) : bool :=
            match da with
            | [] => true
            | (k, v) :: ra =>
                match dict_get k db with
                | Some w => document_eqb v w
                | None => false
                end && each ra
            end) da
  | _, _ => false
  end.

(** The two lists correspond item by item, and the sets of objects of the
    items are pairwise disjoint, with union [F]. *)
Inductive all_items {A B : Type} (P : A -> B -> gset loc -> Prop)
  : list A -> list B -> gset loc -> Prop :=
| all_nil : all_items P [] [] ∅
| all_cons a b F1 la lb F2 :
    P a b F1 -> all_items P la lb F2 -> F1 ## F2 ->
    all_items P (a :: la) (b :: lb) (F1 ∪ F2).

(** [denotes D v t F]: with the dict objects [D], the value [v] is the
    document [t]; it is made of the dict objects [F], each used once, and
    the keys of each dict are distinct. *)
Inductive denotes (D : gmap loc dict) : pyvalue -> document -> gset loc -> Prop :=
| denotes_scalar s : denotes D (VScalar s) (DScalar s) ∅
| denotes_list vs ts F :
    all_items (denotes D) vs ts F -> denotes D (VList vs) (DSeq ts) F
| denotes_dict r d m F :
    D !! r = Some d ->
    all_items (fun kv kt F => fst kv = fst kt /\ denotes D (snd kv) (snd kt) F) d m F ->
    r ∉ F ->
    List.NoDup (keys d) ->
    denotes D (VDict r) (DMap m) ({[r]} ∪ F).

(** The items of a dict and of a mapping correspond. *)
Definition items_denote (D : gmap loc dict)
  : dict -> list (string * document) -> gset loc -> Prop :=
  all_items (fun kv kt F => fst kv = fst kt /\ denotes D (snd kv) (snd kt) F).

(** What [always_merger] computes, on documents. *)
Definition merge_items_with (merge_document : document -> document -> document)
  : list (string * document) -> list (string * document) -> list (string * document) :=
  fix loop (base items : list (string * document)) {struct items} :=
    match items with
    | [] => base
    | (k, v) :: rest =>
        match dict_get k base with
        | None => loop (dict_set k v base) rest
        | Some bv => loop (dict_set k (merge_document bv v) base) rest
        end
    end.

Fixpoint merge_document (base nxt : document) {struct nxt} : document :=
  match base, nxt with
  | DSeq b, DSeq n => DSeq (b ++ n)%list
  | DMap b, DMap n => DMap (merge_items_with merge_document b n)
  | _, _ => nxt
  end.

Definition merge_items
  : list (string * document) -> list (string * document) -> list (string * document) :=
  merge_items_with merge_document.

(** [merge_refines limit]: with this recursion limit, [value_strategy] on a
    base and an incoming value that denote documents and share no dict
    object returns a value that denotes the merge of the two documents; it
    returns the base dict itself when both are dicts, changes no node, and
    changes no dict object outside those of the two values. *)
Definition merge_refines (limit : nat) : Prop :=
  forall B N bv nv h FB FN,
    height N < limit ->
    denotes (dicts h) bv B FB ->
    denotes (dicts h) nv N FN ->
    FB ## FN ->
    exists h' r F',
      value_strategy limit bv nv h = Ret r h'
      /\ denotes (dicts h') r (merge_document B N) F'
      /\ F' ⊆ FB ∪ FN
      /\ nodes h' = nodes h
      /\ (forall l, l ∉ FB ∪ FN -> dicts h' !! l = dicts h !! l)
      /\ (forall rb rn, bv = VDict rb -> nv = VDict rn -> r = VDict rb).

(** [writes_base_only limit]: with this recursion limit, a [value_strategy]
    that returns, on a base and an incoming value that denote documents and
    share no dict object, has changed no dict object outside those of the
    base. *)
Definition writes_base_only (limit : nat) : Prop :=
  forall B N bv nv h FB FN res h',
    height N < limit ->
    denotes (dicts h) bv B FB ->
    denotes (dicts h) nv N FN ->
    FB ## FN ->
    value_strategy limit bv nv h = Ret res h' ->
    forall l, l ∉ FB -> dicts h' !! l = dicts h !! l.

End vocabulary.

Module filter_vocabulary.
Import Py bdk sms_message_filter.

Section Trees.

Variable datetime : Type.

(** The comparison of a field with a literal: [np op v]. *)
Definition comparison (np : NounPhrase) (op : FilterBinaryOperator)
    (v : pyobject datetime) : FilterExpression datetime :=
  FilterBinaryExpression (NounPhrasesExpression [np]) op (ValueExpression v).

(** The conjunction of two filters. *)
Definition conjunction (a b : FilterExpression datetime) : FilterExpression datetime :=
  FilterBinaryExpression a AND b.

(** [visited e t]: the node [e] is on the path of the traversal of [t]; it
    is [t] itself or lies in an operand of a visited binary expression. The
    operand of a unary expression is not visited. *)
Inductive visited (e : FilterExpression datetime) : FilterExpression datetime -> Prop :=
| visited_root : visited e e
| visited_left l op r : visited e l -> visited e (FilterBinaryExpression l op r)
| visited_right l op r : visited e r -> visited e (FilterBinaryExpression l op r).

(** [occurs e t]: the node [e] is anywhere in the tree [t]. *)
Inductive occurs (e : FilterExpression datetime) : FilterExpression datetime -> Prop :=
| occurs_root : occurs e e
| occurs_left l op r : occurs e l -> occurs e (FilterBinaryExpression l op r)
| occurs_right l op r : occurs e r -> occurs e (FilterBinaryExpression l op r)
| occurs_unary op t : occurs e t -> occurs e (FilterUnaryExpression op t).

(** A binary expression with an operator other than equals, greater-than,
    less-than and and. *)
Definition unsupported_operator (e : FilterExpression datetime) : Prop :=
  exists l name r, e = FilterBinaryExpression l (OtherOperator name) r.

(** A field reference that names more than one noun phrase (or none), or a
    field outside sender number, recipient number and date sent. *)
Definition unsupported_reference (noun_phrases : list NounPhrase) : Prop :=
  length noun_phrases <> 1%nat
  \/ exists np, noun_phrases = [np]
                /\ np <> SENDER_NUMBER /\ np <> RECIPIENT_NUMBER /\ np <> DATE_SENT.

Definition is_datetime (v : pyobject datetime) : bool :=
  match v with ObjDatetime _ => true | _ => false end.

Definition is_comparison_operator (op : FilterBinaryOperator) : bool :=
  match op with EQUALS | GREATER_THAN | LESS_THAN => true | _ => false end.

(** An equals, greater-than or less-than comparison of the date-sent field
    with a value that is not a datetime. *)
Definition mistyped_date_comparison (e : FilterExpression datetime) : Prop :=
  exists op v, e = comparison DATE_SENT op v
               /\ is_comparison_operator op = true /\ is_datetime v = false.

Definition offending (e : FilterExpression datetime) : Prop :=
  unsupported_operator e
  \/ (exists noun_phrases,
        e = NounPhrasesExpression noun_phrases /\ unsupported_reference noun_phrases)
  \/ mistyped_date_comparison e.

(** The comparison with its operands the other way round: [v op np]. *)
Definition value_first (v : pyobject datetime) (op : FilterBinaryOperator)
    (np : NounPhrase) : FilterExpression datetime :=
  FilterBinaryExpression (ValueExpression v) op (NounPhrasesExpression [np]).

(** A slot holds a value. *)
Definition is_set {A : Type} (x : slot A) : bool :=
  match x with holds _ => true | unset => false end.

(** Every output slot that holds a value in [a] holds one in [b]. *)
Definition keeps_set (a b : SMSMessageFilter datetime) : Prop :=
  (is_set (sender_number a) = true -> is_set (sender_number b) = true)
  /\ (is_set (recipient_number a) = true -> is_set (recipient_number b) = true)
  /\ (is_set (date_sent a) = true -> is_set (date_sent b) = true)
  /\ (is_set (date_sent_before a) = true -> is_set (date_sent_before b) = true)
  /\ (is_set (date_sent_after a) = true -> is_set (date_sent_after b) = true).

(** The output slots, and the supported comparison that writes each:
    [sets e x] when [e] is a comparison that the visitor stores in [x]. *)
Inductive slot_name :=
| SenderNumber
| RecipientNumber
| DateSent
| DateSentBefore
| DateSentAfter.

Inductive sets : FilterExpression datetime -> slot_name -> Prop :=
| sets_sender v : sets (comparison SENDER_NUMBER EQUALS v) SenderNumber
| sets_recipient v : sets (comparison RECIPIENT_NUMBER EQUALS v) RecipientNumber
| sets_date t : sets (comparison DATE_SENT EQUALS (ObjDatetime t)) DateSent
| sets_before t : sets (comparison DATE_SENT LESS_THAN (ObjDatetime t)) DateSentBefore
| sets_after t : sets (comparison DATE_SENT GREATER_THAN (ObjDatetime t)) DateSentAfter.

(** The five output slots of two visitors agree. *)
Definition same_slots (a b : SMSMessageFilter datetime) : Prop :=
  sender_number a = sender_number b
  /\ recipient_number a = recipient_number b
  /\ date_sent a = date_sent b
  /\ date_sent_before a = date_sent_before b
  /\ date_sent_after a = date_sent_after b.

(** The query that [read_sms_messages] builds from a visitor. *)
Definition query_of (s : SMSMessageFilter datetime) : twilio_book.query datetime :=
  {| twilio_book.to := recipient_number s;
     twilio_book.from_ := sender_number s;
     twilio_book.date_sent := date_sent s;
     twilio_book.date_sent_before := date_sent_before s;
     twilio_book.date_sent_after := date_sent_after s |}.

End Trees.

(** A message of the provider of which only [num_media] is told. *)
Definition numbered (n : Z) : sms_message.MessageInstance Z := {|
  sms_message.instance_sid := None;
  sms_message.instance_body := None;
  sms_message.instance_num_segments := None;
  sms_message.instance_from_ := None;
  sms_message.instance_to := None;
  sms_message.instance_date_updated := None;
  sms_message.instance_price := None;
  sms_message.instance_status := None;
  sms_message.instance_messaging_service_sid := "";
  sms_message.instance_date_sent := None;
  sms_message.instance_date_created := None;
  sms_message.instance_account_sid := "";
  sms_message.instance_num_media := n;
  sms_message.instance_price_unit := "";
  sms_message.instance_error_code := None;
  sms_message.instance_error_message := None
|}.

Arguments query_of {datetime} s.
Arguments comparison {datetime} np op v.
Arguments conjunction {datetime} a b.
Arguments visited {datetime} e _.
Arguments occurs {datetime} e _.
Arguments unsupported_operator {datetime} e.
Arguments mistyped_date_comparison {datetime} e.
Arguments offending {datetime} e.
Arguments is_datetime {datetime} v.
Arguments same_slots {datetime} a b.
Arguments value_first {datetime} v op np.
Arguments keeps_set {datetime} a b.
Arguments sets {datetime} _ _.

End filter_vocabulary.

Module weather_vocabulary.
Import Py bdk openweather_book.

(** A call of a method of the book. *)
Inductive call :=
| SetTimeout (timeout : PrimFloat.float)
| Connect (api_key : string)
| CurrentTemperature (city : NounPhrase) (unit : option NounPhrase).

(** A new book, before any request. *)
Definition new_state : state := {| self := OpenWeatherBook_new; sent := [] |}.

Section Calls.

Variable getenv : string -> option string.
Variable requests_get : string -> PrimFloat.float -> RequestException + Response.
Variable quote : string -> string.
Variable NounPhrase_str : NounPhrase -> string.
Variable NounPhrase_bool : NounPhrase -> bool.

(** The state that a call leaves, whether it returns or raises. *)
Definition after (c : call) (s : state) : state :=
  match c with
  | SetTimeout timeout => state_of (set_timeout timeout s)
  | Connect api_key => state_of (connect getenv requests_get api_key s)
  | CurrentTemperature city unit =>
      state_of (current_temperature requests_get quote NounPhrase_str NounPhrase_bool
                  city unit s)
  end.

(** The state after a sequence of calls, the first one first. *)
Definition after_all (calls : list call) (s : state) : state :=
  fold_left (fun s c => after c s) calls s.

(** The request of [connect], for the key that it uses. *)
Definition connect_request (key : string) (s : state) : request :=
  {| url := _base_url (self s) ++ "?appid=" ++ key ++ "&q=London";
     timeout_of := _timeout (self s) |}.

(** The request of [current_temperature]. *)
Definition temperature_request (city : NounPhrase) (unit : option NounPhrase)
    (s : state) : request :=
  {| url := _base_url (self s) ++ "?appid=" ++ format_key (_api_key (self s))
            ++ "&q=" ++ quote (NounPhrase_str city)
            ++ "&units=" ++ units NounPhrase_str NounPhrase_bool unit;
     timeout_of := _timeout (self s) |}.

(** What the network answers to a request. *)
Definition answer (r : request) : RequestException + Response :=
  requests_get (url r) (timeout_of r).

End Calls.

(** The status is one of the 4xx or 5xx. *)
Definition is_error_status (status : Z) : bool :=
  (400 <=? status)%Z && (status <? 600)%Z.

End weather_vocabulary.

(** ** Properties of the YAML document concept *)

Section YAMLConceptProperties.
Import Py bdk yaml_book vocabulary.

Implicit Types (h : heap) (d : dict) (key k : string) (r self : loc).

(** *** Dict items *)

Lemma contains_keys {V} k (d : list (string * V)) :
  contains k d = true <-> In k (keys d).
Proof.
  unfold contains. induction d as [|[k' v] d IH]; simpl.
  - split; [discriminate|tauto].
  - destruct (String.eqb k k') eqn:E.
    + apply String.eqb_eq in E. subst. tauto.
    + apply String.eqb_neq in E. rewrite IH. split; [auto|]. intros [?|?]; congruence.
Qed.

Lemma dict_get_keys {V} k (d : list (string * V)) :
  dict_get k d = None <-> ~ In k (keys d).
Proof.
  rewrite <- contains_keys. unfold contains.
  destruct (dict_get k d); split; intros; try congruence; try discriminate.
Qed.

Lemma dict_get_pop_other {V} k k' (d : list (string * V)) :
  k' <> k -> dict_get k' (dict_pop k d) = dict_get k' d.
Proof.
  intros Hne. induction d as [|[k1 v1] d IH]; simpl; [reflexivity|].
  destruct (String.eqb k k1) eqn:E.
  - apply String.eqb_eq in E. subst k1.
    apply String.eqb_neq in Hne. now rewrite Hne.
  - simpl. now rewrite IH.
Qed.

Lemma dict_get_pop {V} k (d : list (string * V)) :
  List.NoDup (keys d) -> dict_get k (dict_pop k d) = None.
Proof.
  induction d as [|[k1 v1] d IH]; simpl; [reflexivity|].
  intros Hnd. apply List.NoDup_cons_iff in Hnd as [Hnotin Hnd].
  destruct (String.eqb k k1) eqn:E.
  - apply String.eqb_eq in E. subst k1. now apply dict_get_keys.
  - simpl. rewrite E. auto.
Qed.

Lemma dict_get_set {V} k (item : V) (d : list (string * V)) :
  dict_get k (dict_set k item d) = Some item.
Proof.
  induction d as [|[k1 v1] d IH]; simpl.
  - now rewrite String.eqb_refl.
  - destruct (String.eqb k k1) eqn:E; simpl; rewrite E; [reflexivity|exact IH].
Qed.

Lemma dict_get_set_other {V} k k' (item : V) (d : list (string * V)) :
  k' <> k -> dict_get k' (dict_set k item d) = dict_get k' d.
Proof.
  intros Hne. apply String.eqb_neq in Hne.
  induction d as [|[k1 v1] d IH]; simpl.
  - now rewrite Hne.
  - destruct (String.eqb k k1) eqn:E; simpl.
    + apply String.eqb_eq in E. subst k1. now rewrite Hne.
    + now rewrite IH.
Qed.

Lemma dict_set_present {V} k (item : V) (d : list (string * V)) :
  In k (keys d) -> keys (dict_set k item d) = keys d.
Proof.
  induction d as [|[k1 v1] d IH]; simpl; [tauto|].
  destruct (String.eqb k k1) eqn:E; simpl; [reflexivity|].
  apply String.eqb_neq in E. intros [?|Hin]; [congruence|]. f_equal. auto.
Qed.

Lemma dict_set_absent {V} k (item : V) (d : list (string * V)) :
  ~ In k (keys d) -> dict_set k item d = (d ++ [(k, item)])%list.
Proof.
  induction d as [|[k1 v1] d IH]; simpl; [reflexivity|].
  intros Hnotin. destruct (String.eqb k k1) eqn:E.
  - apply String.eqb_eq in E. subst k1. exfalso. apply Hnotin. now left.
  - f_equal. apply IH. intros Hin. apply Hnotin. now right.
Qed.

(** *** Resolution of a key by lower-cased names *)

Lemma matching_keys_folding key d :
  head (matching_keys key d) = first_folding key d.
Proof.
  unfold matching_keys, first_folding. f_equal.
  induction (keys d) as [|k ks IH]; simpl; [reflexivity|].
  rewrite (String.eqb_sym (lower key) (lower k)), IH. reflexivity.
Qed.

Lemma lower_in_keys_folding key d :
  lower_in_keys key d = match first_folding key d with Some _ => true | None => false end.
Proof.
  unfold lower_in_keys, first_folding, str_in.
  induction (keys d) as [|k ks IH]; simpl; [reflexivity|].
  rewrite (String.eqb_sym (lower key) (lower k)).
  destruct (String.eqb (lower k) (lower key)); simpl; [reflexivity|exact IH].
Qed.

Lemma first_folding_spec key d k0 :
  first_folding key d = Some k0 -> In k0 (keys d) /\ lower k0 = lower key.
Proof.
  unfold first_folding. induction (keys d) as [|k ks IH]; simpl; [discriminate|].
  destruct (String.eqb (lower k) (lower key)) eqn:E; simpl.
  - intros [= <-]. apply String.eqb_eq in E. auto.
  - intros H. destruct (IH H). auto.
Qed.

Lemma first_folding_none key d :
  first_folding key d = None -> forall k, In k (keys d) -> lower k <> lower key.
Proof.
  unfold first_folding. induction (keys d) as [|k ks IH]; simpl; [tauto|].
  destruct (String.eqb (lower k) (lower key)) eqn:E; simpl; [discriminate|].
  intros H k' [<-|Hin]; [now apply String.eqb_neq|auto].
Qed.

Lemma first_matching_key_folding key d k0 h :
  first_folding key d = Some k0 -> first_matching_key key d h = Ret k0 h.
Proof.
  rewrite <- matching_keys_folding. unfold first_matching_key.
  destruct (matching_keys key d); simpl; [discriminate|]. now intros [= ->].
Qed.

Lemma first_folding_same key key' d :
  lower key = lower key' -> first_folding key d = first_folding key' d.
Proof. unfold first_folding. now intros ->. Qed.

(** C2, as amended. A case-insensitive [has], [get] or [delete] resolves the
    query key to the first key of the mapping, in iteration order, whose
    lower-cased name equals the lower-cased query key: [has] answers whether
    there is one, [get] and [delete] act as their case-sensitive forms on
    that key, and raise [KeyError] when there is none. For a mapping with a
    key "Movies", [has("movies", False)] is true; and when "Movies" is the
    first key that lower-cases to "movies", [get("MOVIES", False)] is
    [get("Movies", True)] and [delete("movies", False)] removes from the
    dict the entry of "Movies" and no other. *)
Theorem case_insensitive_key_resolution h self r d key :
  nodes h !! self = Some (cls (Some r)) ->
  dicts h !! r = Some d ->
  (exists b, has self key false h = Ret b h
             /\ (b = true <-> exists k, In k (keys d) /\ lower k = lower key))
  /\ match first_folding key d with
     | Some k0 =>
         get self key false h = get self k0 true h
         /\ delete self key false h = delete self k0 true h
         /\ delete self k0 true h
            = Ret tt {| dicts := <[r := dict_pop k0 d]> (dicts h); nodes := nodes h |}
     | None =>
         get self key false h = Raise (KeyError key) h
         /\ delete self key false h = Raise (KeyError key) h
     end
  /\ (contains "Movies" d = true -> has self "movies" false h = Ret true h)
  /\ (first_folding "movies" d = Some "Movies" ->
      get self "MOVIES" false h = get self "Movies" true h
      /\ delete self "movies" false h = delete self "Movies" true h
      /\ delete self "movies" false h
         = Ret tt {| dicts := <[r := dict_pop "Movies" d]> (dicts h); nodes := nodes h |}
      /\ (forall k, k <> "Movies" ->
                    dict_get k (dict_pop "Movies" d) = dict_get k d)
      /\ (List.NoDup (keys d) -> contains "Movies" (dict_pop "Movies" d) = false)).
Proof.
  intros Hself Hr.
  assert (Hres : forall q k0, first_folding q d = Some k0 ->
            get self q false h = get self k0 true h
            /\ delete self q false h = delete self k0 true h
            /\ delete self k0 true h
               = Ret tt {| dicts := <[r := dict_pop k0 d]> (dicts h);
                           nodes := nodes h |}).
  { intros q k0 Hk0.
    destruct (first_folding_spec _ _ _ Hk0) as [Hin _].
    apply contains_keys in Hin.
    unfold get, delete, pop, bind, node, items. rewrite Hself. simpl.
    rewrite Hr, lower_in_keys_folding, Hk0, Hin.
    rewrite (first_matching_key_folding _ _ _ _ Hk0), Hr. auto. }
  split; [|split; [|split]].
  - unfold has, bind, node, items. rewrite Hself. simpl. rewrite Hr.
    rewrite lower_in_keys_folding.
    destruct (first_folding key d) as [k0|] eqn:Hk0.
    + exists true. split; [reflexivity|]. split; [|reflexivity].
      intros _. exists k0. now apply first_folding_spec.
    + exists false. split; [reflexivity|]. split; [discriminate|].
      intros (k & Hin & Hlow). exfalso.
      exact (first_folding_none _ _ Hk0 _ Hin Hlow).
  - destruct (first_folding key d) as [k0|] eqn:Hk0; [now apply Hres|].
    unfold get, delete, bind, node, items. rewrite Hself. simpl.
    rewrite Hr, lower_in_keys_folding, Hk0. auto.
  - intros Hin. apply contains_keys in Hin.
    unfold has, bind, node, items. rewrite Hself. simpl. rewrite Hr.
    rewrite lower_in_keys_folding.
    destruct (first_folding "movies" d) eqn:Hk0; [reflexivity|].
    exfalso. exact (first_folding_none _ _ Hk0 _ Hin eq_refl).
  - intros Hk0.
    assert (HK : first_folding "MOVIES" d = Some "Movies")
      by (rewrite <- Hk0; now apply first_folding_same).
    destruct (Hres _ _ HK) as (Hget & _ & _).
    destruct (Hres _ _ Hk0) as (_ & Hdel & Hpop).
    repeat split; auto.
    + now rewrite Hdel.
    + intros k Hne. now apply dict_get_pop_other.
    + intros Hnd. unfold contains. now rewrite dict_get_pop.
Qed.

(** The theorem at a node on the dict [{"Movies": 1}]. *)
Lemma case_insensitive_key_resolution_witness :
  has 0%nat "movies" false
      {| dicts := {[ 10%nat := [("Movies", VScalar (SInt 1))] ]};
         nodes := {[ 0%nat := cls (Some 10%nat) ]} |}
  = Ret true
        {| dicts := {[ 10%nat := [("Movies", VScalar (SInt 1))] ]};
           nodes := {[ 0%nat := cls (Some 10%nat) ]} |}.
Proof.
  destruct (case_insensitive_key_resolution
              {| dicts := {[ 10%nat := [("Movies", VScalar (SInt 1))] ]};
                 nodes := {[ 0%nat := cls (Some 10%nat) ]} |}
              0%nat 10%nat [("Movies", VScalar (SInt 1))] "movies")
    as (_ & _ & Hhas & _).
  - vm_compute. reflexivity.
  - vm_compute. reflexivity.
  - apply Hhas. vm_compute. reflexivity.
Defined.

(** C2, as stated, fails on the mapping [{"movies": 1, "Movies": 2}], which
    has a key "Movies": the case-insensitive [get] of "MOVIES" returns the
    value of "movies", and the case-insensitive [delete] of "movies" leaves
    the entry of "Movies" in place. *)
Lemma case_insensitive_get_takes_first_key :
  let d := [("movies", VScalar (SInt 1)); ("Movies", VScalar (SInt 2))] in
  let h := {| dicts := {[ 10%nat := d ]}; nodes := {[ 0%nat := cls (Some 10%nat) ]} |} in
  contains "Movies" d = true
  /\ get 0%nat "MOVIES" false h = Ret (YScalar (SInt 1)) h
  /\ get 0%nat "Movies" true h = Ret (YScalar (SInt 2)) h
  /\ get 0%nat "MOVIES" false h <> get 0%nat "Movies" true h
  /\ delete 0%nat "movies" false h
     = Ret tt {| dicts := {[ 10%nat := [("Movies", VScalar (SInt 2))] ]};
                 nodes := {[ 0%nat := cls (Some 10%nat) ]} |}.
Proof.
  repeat split; try (vm_compute; reflexivity).
  vm_compute. discriminate.
Qed.

(** *** [get] of a nested mapping *)

(** The node that [get] returns for a nested mapping is a view: a new node
    on the very dict object that the parent holds under the key, so that a
    change made through the one is seen through the other. *)
Lemma get_wraps_the_same_dict h self r d key nested :
  nodes h !! self = Some (cls (Some r)) ->
  dicts h !! r = Some d ->
  dict_get key d = Some (VDict nested) ->
  exists view,
    get self key true h
    = Ret (YConcept view)
          {| dicts := dicts h; nodes := <[view := cls (Some nested)]> (nodes h) |}
    /\ nodes h !! view = None.
Proof.
  intros Hself Hr Hget. exists (fresh (dom (nodes h))). split.
  - unfold get, subscript, contains, bind, node, items. rewrite Hself. simpl.
    rewrite Hr, Hget. reflexivity.
  - apply not_elem_of_dom. apply is_fresh.
Qed.

(** *** [set] *)

Lemma YAMLValue_nested_ind (P : YAMLValue -> Prop) :
  (forall s, P (YScalar s)) ->
  (forall l, P (YConcept l)) ->
  (forall items, List.Forall P items -> P (YList items)) ->
  forall v, P v.
Proof.
  intros Hs Hc Hl.
  fix IH 1. intros [s|l|items]; [apply Hs|apply Hc|].
  apply Hl. induction items as [|x items IHitems]; constructor; [apply IH|exact IHitems].
Qed.

(** [unwrap] reads the heap and leaves it as it is. *)
Lemma unwrap_state v h : state_of (unwrap v h) = h.
Proof.
  revert h. induction v as [s|l|items IH] using YAMLValue_nested_ind; intros h.
  - reflexivity.
  - simpl. unfold bind, node. destruct (nodes h !! l); reflexivity.
  - simpl. unfold bind at 1.
    match goal with |- context [?f items h] => set (each := f) end.
    assert (Heach : state_of (each items h) = h).
    { induction IH as [|x items Hx _ IHitems]; [reflexivity|].
      simpl. unfold bind at 1. specialize (Hx h).
      destruct (unwrap x h) as [a s1|e s1]; simpl in Hx; subst s1; [|reflexivity].
      unfold bind at 1.
      destruct (each items h) as [a' s2|e s2]; simpl in IHitems; subst s2; reflexivity. }
    destruct (each items h) as [a s1|e s1]; simpl in Heach; subst s1; reflexivity.
Qed.

Lemma unwrap_raise v h e h' : unwrap v h = Raise e h' -> h' = h.
Proof. intros H. rewrite <- (unwrap_state v h), H. reflexivity. Qed.

(** [unwrap] returns when the nodes of the value exist. *)
Lemma unwrap_allocated v h :
  allocated h v = true -> exists item, unwrap v h = Ret item h.
Proof.
  induction v as [s|l|items IH] using YAMLValue_nested_ind; simpl; intros Hal.
  - eexists. reflexivity.
  - apply bool_decide_eq_true in Hal as [c Hc].
    unfold bind, node. rewrite Hc. eexists. reflexivity.
  - unfold bind at 1.
    match goal with |- context [?f items h] => set (each := f) end.
    assert (Heach : exists vs, each items h = Ret vs h).
    { induction IH as [|x items Hx _ IHitems]; [eexists; reflexivity|].
      simpl in Hal. apply andb_true_iff in Hal as [Hx' Hitems'].
      destruct (Hx Hx') as [a Ha]. destruct (IHitems Hitems') as [vs Hvs].
      simpl. unfold bind at 1. rewrite Ha. unfold bind at 1. rewrite Hvs.
      eexists. reflexivity. }
    destruct Heach as [vs ->]. eexists. reflexivity.
Qed.

(** C3. With a mapping present and the value unwrapped to [item], a
    case-sensitive [set] returns the node, having put [item] under the exact
    key of its dict, a new key going last and the other keys keeping their
    values; a case-insensitive [set] writes [item] under the first key
    whose lower-cased name is that of the query and adds no key, and raises
    [KeyError] when no key matches. A case-sensitive [set] of a value whose
    nodes exist does not raise. Without a mapping [set] raises [KeyError]
    in both modes, and a [set] that raises leaves the heap as it was. *)
Theorem set_upserts_or_raises h self key v :
  (forall r d item,
      nodes h !! self = Some (cls (Some r)) ->
      dicts h !! r = Some d ->
      unwrap v h = Ret item h ->
      set self key v true h
      = Ret self {| dicts := <[r := dict_set key item d]> (dicts h); nodes := nodes h |}
      /\ dict_get key (dict_set key item d) = Some item
      /\ (forall k, k <> key -> dict_get k (dict_set key item d) = dict_get k d)
      /\ (~ In key (keys d) -> dict_set key item d = (d ++ [(key, item)])%list)
      /\ (forall k0, first_folding key d = Some k0 ->
            set self key v false h
            = Ret self {| dicts := <[r := dict_set k0 item d]> (dicts h);
                          nodes := nodes h |}
            /\ In k0 (keys d) /\ lower k0 = lower key
            /\ dict_get k0 (dict_set k0 item d) = Some item
            /\ keys (dict_set k0 item d) = keys d))
  /\ (forall r d,
         nodes h !! self = Some (cls (Some r)) ->
         dicts h !! r = Some d ->
         (forall k, In k (keys d) -> lower k <> lower key) ->
         set self key v false h = Raise (KeyError key) h)
  /\ (forall r d,
         nodes h !! self = Some (cls (Some r)) ->
         dicts h !! r = Some d ->
         allocated h v = true ->
         exists h', set self key v true h = Ret self h')
  /\ (nodes h !! self = Some (cls None) ->
      forall case_sensitive, set self key v case_sensitive h = Raise (KeyError key) h)
  /\ (forall case_sensitive e h',
         set self key v case_sensitive h = Raise e h' -> h' = h).
Proof.
  split; [|split; [|split; [|split]]].
  - intros r d item Hself Hr Hitem.
    split; [|split; [|split; [|split]]].
    + unfold set, setitem, bind, node, items. rewrite Hself. simpl.
      rewrite Hitem, Hr. reflexivity.
    + apply dict_get_set.
    + intros k Hne. now apply dict_get_set_other.
    + apply dict_set_absent.
    + intros k0 Hk0. destruct (first_folding_spec _ _ _ Hk0) as [Hin Hlow].
      split; [|split; [|split; [|split]]]; auto.
      * unfold set, setitem, bind, node, items. rewrite Hself. simpl.
        rewrite Hr, lower_in_keys_folding, Hk0.
        rewrite (first_matching_key_folding _ _ _ _ Hk0), Hitem, Hr. reflexivity.
      * apply dict_get_set.
      * now apply dict_set_present.
  - intros r d Hself Hr Hnone.
    unfold set, bind, node, items. rewrite Hself. simpl.
    rewrite Hr, lower_in_keys_folding.
    destruct (first_folding key d) as [k0|] eqn:Hk0; [|reflexivity].
    destruct (first_folding_spec _ _ _ Hk0) as [Hin Hlow].
    exfalso. exact (Hnone _ Hin Hlow).
  - intros r d Hself Hr Hal. destruct (unwrap_allocated _ _ Hal) as [item Hitem].
    unfold set, setitem, bind, node, items. rewrite Hself. simpl.
    rewrite Hitem, Hr. eexists. reflexivity.
  - intros Hself cs. unfold set, bind, node. rewrite Hself. reflexivity.
  - intros cs e h'. unfold set, setitem, bind, node, items.
    destruct (nodes h !! self) as [[[r|]]|]; simpl; try (now intros [= _ <-]).
    destruct cs.
    + destruct (unwrap v h) as [item h1|e1 h1] eqn:Hu.
      * apply (f_equal state_of) in Hu. rewrite unwrap_state in Hu. simpl in Hu.
        subst h1. destruct (dicts h !! r); [discriminate|now intros [= _ <-]].
      * intros [= _ <-]. now apply unwrap_raise in Hu.
    + destruct (dicts h !! r) as [d|] eqn:Hr; [|now intros [= _ <-]].
      destruct (lower_in_keys key d); [|now intros [= _ <-]].
      unfold first_matching_key.
      destruct (matching_keys key d); simpl; [now intros [= _ <-]|].
      destruct (unwrap v h) as [item h1|e1 h1] eqn:Hu.
      * apply (f_equal state_of) in Hu. rewrite unwrap_state in Hu. simpl in Hu.
        subst h1. rewrite Hr. discriminate.
      * intros [= _ <-]. now apply unwrap_raise in Hu.
Qed.

(** The theorem at a node on the dict [{"Movies": 1}], for the key "movies"
    and the value [5]. *)
Lemma set_upserts_or_raises_witness :
  set 0%nat "movies" (YScalar (SInt 5)) false
      {| dicts := {[ 10%nat := [("Movies", VScalar (SInt 1))] ]};
         nodes := {[ 0%nat := cls (Some 10%nat) ]} |}
  = Ret 0%nat
        {| dicts := <[ 10%nat := dict_set "Movies" (VScalar (SInt 5))
                                          [("Movies", VScalar (SInt 1))] ]>
                      {[ 10%nat := [("Movies", VScalar (SInt 1))] ]};
           nodes := {[ 0%nat := cls (Some 10%nat) ]} |}.
Proof.
  destruct (set_upserts_or_raises
              {| dicts := {[ 10%nat := [("Movies", VScalar (SInt 1))] ]};
                 nodes := {[ 0%nat := cls (Some 10%nat) ]} |}
              0%nat "movies" (YScalar (SInt 5))) as (Hpresent & _).
  destruct (Hpresent 10%nat [("Movies", VScalar (SInt 1))] (VScalar (SInt 5)))
    as (_ & _ & _ & _ & Hfold);
    [vm_compute; reflexivity | vm_compute; reflexivity | reflexivity |].
  apply Hfold. vm_compute. reflexivity.
Defined.

(** *** [set_property_to_value] *)

Lemma has_no_match h self c key :
  nodes h !! self = Some c ->
  (forall r, value c = Some r ->
     exists d, dicts h !! r = Some d
               /\ forall k, In k (keys d) -> lower k <> lower key) ->
  has self key false h = Ret false h.
Proof.
  intros Hself Hnone. unfold has, bind, node, items. rewrite Hself.
  destruct c as [[r|]]; simpl; [|reflexivity].
  destruct (Hnone r eq_refl) as (d & Hr & Hkeys). rewrite Hr.
  rewrite lower_in_keys_folding.
  destruct (first_folding key d) as [k0|] eqn:Hk0; [|reflexivity].
  destruct (first_folding_spec _ _ _ Hk0) as [Hin Hlow].
  exfalso. exact (Hkeys _ Hin Hlow).
Qed.

(** C10. When no candidate field name of the noun phrase matches, by
    lower-cased names, a key of the node's mapping (or the node has no
    mapping), [set_property_to_value] raises nothing and returns the node
    it was given, the heap being as it was. *)
Theorem set_property_to_value_without_match
    (to_field_names : NounPhrase -> list string) h yaml c np v :
  nodes h !! yaml = Some c ->
  (forall r, value c = Some r ->
     exists d, dicts h !! r = Some d
               /\ forall field_name, In field_name (to_field_names np) ->
                    forall k, In k (keys d) -> lower k <> lower field_name) ->
  set_property_to_value to_field_names yaml (PropertyNounPhrase np) v h = Ret yaml h.
Proof.
  intros Hyaml Hnone. unfold set_property_to_value.
  assert (Hloop : set_first_field yaml v (to_field_names np) h = Ret tt h).
  { induction (to_field_names np) as [|field_name rest IH]; [reflexivity|].
    simpl. unfold bind at 1.
    rewrite (has_no_match h yaml c field_name Hyaml).
    - apply IH. intros r Hr. destruct (Hnone r Hr) as (d & Hd & Hkeys).
      exists d. split; [exact Hd|]. intros f Hf. apply Hkeys. now right.
    - intros r Hr. destruct (Hnone r Hr) as (d & Hd & Hkeys).
      exists d. split; [exact Hd|]. apply Hkeys. now left. }
  unfold bind. rewrite Hloop. reflexivity.
Qed.

(** The theorem at a node on the dict [{"Movies": 1}] and a noun phrase with
    the candidates "release_date" and "release date". *)
Lemma set_property_to_value_without_match_witness :
  set_property_to_value (fun _ => ["release_date"; "release date"]) 0%nat
    (PropertyNounPhrase (from_word_list ["release"; "date"])) (YScalar (SInt 5))
    {| dicts := {[ 10%nat := [("Movies", VScalar (SInt 1))] ]};
       nodes := {[ 0%nat := cls (Some 10%nat) ]} |}
  = Ret 0%nat
        {| dicts := {[ 10%nat := [("Movies", VScalar (SInt 1))] ]};
           nodes := {[ 0%nat := cls (Some 10%nat) ]} |}.
Proof.
  apply (set_property_to_value_without_match _ _ _ (cls (Some 10%nat))).
  - vm_compute. reflexivity.
  - intros r [= <-]. exists [("Movies", VScalar (SInt 1))].
    split; [vm_compute; reflexivity|].
    intros f Hf k Hk. simpl in Hf, Hk.
    destruct Hk as [<-|[]]. destruct Hf as [<-|[<-|[]]]; vm_compute; discriminate.
Defined.

(** *** Serialization *)

Lemma encode_empty s : encode s = [] -> s = "".
Proof. destruct s; [reflexivity|discriminate]. Qed.

Lemma decode_encode s : decode (encode s) = s.
Proof. apply string_of_list_byte_of_string. Qed.

Lemma new_fresh (v : option loc) h :
  exists l,
    new v h = Ret l {| dicts := dicts h; nodes := <[l := cls v]> (nodes h) |}
    /\ nodes h !! l = None.
Proof.
  exists (fresh (dom (nodes h))). split; [reflexivity|].
  apply not_elem_of_dom. apply is_fresh.
Qed.

(** C5, on the code. For a node without a mapping [to_bytes] is empty, but
    [to_stream] has no such guard: the stream holds what [yaml.safe_dump]
    gives for [None], which for PyYAML is the nine characters of
    "null", "..." and their line ends. *)
Theorem to_stream_writes_none (safe_dump : gmap loc dict -> pyvalue -> string) h self :
  nodes h !! self = Some (cls None) ->
  to_bytes safe_dump self h = Ret [] h
  /\ to_stream safe_dump self h
     = Ret {| getvalue := safe_dump (dicts h) (VScalar SNone);
              tell := String.length (safe_dump (dicts h) (VScalar SNone)) |} h
  /\ (safe_dump (dicts h) (VScalar SNone) = pyyaml_null ->
      to_stream safe_dump self h = Ret {| getvalue := pyyaml_null; tell := 9 |} h
      /\ getvalue {| getvalue := pyyaml_null; tell := 9 |} <> "").
Proof.
  intros Hself.
  assert (Hstream : to_stream safe_dump self h
            = Ret {| getvalue := safe_dump (dicts h) (VScalar SNone);
                     tell := String.length (safe_dump (dicts h) (VScalar SNone)) |} h).
  { unfold to_stream, bind, node. rewrite Hself. reflexivity. }
  split; [|split; [exact Hstream|]].
  - unfold to_bytes, bind, node. rewrite Hself. reflexivity.
  - intros Hnull. rewrite Hstream, Hnull. split; [reflexivity|discriminate].
Qed.

(** The theorem at the node [YAMLConcept(None)]. *)
Lemma to_stream_writes_none_witness :
  to_stream (fun _ v => match v with VScalar SNone => pyyaml_null | _ => "{}" end) 0%nat
            {| dicts := ∅; nodes := {[ 0%nat := cls None ]} |}
  = Ret {| getvalue := pyyaml_null; tell := 9 |}
        {| dicts := ∅; nodes := {[ 0%nat := cls None ]} |}.
Proof.
  destruct (to_stream_writes_none
              (fun _ v => match v with VScalar SNone => pyyaml_null | _ => "{}" end)
              {| dicts := ∅; nodes := {[ 0%nat := cls None ]} |} 0%nat)
    as (_ & _ & Hnull).
  - vm_compute. reflexivity.
  - destruct (Hnull eq_refl) as [Hstream _]. exact Hstream.
Defined.

End YAMLConceptProperties.
(** ** Properties of [merge] *)

Section MergeProperties.
Import Py bdk yaml_book vocabulary.

Implicit Types (h : heap) (D : gmap loc dict) (d : dict) (k : string) (r : loc)
  (t : document) (m : list (string * document)) (F : gset loc).

(** *** Merging documents *)

Lemma merge_document_dict b n :
  merge_document (DMap b) (DMap n) = DMap (merge_items b n).
Proof. destruct n; reflexivity. Qed.

Lemma merge_document_scalar_base s t : merge_document (DScalar s) t = t.
Proof. destruct t; reflexivity. Qed.

Lemma merge_items_get n : forall b k,
  List.NoDup (keys n) ->
  dict_get k (merge_items b n)
  = match dict_get k b, dict_get k n with
    | Some bv, Some nv => Some (merge_document bv nv)
    | Some bv, None => Some bv
    | None, Some nv => Some nv
    | None, None => None
    end.
Proof.
  unfold merge_items.
  induction n as [|[k1 v1] rest IH]; intros b k Hnd; simpl.
  - destruct (dict_get k b); reflexivity.
  - change (List.NoDup (k1 :: keys rest)) in Hnd.
    apply List.NoDup_cons_iff in Hnd as [Hnotin Hnd].
    destruct (String.eqb k k1) eqn:E.
    + apply String.eqb_eq in E. subst k1.
      apply dict_get_keys in Hnotin.
      destruct (dict_get k b) as [bv|]; rewrite (IH _ _ Hnd), dict_get_set, Hnotin;
        reflexivity.
    + apply String.eqb_neq in E.
      destruct (dict_get k1 b) as [bv|]; rewrite (IH _ _ Hnd), dict_get_set_other by exact E;
        reflexivity.
Qed.

Lemma document_nested_ind (P : document -> Prop) :
  (forall s, P (DScalar s)) ->
  (forall ts, List.Forall P ts -> P (DSeq ts)) ->
  (forall m, List.Forall (fun kt => P (snd kt)) m -> P (DMap m)) ->
  forall t, P t.
Proof.
  intros Hs Hl Hm. fix IH 1. intros [s|ts|m].
  - apply Hs.
  - apply Hl. induction ts as [|t ts IHts]; constructor; [apply IH|exact IHts].
  - apply Hm. induction m as [|[k t] m IHm]; constructor; [apply IH|exact IHm].
Qed.

Lemma height_item k t m : In (k, t) m -> height t < height (DMap m).
Proof.
  simpl. induction m as [|[k1 t1] m IH]; simpl; [tauto|].
  intros [[= -> ->]|Hin]; [lia|]. specialize (IH Hin). lia.
Qed.

(** *** Values that denote documents *)

(** A value keeps denoting its document when its dict objects are kept. *)
Lemma denotes_frame t : forall D D' v F,
  denotes D v t F ->
  (forall l, l ∈ F -> D' !! l = D !! l) ->
  denotes D' v t F.
Proof.
  induction t as [s|ts IH|m IH] using document_nested_ind; intros D D' v F Hden Hsame.
  - inversion Hden; subst. constructor.
  - inversion Hden as [|vs ts' F' Hall|]; subst. constructor.
    clear Hden. revert Hsame. induction Hall as [|a b F1 la lb F2 Hab Hall IHall Hdisj];
      intros Hsame; [constructor|].
    apply List.Forall_cons_iff in IH as [IHb IHlb].
    constructor; [|apply IHall; [exact IHlb|]|exact Hdisj].
    + apply (IHb D); [exact Hab|]. intros l Hl. apply Hsame. set_solver.
    + intros l Hl. apply Hsame. set_solver.
  - inversion Hden as [| |r d m' F' Hr Hall Hnotin Hnd]; subst.
    apply denotes_dict with (d := d); [|clear Hr|exact Hnotin|exact Hnd].
    + rewrite Hsame by set_solver. exact Hr.
    + assert (Hsame' : forall l, l ∈ F' -> D' !! l = D !! l)
        by (intros l Hl; apply Hsame; set_solver).
      clear Hden Hsame Hnotin Hnd. revert Hsame'.
      induction Hall as [|a b F1 la lb F2 [Hk Hab] Hall IHall Hdisj];
        intros Hsame; [constructor|].
      apply List.Forall_cons_iff in IH as [IHb IHlb].
      constructor; [split; [exact Hk|]|apply IHall; [exact IHlb|]|exact Hdisj].
      * apply (IHb D); [exact Hab|]. intros l Hl. apply Hsame. set_solver.
      * intros l Hl. apply Hsame. set_solver.
Qed.

Lemma items_denote_frame D D' d m F :
  items_denote D d m F ->
  (forall l, l ∈ F -> D' !! l = D !! l) ->
  items_denote D' d m F.
Proof.
  unfold items_denote. intros Hall.
  induction Hall as [|a b F1 la lb F2 [Hk Hab] Hall IHall Hdisj]; intros Hsame;
    [constructor|].
  constructor; [split; [exact Hk|]|apply IHall|exact Hdisj].
  - apply (denotes_frame _ D); [exact Hab|]. intros l Hl. apply Hsame. set_solver.
  - intros l Hl. apply Hsame. set_solver.
Qed.

Lemma items_denote_keys D d m F : items_denote D d m F -> keys d = keys m.
Proof.
  unfold items_denote. intros Hall.
  induction Hall as [|a b F1 la lb F2 [Hk Hab] Hall IHall Hdisj]; [reflexivity|].
  unfold keys in *. simpl. now rewrite Hk, IHall.
Qed.

Lemma items_denote_get_none D d m F k :
  items_denote D d m F -> dict_get k d = None -> dict_get k m = None.
Proof.
  intros Hall Hnone. apply dict_get_keys. rewrite <- (items_denote_keys _ _ _ _ Hall).
  now apply dict_get_keys.
Qed.

Lemma dict_set_keys_NoDup {V} k (v : V) (d : list (string * V)) :
  List.NoDup (keys d) -> List.NoDup (keys (dict_set k v d)).
Proof.
  intros Hnd. destruct (in_dec string_dec k (keys d)) as [Hin|Hnotin].
  - now rewrite dict_set_present.
  - rewrite dict_set_absent by exact Hnotin. unfold keys in *.
    rewrite map_app. simpl. apply NoDup_ListNoDup, NoDup_app.
    split; [now apply NoDup_ListNoDup|]. split.
    + intros x Hx [->|[]]%list_elem_of_In. apply Hnotin. now apply list_elem_of_In.
    + apply NoDup_ListNoDup. repeat constructor. simpl. tauto.
Qed.

(** A new key: the items of the dict grow by one. *)
Lemma items_denote_set_absent D d m F k v t Fv :
  items_denote D d m F ->
  dict_get k d = None ->
  denotes D v t Fv ->
  Fv ## F ->
  items_denote D (dict_set k v d) (dict_set k t m) (F ∪ Fv).
Proof.
  unfold items_denote. intros Hall. revert Fv.
  induction Hall as [|[k1 v1] [k1' t1] F1 la lb F2 [Hk Hab] Hall IHall Hdisj];
    intros Fv Hnone Hv Hsep; simpl in *.
  - replace (∅ ∪ Fv) with (Fv ∪ (∅ : gset loc)) by set_solver.
    constructor; [auto|constructor|set_solver].
  - subst k1'. destruct (String.eqb k k1) eqn:E; [discriminate|].
    replace (F1 ∪ F2 ∪ Fv) with (F1 ∪ (F2 ∪ Fv)) by set_solver.
    constructor; [auto| |set_solver].
    apply IHall; [exact Hnone|exact Hv|set_solver].
Qed.

(** A key that is present: its value has its own dict objects, apart from
    those of the other items, and may be replaced. *)
Lemma items_denote_split D d m F k bv :
  items_denote D d m F ->
  dict_get k d = Some bv ->
  exists tb Fbv Frest,
    dict_get k m = Some tb
    /\ In (k, tb) m
    /\ denotes D bv tb Fbv
    /\ F = Fbv ∪ Frest
    /\ Fbv ## Frest
    /\ forall D' v' t' F',
         (forall l, l ∈ Frest -> D' !! l = D !! l) ->
         denotes D' v' t' F' ->
         F' ## Frest ->
         items_denote D' (dict_set k v' d) (dict_set k t' m) (F' ∪ Frest).
Proof.
  unfold items_denote. intros Hall.
  induction Hall as [|[k1 v1] [k1' t1] F1 la lb F2 [Hk Hab] Hall IHall Hdisj];
    intros Hget; simpl in *; [discriminate|].
  subst k1'. destruct (String.eqb k k1) eqn:E.
  - injection Hget as <-. apply String.eqb_eq in E. subst k1.
    exists t1, F1, F2. repeat split; auto.
    intros D' v' t' F' Hsame Hv' Hsep.
    constructor; [auto| |exact Hsep].
    now apply (items_denote_frame D).
  - destruct (IHall Hget) as (tb & Fbv & Frest & Hm & Hin & Hbv & -> & Hsep & Hrepl).
    exists tb, Fbv, (F1 ∪ Frest).
    split; [exact Hm|]. split; [now right|]. split; [exact Hbv|].
    split; [set_solver|]. split; [set_solver|].
    intros D' v' t' F' Hsame Hv' Hsep'.
    replace (F' ∪ (F1 ∪ Frest)) with (F1 ∪ (F' ∪ Frest)) by set_solver.
    constructor; [split; [reflexivity|]| |set_solver].
    + apply (denotes_frame _ D); [exact Hab|]. intros l Hl. apply Hsame. set_solver.
    + apply Hrepl; [|exact Hv'|set_solver]. intros l Hl. apply Hsame. set_solver.
Qed.

Lemma all_items_app {A B} (P : A -> B -> gset loc -> Prop) la lb Fa la' lb' Fb :
  all_items P la lb Fa -> all_items P la' lb' Fb -> Fa ## Fb ->
  all_items P (la ++ la') (lb ++ lb') (Fa ∪ Fb).
Proof.
  intros Hall. revert Fb.
  induction Hall as [|a b F1 l1 l2 F2 Hab Hall IHall Hdisj]; intros Fb Hall' Hsep; simpl.
  - replace (∅ ∪ Fb) with Fb by set_solver. exact Hall'.
  - replace (F1 ∪ F2 ∪ Fb) with (F1 ∪ (F2 ∪ Fb)) by set_solver.
    constructor; [exact Hab| |set_solver].
    apply IHall; [exact Hall'|set_solver].
Qed.

(** *** The merge in the heap *)

Lemma items_lookup r d h : dicts h !! r = Some d -> items r h = Ret d h.
Proof. unfold items. now intros ->. Qed.

(** The loop of the dict strategy, given that the recursive calls refine
    the merge of documents. *)
Lemma strategy_merge_denotes limit rb :
  merge_refines limit ->
  forall dn mn Fn h db mb Fb,
    items_denote (dicts h) dn mn Fn ->
    (forall k t, In (k, t) mn -> height t < limit) ->
    dicts h !! rb = Some db ->
    items_denote (dicts h) db mb Fb ->
    List.NoDup (keys db) ->
    rb ∉ Fb -> rb ∉ Fn -> Fb ## Fn ->
    exists h' db' F',
      strategy_merge_with (value_strategy limit) rb dn h = Ret tt h'
      /\ dicts h' !! rb = Some db'
      /\ items_denote (dicts h') db' (merge_items mb mn) F'
      /\ List.NoDup (keys db')
      /\ F' ⊆ Fb ∪ Fn
      /\ nodes h' = nodes h
      /\ (forall l, l ∉ {[rb]} ∪ Fb ∪ Fn -> dicts h' !! l = dicts h !! l).
Proof.
  intros Hrec dn.
  induction dn as [|[k v] dn IH]; intros mn Fn h db mb Fb Hn Hheight Hrb Hb Hnd Hrb_b Hrb_n Hsep.
  - inversion Hn; subst. exists h, db, Fb. simpl.
    repeat split; auto. set_solver.
  - inversion Hn as [|kv [k' t] F1 dn' mn' F2 [Hk Hv] Hrest Hdisj]; subst.
    simpl in Hk. subst k'.
    assert (Hheight' : forall k0 t0, In (k0, t0) mn' -> height t0 < limit)
      by (intros k0 t0 Hin; apply (Hheight k0); now right).
    simpl. unfold bind at 1. unfold items at 1. rewrite Hrb.
    destruct (dict_get k db) as [bv|] eqn:Hget.
    + (* the key is in the base: the two values are merged *)
      destruct (items_denote_split _ _ _ _ _ _ Hb Hget)
        as (tb & Fbv & Frest & Hm & Hin & Hbv & -> & Hsplit & Hrepl).
      destruct (Hrec tb t bv v h Fbv F1) as (h1 & r1 & F1' & Hrun & Hr1 & Hsub & Hnodes & Hframe & _);
        [apply (Hheight k); now left|exact Hbv|exact Hv|set_solver|].
      unfold bind at 1. unfold bind at 1. rewrite Hrun.
      assert (Hrb1 : dicts h1 !! rb = Some db)
        by (rewrite Hframe; [exact Hrb|set_solver]).
      unfold setitem, bind, items. rewrite Hrb1. simpl.
      set (h2 := {| dicts := <[rb := dict_set k r1 db]> (dicts h1); nodes := nodes h1 |}).
      assert (Hsame : forall l, l ≠ rb -> l ∉ Fbv ∪ F1 -> dicts h2 !! l = dicts h !! l).
      { intros l Hne Hl. simpl. rewrite lookup_insert_ne by congruence. now apply Hframe. }
      destruct (IH mn' F2 h2 (dict_set k r1 db) (dict_set k (merge_document tb t) mb)
                   (F1' ∪ Frest))
        as (h' & db' & F' & Hloop & Hrb' & Hb' & Hnd' & Hsub' & Hnodes' & Hframe').
      * apply (items_denote_frame (dicts h)); [exact Hrest|].
        intros l Hl. apply Hsame; set_solver.
      * exact Hheight'.
      * simpl. apply lookup_insert_eq.
      * apply Hrepl.
        -- intros l Hl. apply Hsame; set_solver.
        -- apply (denotes_frame _ (dicts h1)); [exact Hr1|].
           intros l Hl. simpl. apply lookup_insert_ne. set_solver.
        -- set_solver.
      * now apply dict_set_keys_NoDup.
      * set_solver.
      * set_solver.
      * set_solver.
      * exists h', db', F'. unfold merge_items in *. simpl. rewrite Hm.
        split; [exact Hloop|]. split; [exact Hrb'|]. split; [exact Hb'|].
        split; [exact Hnd'|]. split; [clear -Hsub Hsub'; set_solver|].
        split; [rewrite Hnodes'; exact Hnodes|].
        intros l Hl. rewrite Hframe' by set_solver. apply Hsame; set_solver.
    + (* the key is new to the base: the incoming value is put there *)
      unfold setitem, bind, items. rewrite Hrb. simpl.
      set (h1 := {| dicts := <[rb := dict_set k v db]> (dicts h); nodes := nodes h |}).
      assert (Hsame : forall l, l ≠ rb -> dicts h1 !! l = dicts h !! l).
      { intros l Hne. simpl. apply lookup_insert_ne. congruence. }
      destruct (IH mn' F2 h1 (dict_set k v db) (dict_set k t mb) (Fb ∪ F1))
        as (h' & db' & F' & Hloop & Hrb' & Hb' & Hnd' & Hsub' & Hnodes' & Hframe').
      * apply (items_denote_frame (dicts h)); [exact Hrest|].
        intros l Hl. apply Hsame. set_solver.
      * exact Hheight'.
      * simpl. apply lookup_insert_eq.
      * apply (items_denote_frame (dicts h)).
        -- apply items_denote_set_absent; [exact Hb|exact Hget|exact Hv|set_solver].
        -- intros l Hl. apply Hsame. set_solver.
      * now apply dict_set_keys_NoDup.
      * set_solver.
      * set_solver.
      * set_solver.
      * exists h', db', F'. unfold merge_items in *. simpl.
        rewrite (items_denote_get_none _ _ _ _ _ Hb Hget).
        split; [exact Hloop|]. split; [exact Hrb'|]. split; [exact Hb'|].
        split; [exact Hnd'|]. split; [set_solver|].
        split; [exact Hnodes'|].
        intros l Hl. rewrite Hframe' by set_solver. apply Hsame. set_solver.
Qed.

(** With a recursion limit above the depth of the incoming document,
    [value_strategy] refines the merge of documents. *)
Lemma value_strategy_refines limit : merge_refines limit.
Proof.
  induction limit as [|limit IH]; intros B N bv nv h FB FN Hheight HB HN Hsep; [lia|].
  assert (Hoverride : forall Heq : merge_document B N = N,
             value_strategy (S limit) bv nv h = Ret nv h ->
             (forall rb rn, bv = VDict rb -> nv = VDict rn -> False) ->
             exists h' res F',
               value_strategy (S limit) bv nv h = Ret res h'
               /\ denotes (dicts h') res (merge_document B N) F'
               /\ F' ⊆ FB ∪ FN
               /\ nodes h' = nodes h
               /\ (forall l, l ∉ FB ∪ FN -> dicts h' !! l = dicts h !! l)
               /\ (forall rb rn, bv = VDict rb -> nv = VDict rn -> res = VDict rb)).
  { intros Heq Hrun Hkinds. exists h, nv, FN. rewrite Heq.
    repeat split; auto; [set_solver|].
    intros rb rn Hb Hn. destruct (Hkinds _ _ Hb Hn). }
  inversion HB as [sb|vb tb Fb Hb|rb db mb Fb Hrb Hb Hrb_b Hnd_b]; subst;
    inversion HN as [sn|vn tn Fn Hn|rn dn mn Fn Hrn Hn Hrn_n Hnd_n]; subst;
    try (apply Hoverride; [reflexivity|reflexivity|discriminate]).
  - (* two lists: the base, then the incoming one *)
    exists h, (VList (vb ++ vn)), (FB ∪ FN). simpl.
    repeat split; auto; [|discriminate].
    constructor. now apply all_items_app.
  - (* two dicts: the incoming one is merged into the base *)
    destruct (strategy_merge_denotes limit rb IH dn mn Fn h db mb Fb)
      as (h' & db' & F' & Hloop & Hrb' & Hb' & Hnd' & Hsub & Hnodes & Hframe); auto.
    + intros k t Hin. pose proof (height_item _ _ _ Hin). lia.
    + set_solver.
    + set_solver.
    + exists h', (VDict rb), ({[rb]} ∪ F').
      split.
      { change (value_strategy (S limit) (VDict rb) (VDict rn) h)
          with (bind (items rn)
                  (fun nxt_items =>
                     bind (strategy_merge_with (value_strategy limit) rb nxt_items)
                          (fun _ => ret (VDict rb))) h).
        unfold bind at 1. rewrite (items_lookup _ _ _ Hrn).
        unfold bind. rewrite Hloop. reflexivity. }
      split.
      { rewrite merge_document_dict.
        apply denotes_dict with (d := db'); auto. set_solver. }
      split; [set_solver|]. split; [exact Hnodes|].
      split; [intros l Hl; apply Hframe; set_solver|].
      now intros rb0 rn0 [= <-] _.
Qed.

(** When a node has no mapping the merger overrides, and what it returns is
    dropped: nothing is changed. *)
Lemma merge_without_mapping limit h yaml another_yaml y a :
  nodes h !! yaml = Some y ->
  nodes h !! another_yaml = Some a ->
  value y = None \/ value a = None ->
  merge (S limit) yaml another_yaml h = Ret yaml h.
Proof.
  intros Hyaml Hanother Hnone. unfold merge, bind, node.
  rewrite Hyaml, Hanother.
  destruct y as [[rb|]], a as [[rn|]]; simpl in *;
    try reflexivity; destruct Hnone; discriminate.
Qed.

Lemma denotes_dict_keys D r m F :
  denotes D (VDict r) (DMap m) F -> List.NoDup (keys m).
Proof.
  intros Hden. inversion Hden as [| |r' d m' F' Hr Hall Hnotin Hnd]; subst.
  now rewrite <- (items_denote_keys _ _ _ _ Hall).
Qed.

(** C4, as amended. For two nodes whose mappings are made of separate dict
    objects, and a recursion limit above the depth of the other mapping,
    [merge] returns the node it was given as receiver; the receiver still
    refers to the same dict object, which now holds the merge of the two
    mappings, and no node and no dict object outside the two mappings is
    changed. Under a key of both sides the merged mapping holds the merge
    of the two values: of two mappings, their merge, recursively; of two
    sequences, the receiver's elements followed by the other's; in every
    other case the other side's value. A key of one side only keeps its
    value. Merging [{"a": {"x": 1}}] into [{"a": {"y": 2}}] yields a
    mapping equal to [{"a": {"x": 1, "y": 2}}], and merging [{"a": 1}] into
    [{"a": 2}] yields [{"a": 1}]. *)
Theorem merge_in_place limit h yaml another_yaml rb rn B N FB FN :
  nodes h !! yaml = Some (cls (Some rb)) ->
  nodes h !! another_yaml = Some (cls (Some rn)) ->
  denotes (dicts h) (VDict rb) (DMap B) FB ->
  denotes (dicts h) (VDict rn) (DMap N) FN ->
  FB ## FN ->
  height (DMap N) < limit ->
  (exists h' F',
      merge limit yaml another_yaml h = Ret yaml h'
      /\ nodes h' = nodes h
      /\ denotes (dicts h') (VDict rb) (DMap (merge_items B N)) F'
      /\ F' ⊆ FB ∪ FN
      /\ (forall l, l ∉ FB ∪ FN -> dicts h' !! l = dicts h !! l))
  /\ (forall k,
         dict_get k (merge_items B N)
         = match dict_get k B, dict_get k N with
           | Some bv, Some nv => Some (merge_document bv nv)
           | Some bv, None => Some bv
           | None, Some nv => Some nv
           | None, None => None
           end)
  /\ (forall b n, merge_document (DMap b) (DMap n) = DMap (merge_items b n))
  /\ (forall b n, merge_document (DSeq b) (DSeq n) = DSeq (b ++ n)%list)
  /\ (forall bv s, merge_document bv (DScalar s) = DScalar s)
  /\ (forall s nv, merge_document (DScalar s) nv = nv)
  /\ (forall b n, merge_document (DSeq b) (DMap n) = DMap n)
  /\ (forall b n, merge_document (DMap b) (DSeq n) = DSeq n)
  /\ (let one := VScalar (SInt 1) in
      let two := VScalar (SInt 2) in
      merge 2 0%nat 1%nat
            {| dicts := {[ 10%nat := [("a", VDict 11%nat)]; 11%nat := [("y", two)];
                           12%nat := [("a", VDict 13%nat)]; 13%nat := [("x", one)] ]};
               nodes := {[ 0%nat := cls (Some 10%nat); 1%nat := cls (Some 12%nat) ]} |}
      = Ret 0%nat
            {| dicts := {[ 10%nat := [("a", VDict 11%nat)];
                           11%nat := [("y", two); ("x", one)];
                           12%nat := [("a", VDict 13%nat)]; 13%nat := [("x", one)] ]};
               nodes := {[ 0%nat := cls (Some 10%nat); 1%nat := cls (Some 12%nat) ]} |}
      /\ document_eqb
           (DMap (merge_items [("a", DMap [("y", DScalar (SInt 2))])]
                              [("a", DMap [("x", DScalar (SInt 1))])]))
           (DMap [("a", DMap [("x", DScalar (SInt 1)); ("y", DScalar (SInt 2))])])
         = true
      /\ merge 2 0%nat 1%nat
               {| dicts := {[ 10%nat := [("a", two)]; 12%nat := [("a", one)] ]};
                  nodes := {[ 0%nat := cls (Some 10%nat); 1%nat := cls (Some 12%nat) ]} |}
         = Ret 0%nat
               {| dicts := {[ 10%nat := [("a", one)]; 12%nat := [("a", one)] ]};
                  nodes := {[ 0%nat := cls (Some 10%nat); 1%nat := cls (Some 12%nat) ]} |}).
Proof.
  intros Hyaml Hanother HB HN Hsep Hheight.
  split.
  { destruct (value_strategy_refines limit (DMap B) (DMap N) (VDict rb) (VDict rn)
                h FB FN Hheight HB HN Hsep)
      as (h' & res & F' & Hrun & Hres & Hsub & Hnodes & Hframe & Hsame).
    rewrite (Hsame rb rn eq_refl eq_refl), merge_document_dict in Hres.
    exists h', F'. repeat split; auto.
    unfold merge, bind, node. rewrite Hyaml, Hanother. simpl.
    now rewrite Hrun. }
  split. { intros k. apply merge_items_get. exact (denotes_dict_keys _ _ _ _ HN). }
  split. { apply merge_document_dict. }
  split. { intros b n. destruct b; reflexivity. }
  split. { intros bv s. destruct bv; reflexivity. }
  split. { apply merge_document_scalar_base. }
  split. { intros b n. destruct b; reflexivity. }
  split. { intros b n. destruct b; reflexivity. }
  split; [|split]; vm_compute; reflexivity.
Qed.

(** The theorem at the nodes on [{"a": {"y": 2}}] and [{"a": {"x": 1}}]. *)
Lemma merge_in_place_witness :
  let h := {| dicts := {[ 10%nat := [("a", VDict 11%nat)];
                          11%nat := [("y", VScalar (SInt 2))];
                          12%nat := [("a", VDict 13%nat)];
                          13%nat := [("x", VScalar (SInt 1))] ]};
              nodes := {[ 0%nat := cls (Some 10%nat); 1%nat := cls (Some 12%nat) ]} |} in
  exists h' F',
    merge 3 0%nat 1%nat h = Ret 0%nat h'
    /\ nodes h' = nodes h
    /\ denotes (dicts h') (VDict 10%nat)
               (DMap (merge_items [("a", DMap [("y", DScalar (SInt 2))])]
                                  [("a", DMap [("x", DScalar (SInt 1))])])) F'.
Proof.
  intros h.
  assert (Hmap : forall r r' k x,
             dicts h !! r = Some [(k, VDict r')] ->
             dicts h !! r' = Some [(x.1, VScalar x.2)] ->
             r <> r' ->
             denotes (dicts h) (VDict r) (DMap [(k, DMap [(x.1, DScalar x.2)])])
                     ({[r]} ∪ (({[r']} ∪ (∅ ∪ ∅)) ∪ ∅))).
  { intros r r' k x Hr Hr' Hne.
    apply denotes_dict with (d := [(k, VDict r')]); [exact Hr| |set_solver|].
    - constructor; [split; [reflexivity|]|constructor|set_solver].
      apply denotes_dict with (d := [(x.1, VScalar x.2)]); [exact Hr'| |set_solver|].
      + constructor; [split; [reflexivity|constructor]|constructor|set_solver].
      + repeat constructor. simpl. tauto.
    - repeat constructor. simpl. tauto. }
  destruct (merge_in_place 3 h 0%nat 1%nat 10%nat 12%nat
              [("a", DMap [("y", DScalar (SInt 2))])]
              [("a", DMap [("x", DScalar (SInt 1))])]
              ({[10%nat]} ∪ (({[11%nat]} ∪ (∅ ∪ ∅)) ∪ ∅))
              ({[12%nat]} ∪ (({[13%nat]} ∪ (∅ ∪ ∅)) ∪ ∅)))
    as ((h' & F' & Hrun & Hnodes & Hden & _) & _).
  - vm_compute. reflexivity.
  - vm_compute. reflexivity.
  - apply (Hmap 10%nat 11%nat "a" ("y", SInt 2)); [vm_compute; reflexivity..|lia].
  - apply (Hmap 12%nat 13%nat "a" ("x", SInt 1)); [vm_compute; reflexivity..|lia].
  - set_solver.
  - simpl. lia.
  - exists h', F'. auto.
Defined.

(** C4, as stated, fails on sequences: merging [{"a": [1]}] into
    [{"a": [2]}] leaves [{"a": [2, 1]}] in the receiver, not the other
    side's [{"a": [1]}]. *)
Lemma merge_appends_sequences :
  let one := VScalar (SInt 1) in
  let two := VScalar (SInt 2) in
  merge 2 0%nat 1%nat
        {| dicts := {[ 10%nat := [("a", VList [two])]; 12%nat := [("a", VList [one])] ]};
           nodes := {[ 0%nat := cls (Some 10%nat); 1%nat := cls (Some 12%nat) ]} |}
  = Ret 0%nat
        {| dicts := {[ 10%nat := [("a", VList [two; one])];
                       12%nat := [("a", VList [one])] ]};
           nodes := {[ 0%nat := cls (Some 10%nat); 1%nat := cls (Some 12%nat) ]} |}
  /\ document_eqb
       (DMap (merge_items [("a", DSeq [DScalar (SInt 2)])] [("a", DSeq [DScalar (SInt 1)])]))
       (DMap [("a", DSeq [DScalar (SInt 1)])])
     = false.
Proof.
  split; vm_compute; reflexivity.
Qed.

End MergeProperties.
(** ** Properties of the message filter and of [read_sms_messages] *)

Section FilterProperties.
Import Py bdk sms_message twilio_book sms_message_filter filter_vocabulary.

Variable datetime : Type.
Variable datetime_str : datetime -> string.
Variable messages_list : query datetime -> list (MessageInstance datetime).

Implicit Types (s : SMSMessageFilter datetime) (e t : FilterExpression datetime).



(** *** Comparisons of a number that are dropped *)

(** C9. A greater-than or less-than comparison of the sender number or of
    the recipient number raises nothing and leaves the five output slots as
    they were; the query that [read_sms_messages] sends for such a filter is
    the one it sends without a filter. *)
Theorem number_range_comparison_dropped op np (v : pyobject datetime) s :
  op = GREATER_THAN \/ op = LESS_THAN ->
  np = SENDER_NUMBER \/ np = RECIPIENT_NUMBER ->
  (exists s',
      accept datetime_str (comparison np op v) s = Ret tt s'
      /\ same_slots s' s)
  /\ (forall offset limit sent,
         read_sms_messages datetime_str messages_list offset limit
                           (Some (comparison np op v)) sent
         = read_sms_messages datetime_str messages_list offset limit None sent).
Proof.
  intros [-> | ->] [-> | ->];
    (split; [eexists; split; [vm_compute; reflexivity|repeat split]|]);
    intros offset limit sent; reflexivity.
Qed.

(** *** Errors of the traversal *)

Lemma NounPhrase_eqb_neq (a b : NounPhrase) : a <> b -> NounPhrase_eqb a b = false.
Proof.
  intros Hne. unfold NounPhrase_eqb. apply bool_decide_eq_false.
  intros Heq. apply Hne. destruct a, b. simpl in Heq. now subst.
Qed.

Lemma unsupported_reference_raises noun_phrases s :
  unsupported_reference noun_phrases ->
  accept datetime_str (NounPhrasesExpression noun_phrases) s
  = Raise (ValueError_noun_phrases noun_phrases) s.
Proof.
  intros [Hlen | (np & -> & Hs & Hr & Hd)]; simpl; unfold visit_noun_phrases.
  - destruct noun_phrases as [|np [|np' rest]]; try reflexivity.
    now contradiction Hlen.
  - unfold allowed. simpl.
    rewrite !NounPhrase_eqb_neq by assumption. reflexivity.
Qed.

Lemma unsupported_operator_raises l name r s :
  exists err s',
    accept datetime_str (FilterBinaryExpression l (OtherOperator name) r) s
    = Raise err s'
    /\ (forall sl sr,
          accept datetime_str l s = Ret tt sl ->
          accept datetime_str r sl = Ret tt sr ->
          err = ValueError_operator (OtherOperator name) /\ s' = sr).
Proof.
  simpl. unfold visit_binary_expression, bind.
  destruct (accept datetime_str l s) as [[] sl|el sl] eqn:Hl.
  - destruct (accept datetime_str r sl) as [[] sr|er sr] eqn:Hr.
    + eexists _, _. split; [reflexivity|].
      intros sl' sr' [= <-] Hr'. rewrite Hr in Hr'. injection Hr' as <-. auto.
    + eexists _, _. split; [reflexivity|].
      intros sl' sr' [= <-] Hr'. rewrite Hr in Hr'. discriminate.
  - eexists _, _. split; [reflexivity|]. discriminate.
Qed.

Lemma mistyped_date_comparison_raises op (v : pyobject datetime) s :
  is_comparison_operator op = true ->
  is_datetime v = false ->
  accept datetime_str (comparison DATE_SENT op v) s
  = Raise (TypeMismatchError "date_sent" DATETIME)
          (set_current_value datetime v (set_current_noun_phrase datetime DATE_SENT s)).
Proof.
  intros Hop Hv.
  destruct op; try discriminate Hop; destruct v; try discriminate Hv; reflexivity.
Qed.

Lemma offending_raises e s :
  offending e -> exists err s', accept datetime_str e s = Raise err s'.
Proof.
  intros [(l & name & r & ->) | [(nps & -> & Hnps) | (op & v & -> & Hop & Hv)]].
  - destruct (unsupported_operator_raises l name r s) as (err & s' & H & _). eauto.
  - eexists _, _. now apply unsupported_reference_raises.
  - eexists _, _. now apply mistyped_date_comparison_raises.
Qed.

Lemma visited_offending_raises e t :
  visited e t -> offending e ->
  forall s, exists err s', accept datetime_str t s = Raise err s'.
Proof.
  intros Hvis Hoff. induction Hvis as [|l op r _ IH|l op r _ IH]; intros s.
  - now apply offending_raises.
  - destruct (IH s) as (err & s' & Hl).
    exists err, s'. simpl. unfold visit_binary_expression, bind. now rewrite Hl.
  - simpl. unfold visit_binary_expression, bind.
    destruct (accept datetime_str l s) as [[] sl|el sl]; [|eauto].
    destruct (IH sl) as (err & s' & Hr). rewrite Hr. eauto.
Qed.

(** C7, as amended. The traversal raises when it visits an offending node,
    that is when the node is the root or lies below binary expressions only:
    a binary expression with another operator than equals, greater-than,
    less-than and and; a field reference that does not name exactly one of
    sender number, recipient number and date sent; an equals, greater-than
    or less-than comparison of date sent with a value that is not a
    datetime. At the node itself the error names the reference, names the
    operator (once both operands are visited without error), or is the
    type mismatch on "date_sent" with the datetime type. When the traversal
    raises, [read_sms_messages] raises the same error and sends no query. *)
Theorem filter_errors :
  (forall e t s,
      visited e t -> offending e ->
      exists err s', accept datetime_str t s = Raise err s')
  /\ (forall noun_phrases s,
         unsupported_reference noun_phrases ->
         accept datetime_str (NounPhrasesExpression noun_phrases) s
         = Raise (ValueError_noun_phrases noun_phrases) s)
  /\ (forall l name r s sl sr,
         accept datetime_str l s = Ret tt sl ->
         accept datetime_str r sl = Ret tt sr ->
         accept datetime_str (FilterBinaryExpression l (OtherOperator name) r) s
         = Raise (ValueError_operator (OtherOperator name)) sr)
  /\ (forall op (v : pyobject datetime) s,
         is_comparison_operator op = true ->
         is_datetime v = false ->
         exists s',
           accept datetime_str (comparison DATE_SENT op v) s
           = Raise (TypeMismatchError "date_sent" DATETIME) s')
  /\ (forall offset limit t sent err s',
         accept datetime_str t SMSMessageFilter_new = Raise err s' ->
         read_sms_messages datetime_str messages_list offset limit (Some t) sent
         = Raise err sent).
Proof.
  split; [|split; [|split; [|split]]].
  - intros e t s Hvis Hoff. now apply (visited_offending_raises e t).
  - intros. now apply unsupported_reference_raises.
  - intros l name r s sl sr Hl Hr.
    destruct (unsupported_operator_raises l name r s) as (err & s' & H & Hspec).
    destruct (Hspec _ _ Hl Hr) as [-> ->]. exact H.
  - intros op v s Hop Hv. eexists. now apply mistyped_date_comparison_raises.
  - intros offset limit t sent err s' Hraise.
    unfold twilio_book.read_sms_messages, bind, run_filter. now rewrite Hraise.
Qed.

(** *** Pagination *)

Lemma slice_from_nonneg {A : Type} (offset : Z) (l : list A) :
  (0 <= offset)%Z -> slice_from offset l = skipn (Z.to_nat offset) l.
Proof.
  intros Hoff. unfold slice_from.
  destruct (Z.ltb_spec offset 0) as [Hneg|_]; [lia|].
  destruct (Z.le_gt_cases offset (Z.of_nat (length l))) as [Hle|Hgt].
  - now rewrite Z.min_l.
  - rewrite Z.min_r, Nat2Z.id by lia.
    rewrite !skipn_all2; [reflexivity|lia|lia].
Qed.

Lemma slice_to_nonneg {A : Type} (limit : Z) (l : list A) :
  (0 <= limit)%Z -> slice_to limit l = firstn (Z.to_nat limit) l.
Proof.
  intros Hlim. unfold slice_to.
  destruct (Z.ltb_spec limit 0) as [Hneg|_]; [lia|].
  destruct (Z.le_gt_cases limit (Z.of_nat (length l))) as [Hle|Hgt].
  - now rewrite Z.min_l.
  - rewrite Z.min_r, Nat2Z.id by lia.
    rewrite !firstn_all2; [reflexivity|lia|lia].
Qed.

Lemma slice_to_nil {A : Type} (limit : Z) : slice_to limit (@nil A) = [].
Proof. unfold slice_to. now rewrite firstn_nil. Qed.

(** C8. With [fetched] the list that the provider answers to the query of
    the filter, [read_sms_messages] returns the records of [fetched] after
    the offset is applied and then the limit: of ten messages, offset 3 and
    limit 4 give the messages 3, 4, 5 and 6; an offset at or beyond the
    length gives none; no offset skips nothing, no limit truncates nothing,
    and neither gives all of [fetched]. *)
Theorem read_sms_messages_pagination filter_expression sent visitor :
  run_filter datetime_str filter_expression sent = Ret visitor sent ->
  let fetched := messages_list (query_of visitor) in
  let page offset limit :=
    read_sms_messages datetime_str messages_list offset limit filter_expression sent in
  let answer messages :=
    Ret (map from_message_instance messages) (query_of visitor :: sent) in
  (forall m0 m1 m2 m3 m4 m5 m6 m7 m8 m9,
      fetched = [m0; m1; m2; m3; m4; m5; m6; m7; m8; m9] ->
      page (Some 3%Z) (Some 4%Z) = answer [m3; m4; m5; m6])
  /\ (forall offset limit,
         (Z.of_nat (length fetched) <= offset)%Z ->
         page (Some offset) limit = answer [])
  /\ (forall offset limit,
         (0 <= offset)%Z -> (0 <= limit)%Z ->
         page (Some offset) (Some limit)
         = answer (firstn (Z.to_nat limit) (skipn (Z.to_nat offset) fetched)))
  /\ (forall limit,
         (0 <= limit)%Z ->
         page None (Some limit) = answer (firstn (Z.to_nat limit) fetched))
  /\ (forall offset,
         (0 <= offset)%Z ->
         page (Some offset) None = answer (skipn (Z.to_nat offset) fetched))
  /\ page None None = answer fetched.
Proof.
  intros Hfilter fetched page answer.
  assert (Hpage : forall offset limit,
             page offset limit
             = answer (let messages := match offset with
                                       | Some offset => slice_from offset fetched
                                       | None => fetched
                                       end in
                       match limit with
                       | Some limit => slice_to limit messages
                       | None => messages
                       end)).
  { intros offset limit. unfold page, twilio_book.read_sms_messages, bind.
    rewrite Hfilter. reflexivity. }
  split; [|split; [|split; [|split; [|split]]]].
  - intros m0 m1 m2 m3 m4 m5 m6 m7 m8 m9 Hfetched.
    rewrite Hpage, Hfetched. reflexivity.
  - intros offset limit Hbeyond. rewrite Hpage. simpl.
    rewrite slice_from_nonneg by lia. rewrite skipn_all2 by lia.
    destruct limit; [now rewrite slice_to_nil|reflexivity].
  - intros offset limit Hoff Hlim. rewrite Hpage. simpl.
    now rewrite slice_from_nonneg, slice_to_nonneg.
  - intros limit Hlim. rewrite Hpage. simpl. now rewrite slice_to_nonneg.
  - intros offset Hoff. rewrite Hpage. simpl. now rewrite slice_from_nonneg.
  - now rewrite Hpage.
Qed.

End FilterProperties.

Section FilterExamples.
Import Py bdk sms_message twilio_book sms_message_filter filter_vocabulary.

(** The theorem at the comparison [sender number > "+1800"], on a new
    visitor. *)
Lemma number_range_comparison_dropped_witness :
  exists s' : SMSMessageFilter Z,
    accept (fun _ => "") (comparison SENDER_NUMBER GREATER_THAN (ObjStr "+1800"))
           SMSMessageFilter_new = Ret tt s'
    /\ same_slots s' SMSMessageFilter_new.
Proof.
  destruct (number_range_comparison_dropped Z (fun _ => "") (fun _ => [])
              GREATER_THAN SENDER_NUMBER (ObjStr "+1800") SMSMessageFilter_new)
    as [Hvisit _].
  - left. reflexivity.
  - left. reflexivity.
  - exact Hvisit.
Defined.

(** The theorem at the tree [message body == "hi" AND sender number == "+1800"],
    whose first field reference is outside the allow-list. *)
Lemma filter_errors_witness :
  exists err (s' : SMSMessageFilter Z),
    accept (fun _ => "")
           (conjunction (comparison (from_word_list ["message"; "body"]) EQUALS (ObjStr "hi"))
                        (comparison SENDER_NUMBER EQUALS (ObjStr "+1800")))
           SMSMessageFilter_new
    = Raise err s'.
Proof.
  destruct (filter_errors Z (fun _ => "") (fun _ => [])) as [Hvisited _].
  apply (Hvisited (NounPhrasesExpression [from_word_list ["message"; "body"]])).
  - apply visited_left, visited_left, visited_root.
  - right. left. eexists. split; [reflexivity|].
    right. eexists. split; [reflexivity|]. repeat split; discriminate.
Defined.

(** C7, as stated, fails below a unary expression: the tree
    [NOT (message body OR "hi")] holds an unsupported operator and an
    unsupported field reference, and its traversal raises nothing, changes
    no slot, and lets [read_sms_messages] send the query without any
    filter. *)
Lemma unary_operand_not_visited :
  let reference : FilterExpression Z :=
    NounPhrasesExpression [from_word_list ["message"; "body"]] in
  let disjunction :=
    FilterBinaryExpression reference (OtherOperator "OR") (ValueExpression (ObjStr "hi")) in
  let tree := FilterUnaryExpression "NOT" disjunction in
  occurs disjunction tree
  /\ unsupported_operator disjunction
  /\ occurs reference tree
  /\ unsupported_reference [from_word_list ["message"; "body"]]
  /\ accept (fun _ => "") tree SMSMessageFilter_new = Ret tt SMSMessageFilter_new
  /\ read_sms_messages (fun _ => "") (fun _ => []) None None (Some tree) []
     = Ret [] [query_of SMSMessageFilter_new].
Proof.
  repeat split.
  - apply occurs_unary, occurs_root.
  - eexists _, _, _. reflexivity.
  - apply occurs_unary, occurs_left, occurs_root.
  - right. eexists. split; [reflexivity|]. repeat split; discriminate.
Qed.

(** The theorem for ten messages, without a filter. *)
Lemma read_sms_messages_pagination_witness :
  read_sms_messages (fun _ => "")
    (fun _ => map numbered [0; 1; 2; 3; 4; 5; 6; 7; 8; 9]%Z)
    (Some 3%Z) (Some 4%Z) None []
  = Ret (map from_message_instance (map numbered [3; 4; 5; 6]%Z))
        [query_of SMSMessageFilter_new].
Proof.
  destruct (read_sms_messages_pagination Z (fun _ => "")
              (fun _ => map numbered [0; 1; 2; 3; 4; 5; 6; 7; 8; 9]%Z) None []
              SMSMessageFilter_new eq_refl) as (Hten & _).
  exact (Hten _ _ _ _ _ _ _ _ _ _ eq_refl).
Defined.

End FilterExamples.
(** ** Further properties of the YAML document concept and of its book *)

Section YAMLAccessors.
Import Py bdk yaml_book vocabulary.

Implicit Types (h : heap) (d : dict) (key k : string) (r self : loc).

(** *** [wrap] and [unwrap] *)

Lemma pyvalue_nested_ind (P : pyvalue -> Prop) :
  (forall s, P (VScalar s)) ->
  (forall items, List.Forall P items -> P (VList items)) ->
  (forall r, P (VDict r)) ->
  forall v, P v.
Proof.
  intros Hs Hl Hd.
  fix IH 1. intros [s|items|r]; [apply Hs| |apply Hd].
  apply Hl. induction items as [|x items IHitems]; constructor; [apply IH|exact IHitems].
Qed.

Lemma extends_refl h : extends h h.
Proof. split; auto. Qed.

Lemma extends_trans h1 h2 h3 : extends h1 h2 -> extends h2 h3 -> extends h1 h3.
Proof. intros [Hd1 Hn1] [Hd2 Hn2]. split; [congruence|auto]. Qed.

Lemma extends_new (v : option loc) h :
  extends h {| dicts := dicts h; nodes := <[fresh (dom (nodes h)) := cls v]> (nodes h) |}.
Proof.
  split; [reflexivity|]. intros l c Hl. simpl.
  rewrite lookup_insert_ne; [exact Hl|].
  intros <-. pose proof (is_fresh (dom (nodes h))) as Hfresh.
  apply not_elem_of_dom in Hfresh. congruence.
Qed.

(** The value of [unwrap] is the same in a heap with more nodes. *)
Lemma unwrap_extends v : forall h h' item,
  extends h h' -> unwrap v h = Ret item h -> unwrap v h' = Ret item h'.
Proof.
  induction v as [s|l|items IH] using YAMLValue_nested_ind; intros h h' item Hext Hu.
  - simpl in Hu |- *. unfold ret in *. now injection Hu as <-.
  - simpl in Hu |- *. unfold bind, node in *.
    destruct (nodes h !! l) as [c|] eqn:Hl; [|discriminate].
    destruct Hext as [_ Hn]. rewrite (Hn _ _ Hl). unfold ret in *. now injection Hu as <-.
  - simpl in Hu |- *. unfold bind at 1 in Hu. unfold bind at 1.
    match goal with |- context [?f items h'] => set (each := f) in * end.
    assert (Heach : forall vs s, each items h = Ret vs s -> each items h' = Ret vs h').
    { clear Hu item. induction IH as [|x items Hx _ IHitems]; intros vs s Hvs.
      - simpl in Hvs |- *. unfold ret in *. now injection Hvs as <- _.
      - simpl in Hvs |- *. unfold bind at 1 in Hvs. unfold bind at 1.
        destruct (unwrap x h) as [a s1|e s1] eqn:Hux; [|discriminate].
        pose proof (unwrap_state x h) as Hs1. rewrite Hux in Hs1. simpl in Hs1. subst s1.
        rewrite (Hx _ _ _ Hext Hux).
        unfold bind at 1 in Hvs. unfold bind at 1.
        destruct (each items h) as [a' s2|e s2] eqn:Hrest; [|discriminate].
        rewrite (IHitems _ _ eq_refl). unfold ret in *. now injection Hvs as <- _. }
    destruct (each items h) as [vs s1|e s1] eqn:Hvs; [|discriminate].
    rewrite (Heach _ _ eq_refl). unfold ret in *. now injection Hu as <- _.
Qed.

(** [wrap] returns, adds nodes only, and [unwrap] undoes it. *)
Lemma wrap_unwrap item : forall h,
  exists y h',
    wrap item h = Ret y h'
    /\ extends h h'
    /\ unwrap y h' = Ret item h'.
Proof.
  induction item as [s|items IH|r] using pyvalue_nested_ind; intros h.
  - exists (YScalar s), h. repeat split; auto.
  - simpl. unfold bind at 1.
    match goal with |- context [?f items h] => set (each := f) end.
    assert (Heach : forall h0, exists ys h',
               each items h0 = Ret ys h' /\ extends h0 h'
               /\ unwrap (YList ys) h' = Ret (VList items) h').
    { induction IH as [|x items Hx _ IHitems]; intros h0.
      - exists [], h0. split; [reflexivity|]. split; [apply extends_refl|reflexivity].
      - destruct (Hx h0) as (y & h1 & Hwx & Hext1 & Hux).
        destruct (IHitems h1) as (ys & h2 & Hwr & Hext2 & Hur).
        exists (y :: ys), h2. split; [|split].
        + simpl. unfold bind at 1. rewrite Hwx. unfold bind at 1. rewrite Hwr. reflexivity.
        + now apply (extends_trans _ h1).
        + simpl. unfold bind at 1. unfold bind at 1.
          rewrite (unwrap_extends _ _ _ _ Hext2 Hux).
          simpl in Hur. unfold bind at 1 in Hur.
          match type of Hur with
          | match ?m with _ => _ end = _ => destruct m as [vs s1|e s1] eqn:Hm
          end; [|discriminate].
          unfold ret in Hur. injection Hur as Hvs Hs1. subst s1 vs.
          unfold bind at 1. rewrite Hm. reflexivity. }
    destruct (Heach h) as (ys & h' & Hw & Hext & Hu).
    exists (YList ys), h'. rewrite Hw. auto.
  - exists (YConcept (fresh (dom (nodes h)))),
           {| dicts := dicts h; nodes := <[fresh (dom (nodes h)) := cls (Some r)]> (nodes h) |}.
    split; [reflexivity|]. split; [apply extends_new|].
    simpl. unfold bind, node. simpl. rewrite lookup_insert_eq. reflexivity.
Qed.

(** *** The accessors on a node with a mapping *)

Lemma has_exact h self r d key :
  nodes h !! self = Some (cls (Some r)) -> dicts h !! r = Some d ->
  has self key true h = Ret (contains key d) h.
Proof.
  intros Hself Hr. unfold has, bind, node, items. rewrite Hself. simpl. rewrite Hr.
  simpl. destruct (contains key d); reflexivity.
Qed.

Lemma has_folding h self r d key :
  nodes h !! self = Some (cls (Some r)) -> dicts h !! r = Some d ->
  has self key false h = Ret (lower_in_keys key d) h.
Proof.
  intros Hself Hr. unfold has, bind, node, items. rewrite Hself. simpl. rewrite Hr.
  simpl. destruct (lower_in_keys key d); reflexivity.
Qed.

Lemma get_present h self r d key item :
  nodes h !! self = Some (cls (Some r)) -> dicts h !! r = Some d ->
  dict_get key d = Some item ->
  get self key true h = wrap item h.
Proof.
  intros Hself Hr Hget. unfold get, subscript, contains, bind, node, items.
  rewrite Hself. simpl. rewrite Hr, Hget. reflexivity.
Qed.

Lemma get_absent h self r d key :
  nodes h !! self = Some (cls (Some r)) -> dicts h !! r = Some d ->
  dict_get key d = None ->
  get self key true h = Raise (KeyError key) h.
Proof.
  intros Hself Hr Hget. unfold get, subscript, contains, bind, node, items.
  rewrite Hself. simpl. rewrite Hr, Hget. reflexivity.
Qed.

Lemma first_folding_get key d k0 :
  first_folding key d = Some k0 -> exists item, dict_get k0 d = Some item.
Proof.
  intros Hk0. destruct (first_folding_spec _ _ _ Hk0) as [Hin _].
  apply contains_keys in Hin. unfold contains in Hin.
  destruct (dict_get k0 d) as [item|]; [eauto|discriminate].
Qed.

Lemma get_folding h self r d key k0 :
  nodes h !! self = Some (cls (Some r)) -> dicts h !! r = Some d ->
  first_folding key d = Some k0 ->
  get self key false h = get self k0 true h.
Proof.
  intros Hself Hr Hk0. destruct (first_folding_get _ _ _ Hk0) as [item Hitem].
  rewrite (get_present h self r d k0 item) by assumption.
  unfold get, subscript, bind, node, items. rewrite Hself. simpl.
  rewrite Hr, lower_in_keys_folding, Hk0.
  rewrite (first_matching_key_folding _ _ _ _ Hk0), Hitem. reflexivity.
Qed.

Lemma get_no_folding h self r d key :
  nodes h !! self = Some (cls (Some r)) -> dicts h !! r = Some d ->
  first_folding key d = None ->
  get self key false h = Raise (KeyError key) h.
Proof.
  intros Hself Hr Hk0. unfold get, bind, node, items. rewrite Hself. simpl.
  rewrite Hr, lower_in_keys_folding, Hk0. reflexivity.
Qed.

Lemma delete_present h self r d key :
  nodes h !! self = Some (cls (Some r)) -> dicts h !! r = Some d ->
  contains key d = true ->
  delete self key true h
  = Ret tt {| dicts := <[r := dict_pop key d]> (dicts h); nodes := nodes h |}.
Proof.
  intros Hself Hr Hin. unfold delete, pop, store, bind, node, items.
  rewrite Hself. simpl. rewrite Hr, Hin, Hr. reflexivity.
Qed.

Lemma delete_absent h self r d key :
  nodes h !! self = Some (cls (Some r)) -> dicts h !! r = Some d ->
  contains key d = false ->
  delete self key true h = Raise (KeyError key) h.
Proof.
  intros Hself Hr Hin. unfold delete, bind, node, items.
  rewrite Hself. simpl. rewrite Hr, Hin. reflexivity.
Qed.

Lemma delete_folding h self r d key k0 :
  nodes h !! self = Some (cls (Some r)) -> dicts h !! r = Some d ->
  first_folding key d = Some k0 ->
  delete self key false h
  = Ret tt {| dicts := <[r := dict_pop k0 d]> (dicts h); nodes := nodes h |}.
Proof.
  intros Hself Hr Hk0. unfold delete, pop, store, bind, node, items.
  rewrite Hself. simpl. rewrite Hr, lower_in_keys_folding, Hk0.
  rewrite (first_matching_key_folding _ _ _ _ Hk0), Hr. reflexivity.
Qed.

Lemma delete_no_folding h self r d key :
  nodes h !! self = Some (cls (Some r)) -> dicts h !! r = Some d ->
  first_folding key d = None ->
  delete self key false h = Raise (KeyError key) h.
Proof.
  intros Hself Hr Hk0. unfold delete, bind, node, items. rewrite Hself. simpl.
  rewrite Hr, lower_in_keys_folding, Hk0. reflexivity.
Qed.

Lemma set_exact h self r d key v item :
  nodes h !! self = Some (cls (Some r)) -> dicts h !! r = Some d ->
  unwrap v h = Ret item h ->
  set self key v true h
  = Ret self {| dicts := <[r := dict_set key item d]> (dicts h); nodes := nodes h |}.
Proof.
  intros Hself Hr Hitem. unfold set, setitem, store, bind, node, items.
  rewrite Hself. simpl. rewrite Hitem, Hr. reflexivity.
Qed.

Lemma set_folding h self r d key k0 v item :
  nodes h !! self = Some (cls (Some r)) -> dicts h !! r = Some d ->
  first_folding key d = Some k0 ->
  unwrap v h = Ret item h ->
  set self key v false h
  = Ret self {| dicts := <[r := dict_set k0 item d]> (dicts h); nodes := nodes h |}.
Proof.
  intros Hself Hr Hk0 Hitem. unfold set, setitem, store, bind, node, items.
  rewrite Hself. simpl. rewrite Hr, lower_in_keys_folding, Hk0.
  rewrite (first_matching_key_folding _ _ _ _ Hk0), Hitem, Hr. reflexivity.
Qed.

Lemma wrap_returns item h : returns (wrap item h) = true.
Proof. destruct (wrap_unwrap item h) as (y & h' & -> & _). reflexivity. Qed.

Lemma first_folding_keys key d d' :
  keys d' = keys d -> first_folding key d' = first_folding key d.
Proof. unfold first_folding. now intros ->. Qed.

(** X1. On a node whose mapping, if any, is a dict of the heap, [has]
    raises nothing and leaves the heap as it is, and its answer tells
    whether [get] and [delete] with the same key and the same mode return:
    when it is false both raise [KeyError] of the key and leave the heap
    as it is. The exact answer is the membership of the key, which is false
    without a mapping, and a key that [has] finds exactly it also finds by
    lower-cased names. *)
Theorem has_answers_for_get_and_delete h self c key case_sensitive :
  nodes h !! self = Some c ->
  (forall r, value c = Some r -> is_Some (dicts h !! r)) ->
  exists b,
    has self key case_sensitive h = Ret b h
    /\ returns (get self key case_sensitive h) = b
    /\ returns (delete self key case_sensitive h) = b
    /\ (b = false ->
        get self key case_sensitive h = Raise (KeyError key) h
        /\ delete self key case_sensitive h = Raise (KeyError key) h)
    /\ (case_sensitive = true ->
        (b = true <-> exists r d, value c = Some r /\ dicts h !! r = Some d
                                  /\ In key (keys d))
        /\ (b = true -> has self key false h = Ret true h)).
Proof.
  intros Hself Hdict. destruct c as [[r|]].
  - destruct (Hdict r eq_refl) as [d Hr]. destruct case_sensitive.
    + exists (contains key d). split; [now apply (has_exact h self r d)|].
      destruct (contains key d) eqn:Hin.
      * assert (Hitem : exists item, dict_get key d = Some item).
        { unfold contains in Hin. destruct (dict_get key d); [eauto|discriminate]. }
        destruct Hitem as [item Hitem].
        rewrite (get_present h self r d key item), (delete_present h self r d key)
          by assumption.
        split; [apply wrap_returns|]. split; [reflexivity|]. split; [discriminate|].
        intros _. split.
        -- split; [|reflexivity]. intros _. exists r, d. repeat split; auto.
           now apply contains_keys.
        -- intros _. rewrite (has_folding h self r d) by assumption. f_equal.
           rewrite lower_in_keys_folding.
           destruct (first_folding key d) eqn:Hk0; [reflexivity|].
           exfalso. apply contains_keys in Hin.
           exact (first_folding_none _ _ Hk0 _ Hin eq_refl).
      * assert (Hnone : dict_get key d = None).
        { unfold contains in Hin. destruct (dict_get key d); [discriminate|reflexivity]. }
        rewrite (get_absent h self r d key), (delete_absent h self r d key) by assumption.
        split; [reflexivity|]. split; [reflexivity|]. split; [auto|].
        intros _. split; [|discriminate]. split; [discriminate|].
        intros (r' & d' & [= <-] & Hr' & Hin'). rewrite Hr in Hr'. injection Hr' as <-.
        apply contains_keys in Hin'. congruence.
    + exists (lower_in_keys key d). split; [now apply (has_folding h self r d)|].
      rewrite lower_in_keys_folding.
      destruct (first_folding key d) as [k0|] eqn:Hk0.
      * destruct (first_folding_get _ _ _ Hk0) as [item Hitem].
        rewrite (get_folding h self r d key k0), (get_present h self r d k0 item),
          (delete_folding h self r d key k0) by assumption.
        split; [apply wrap_returns|]. split; [reflexivity|].
        split; discriminate.
      * rewrite (get_no_folding h self r d key), (delete_no_folding h self r d key)
          by assumption.
        split; [reflexivity|]. split; [reflexivity|]. split; [auto|discriminate].
  - exists false.
    assert (Hhas : forall cs, has self key cs h = Ret false h).
    { intros cs. unfold has, bind, node. rewrite Hself. reflexivity. }
    assert (Hget : get self key case_sensitive h = Raise (KeyError key) h).
    { unfold get, bind, node. rewrite Hself. reflexivity. }
    assert (Hdel : delete self key case_sensitive h = Raise (KeyError key) h).
    { unfold delete, bind, node. rewrite Hself. reflexivity. }
    rewrite Hget, Hdel. split; [apply Hhas|]. split; [reflexivity|].
    split; [reflexivity|]. split; [auto|].
    intros _. split; [|discriminate]. split; [discriminate|].
    intros (r' & d' & Hv & _). discriminate.
Qed.

(** The theorem at a node on the dict [{"Movies": 1}], for the key
    "movies" taken exactly: [has] answers false, [get] and [delete] raise. *)
Lemma has_answers_for_get_and_delete_witness :
  let h := {| dicts := {[ 10%nat := [("Movies", VScalar (SInt 1))] ]};
              nodes := {[ 0%nat := cls (Some 10%nat) ]} |} in
  exists b,
    has 0%nat "movies" true h = Ret b h
    /\ returns (get 0%nat "movies" true h) = b
    /\ returns (delete 0%nat "movies" true h) = b.
Proof.
  intros h.
  destruct (has_answers_for_get_and_delete h 0%nat (cls (Some 10%nat)) "movies" true)
    as (b & Hhas & Hget & Hdel & _).
  - vm_compute. reflexivity.
  - intros r [= <-]. vm_compute. eauto.
  - exists b. auto.
Defined.

(** *** What is written is what is read *)

(** X2. After a case-sensitive [set] of a value that unwraps to [item],
    [has] finds the key and [get] returns [item] wrapped: a scalar comes
    back as it was given; a node without a mapping comes back as [None],
    not as a node; a node with a mapping comes back as another, new node
    on the same dict object. The same holds for a case-insensitive [set]
    followed by a case-insensitive [get], when a key of the mapping matches
    the query by lower-cased names. *)
Theorem set_then_get h self r d key v item :
  nodes h !! self = Some (cls (Some r)) ->
  dicts h !! r = Some d ->
  unwrap v h = Ret item h ->
  exists h1,
    set self key v true h = Ret self h1
    /\ has self key true h1 = Ret true h1
    /\ get self key true h1 = wrap item h1
    /\ (forall s, v = YScalar s -> get self key true h1 = Ret (YScalar s) h1)
    /\ (forall l, v = YConcept l -> nodes h !! l = Some (cls None) ->
          get self key true h1 = Ret (YScalar SNone) h1)
    /\ (forall l r', v = YConcept l -> nodes h !! l = Some (cls (Some r')) ->
          exists view,
            get self key true h1
            = Ret (YConcept view)
                  {| dicts := dicts h1; nodes := <[view := cls (Some r')]> (nodes h1) |}
            /\ view <> l)
    /\ (forall k0, first_folding key d = Some k0 ->
          exists h2,
            set self key v false h = Ret self h2
            /\ has self key false h2 = Ret true h2
            /\ get self key false h2 = wrap item h2).
Proof.
  intros Hself Hr Hitem.
  set (h1 := {| dicts := <[r := dict_set key item d]> (dicts h); nodes := nodes h |}).
  assert (Hself1 : nodes h1 !! self = Some (cls (Some r))) by exact Hself.
  assert (Hr1 : dicts h1 !! r = Some (dict_set key item d)) by apply lookup_insert_eq.
  assert (Hget : get self key true h1 = wrap item h1).
  { apply (get_present h1 self r (dict_set key item d)); auto. apply dict_get_set. }
  exists h1. split; [now apply set_exact|]. split; [|split; [exact Hget|]].
  { rewrite (has_exact h1 self r (dict_set key item d)) by assumption.
    unfold contains. now rewrite dict_get_set. }
  split; [|split; [|split]].
  - intros s ->. simpl in Hitem. unfold ret in Hitem. injection Hitem as <-.
    exact Hget.
  - intros l -> Hl. simpl in Hitem. unfold bind, node in Hitem. rewrite Hl in Hitem.
    unfold ret in Hitem. injection Hitem as <-. exact Hget.
  - intros l r' -> Hl. simpl in Hitem. unfold bind, node in Hitem. rewrite Hl in Hitem.
    unfold ret in Hitem. injection Hitem as <-.
    exists (fresh (dom (nodes h1))). split; [exact Hget|].
    intros Heq. pose proof (is_fresh (dom (nodes h1))) as Hfresh.
    apply not_elem_of_dom in Hfresh. rewrite Heq in Hfresh. simpl in Hfresh. congruence.
  - intros k0 Hk0.
    set (h2 := {| dicts := <[r := dict_set k0 item d]> (dicts h); nodes := nodes h |}).
    assert (Hself2 : nodes h2 !! self = Some (cls (Some r))) by exact Hself.
    assert (Hr2 : dicts h2 !! r = Some (dict_set k0 item d)) by apply lookup_insert_eq.
    destruct (first_folding_spec _ _ _ Hk0) as [Hin _].
    assert (Hk0' : first_folding key (dict_set k0 item d) = Some k0).
    { rewrite <- Hk0. apply first_folding_keys. now apply dict_set_present. }
    exists h2. split; [now apply set_folding|]. split.
    + rewrite (has_folding h2 self r (dict_set k0 item d)) by assumption.
      now rewrite lower_in_keys_folding, Hk0'.
    + rewrite (get_folding h2 self r (dict_set k0 item d) key k0) by assumption.
      apply (get_present h2 self r (dict_set k0 item d)); auto. apply dict_get_set.
Qed.

(** The theorem at a node on the dict [{"Movies": 1}], for the key "Year"
    and the value [1999]. *)
Lemma set_then_get_witness :
  let h := {| dicts := {[ 10%nat := [("Movies", VScalar (SInt 1))] ]};
              nodes := {[ 0%nat := cls (Some 10%nat) ]} |} in
  exists h1,
    set 0%nat "Year" (YScalar (SInt 1999)) true h = Ret 0%nat h1
    /\ get 0%nat "Year" true h1 = Ret (YScalar (SInt 1999)) h1.
Proof.
  intros h.
  destruct (set_then_get h 0%nat 10%nat [("Movies", VScalar (SInt 1))] "Year"
              (YScalar (SInt 1999)) (VScalar (SInt 1999)))
    as (h1 & Hset & _ & _ & Hscalar & _).
  - vm_compute. reflexivity.
  - vm_compute. reflexivity.
  - reflexivity.
  - exists h1. split; [exact Hset|]. now apply Hscalar.
Defined.

(** X3. What [get] returns can be given to [set] as it is: [set] then puts
    under the new key the very item that the mapping holds under the key
    that was read, so that a nested mapping is one dict object under both
    keys, and not a copy. [get] itself changes no dict and no node that
    was there. *)
Theorem get_then_set_stores_the_same_item h self r d k1 k2 item :
  nodes h !! self = Some (cls (Some r)) ->
  dicts h !! r = Some d ->
  dict_get k1 d = Some item ->
  exists y h1,
    get self k1 true h = Ret y h1
    /\ extends h h1
    /\ set self k2 y true h1
       = Ret self {| dicts := <[r := dict_set k2 item d]> (dicts h); nodes := nodes h1 |}
    /\ dict_get k2 (dict_set k2 item d) = Some item
    /\ (k2 <> k1 -> dict_get k1 (dict_set k2 item d) = Some item).
Proof.
  intros Hself Hr Hk1.
  destruct (wrap_unwrap item h) as (y & h1 & Hwrap & Hext & Hun).
  exists y, h1. split; [|split; [exact Hext|split; [|split]]].
  - rewrite (get_present h self r d k1 item) by assumption. exact Hwrap.
  - destruct Hext as [Hd Hn].
    rewrite (set_exact h1 self r d k2 y item); auto.
    + now rewrite Hd.
    + now rewrite Hd.
  - apply dict_get_set.
  - intros Hne. rewrite dict_get_set_other by congruence. exact Hk1.
Qed.

(** The theorem at a node on [{"a": {"x": 1}}]: after the copy of "a" to
    "b", both keys hold the dict object 11. *)
Lemma get_then_set_stores_the_same_item_witness :
  let h := {| dicts := {[ 10%nat := [("a", VDict 11%nat)];
                          11%nat := [("x", VScalar (SInt 1))] ]};
              nodes := {[ 0%nat := cls (Some 10%nat) ]} |} in
  exists y h1,
    get 0%nat "a" true h = Ret y h1
    /\ set 0%nat "b" y true h1
       = Ret 0%nat {| dicts := <[10%nat := [("a", VDict 11%nat); ("b", VDict 11%nat)]]>
                                 (dicts h);
                      nodes := nodes h1 |}.
Proof.
  intros h.
  destruct (get_then_set_stores_the_same_item h 0%nat 10%nat [("a", VDict 11%nat)]
              "a" "b" (VDict 11%nat))
    as (y & h1 & Hget & _ & Hset & _).
  - vm_compute. reflexivity.
  - vm_compute. reflexivity.
  - reflexivity.
  - exists y, h1. split; [exact Hget|exact Hset].
Defined.

(** X4. The node that [get] returns for a nested mapping is a view of it:
    a [set] through the view changes the dict object of the nested mapping
    in place. The items of the parent are as before, and a later [get]
    through the parent reads what was written through the view. *)
Theorem set_through_a_view_is_seen_by_the_parent h self r d key nested dn k2 v item :
  nodes h !! self = Some (cls (Some r)) ->
  dicts h !! r = Some d ->
  dict_get key d = Some (VDict nested) ->
  dicts h !! nested = Some dn ->
  nested <> r ->
  unwrap v h = Ret item h ->
  exists view h1 h2,
    get self key true h = Ret (YConcept view) h1
    /\ set view k2 v true h1 = Ret view h2
    /\ dicts h2 = <[nested := dict_set k2 item dn]> (dicts h)
    /\ dicts h2 !! r = Some d
    /\ exists view2 h3,
         get self key true h2 = Ret (YConcept view2) h3
         /\ has view2 k2 true h3 = Ret true h3
         /\ get view2 k2 true h3 = wrap item h3.
Proof.
  intros Hself Hr Hkey Hnested Hne Hitem.
  set (view := fresh (dom (nodes h))).
  set (h1 := {| dicts := dicts h; nodes := <[view := cls (Some nested)]> (nodes h) |}).
  assert (Hext : extends h h1) by apply extends_new.
  set (h2 := {| dicts := <[nested := dict_set k2 item dn]> (dicts h1);
                nodes := nodes h1 |}).
  set (view2 := fresh (dom (nodes h2))).
  set (h3 := {| dicts := dicts h2; nodes := <[view2 := cls (Some nested)]> (nodes h2) |}).
  assert (Hr2 : dicts h2 !! r = Some d).
  { unfold h2. simpl. rewrite lookup_insert_ne by exact Hne. exact Hr. }
  exists view, h1, h2. split; [|split; [|split; [reflexivity|split; [exact Hr2|]]]].
  - now rewrite (get_present h self r d key (VDict nested)).
  - apply (set_exact h1 view nested dn); auto.
    + apply lookup_insert_eq.
    + now apply (unwrap_extends v h).
  - exists view2, h3.
    assert (Hview2 : nodes h3 !! view2 = Some (cls (Some nested))) by apply lookup_insert_eq.
    assert (Hn3 : dicts h3 !! nested = Some (dict_set k2 item dn)) by apply lookup_insert_eq.
    split; [|split].
    + rewrite (get_present h2 self r d key (VDict nested)); auto.
      destruct Hext as [_ Hn]. now apply Hn.
    + rewrite (has_exact h3 view2 nested (dict_set k2 item dn)) by assumption.
      unfold contains. now rewrite dict_get_set.
    + apply (get_present h3 view2 nested (dict_set k2 item dn)); auto.
      apply dict_get_set.
Qed.

(** The theorem at a node on [{"a": {"x": 1}}]: the key "y" is set to [2]
    through the view of "a". *)
Lemma set_through_a_view_is_seen_by_the_parent_witness :
  let h := {| dicts := {[ 10%nat := [("a", VDict 11%nat)];
                          11%nat := [("x", VScalar (SInt 1))] ]};
              nodes := {[ 0%nat := cls (Some 10%nat) ]} |} in
  exists view h1 h2,
    get 0%nat "a" true h = Ret (YConcept view) h1
    /\ set view "y" (YScalar (SInt 2)) true h1 = Ret view h2
    /\ dicts h2 = <[11%nat := [("x", VScalar (SInt 1)); ("y", VScalar (SInt 2))]]> (dicts h).
Proof.
  intros h.
  destruct (set_through_a_view_is_seen_by_the_parent h 0%nat 10%nat [("a", VDict 11%nat)]
              "a" 11%nat [("x", VScalar (SInt 1))] "y" (YScalar (SInt 2))
              (VScalar (SInt 2)))
    as (view & h1 & h2 & Hget & Hset & Hdicts & _).
  - vm_compute. reflexivity.
  - vm_compute. reflexivity.
  - reflexivity.
  - vm_compute. reflexivity.
  - discriminate.
  - reflexivity.
  - exists view, h1, h2. split; [exact Hget|]. split; [exact Hset|exact Hdicts].
Defined.

(** *** [delete] *)

Lemma keys_pop {V} k (d : list (string * V)) :
  List.NoDup (keys d) ->
  keys (dict_pop k d) = List.filter (fun k' => negb (String.eqb k' k)) (keys d).
Proof.
  induction d as [|[k1 v1] d IH]; simpl; [reflexivity|].
  intros Hnd. apply List.NoDup_cons_iff in Hnd as [Hnotin Hnd].
  destruct (String.eqb k k1) eqn:E.
  - apply String.eqb_eq in E. subst k1. rewrite String.eqb_refl. simpl.
    clear IH Hnd. induction d as [|[k2 v2] d IH]; simpl; [reflexivity|].
    simpl in Hnotin. destruct (String.eqb k2 k) eqn:E2.
    + apply String.eqb_eq in E2. subst k2. exfalso. apply Hnotin. now left.
    + simpl. f_equal. apply IH. intros Hin. apply Hnotin. now right.
  - rewrite String.eqb_sym, E. simpl. f_equal. now apply IH.
Qed.

Lemma keys_pop_NoDup {V} k (d : list (string * V)) :
  List.NoDup (keys d) -> List.NoDup (keys (dict_pop k d)).
Proof. intros Hnd. rewrite keys_pop by exact Hnd. now apply List.NoDup_filter. Qed.

Lemma first_folding_absent key d :
  (forall k, In k (keys d) -> lower k <> lower key) -> first_folding key d = None.
Proof.
  intros Hnone. destruct (first_folding key d) as [k0|] eqn:Hk0; [|reflexivity].
  destruct (first_folding_spec _ _ _ Hk0) as [Hin Hlow]. now destruct (Hnone _ Hin).
Qed.

Lemma NoDup_map_injective {A B} (f : A -> B) (l : list A) a b :
  List.NoDup (map f l) -> In a l -> In b l -> f a = f b -> a = b.
Proof.
  induction l as [|x l IH]; simpl; [tauto|].
  intros Hnd Ha Hb Hf. apply List.NoDup_cons_iff in Hnd as [Hnotin Hnd].
  destruct Ha as [->|Ha], Hb as [->|Hb]; auto.
  - exfalso. apply Hnotin. rewrite Hf. now apply in_map.
  - exfalso. apply Hnotin. rewrite <- Hf. now apply in_map.
Qed.

(** X5. On a mapping with distinct keys, a case-sensitive [delete] of a key
    that is there removes that entry and no other: afterwards [has] answers
    false for the key, [get] and a second [delete] raise [KeyError], and the
    other keys keep their order and their values. When moreover no two keys
    have the same lower-cased name, the same holds for a case-insensitive
    [delete] of a query that matches a key. *)
Theorem delete_removes_the_entry h self r d key :
  nodes h !! self = Some (cls (Some r)) ->
  dicts h !! r = Some d ->
  List.NoDup (keys d) ->
  (In key (keys d) ->
   exists h1,
     delete self key true h = Ret tt h1
     /\ nodes h1 = nodes h
     /\ dicts h1 = <[r := dict_pop key d]> (dicts h)
     /\ has self key true h1 = Ret false h1
     /\ get self key true h1 = Raise (KeyError key) h1
     /\ delete self key true h1 = Raise (KeyError key) h1)
  /\ (forall k,
        keys (dict_pop k d) = List.filter (fun k' => negb (String.eqb k' k)) (keys d)
        /\ List.NoDup (keys (dict_pop k d))
        /\ forall k', k' <> k -> dict_get k' (dict_pop k d) = dict_get k' d)
  /\ (List.NoDup (map lower (keys d)) ->
      forall k0, first_folding key d = Some k0 ->
      exists h1,
        delete self key false h = Ret tt h1
        /\ dicts h1 = <[r := dict_pop k0 d]> (dicts h)
        /\ has self key false h1 = Ret false h1
        /\ get self key false h1 = Raise (KeyError key) h1
        /\ delete self key false h1 = Raise (KeyError key) h1).
Proof.
  intros Hself Hr Hnd. split; [|split].
  - intros Hin.
    set (h1 := {| dicts := <[r := dict_pop key d]> (dicts h); nodes := nodes h |}).
    assert (Hself1 : nodes h1 !! self = Some (cls (Some r))) by exact Hself.
    assert (Hr1 : dicts h1 !! r = Some (dict_pop key d)) by apply lookup_insert_eq.
    assert (Hgone : dict_get key (dict_pop key d) = None) by now apply dict_get_pop.
    assert (Hcont : contains key (dict_pop key d) = false)
      by (unfold contains; now rewrite Hgone).
    exists h1. split; [|split; [reflexivity|split; [reflexivity|split; [|split]]]].
    + apply delete_present; auto. now apply contains_keys.
    + rewrite (has_exact h1 self r (dict_pop key d)) by assumption. now rewrite Hcont.
    + now apply (get_absent h1 self r (dict_pop key d)).
    + now apply (delete_absent h1 self r (dict_pop key d)).
  - intros k. split; [now apply keys_pop|]. split; [now apply keys_pop_NoDup|].
    intros k' Hne. now apply dict_get_pop_other.
  - intros Hlow k0 Hk0.
    set (h1 := {| dicts := <[r := dict_pop k0 d]> (dicts h); nodes := nodes h |}).
    assert (Hself1 : nodes h1 !! self = Some (cls (Some r))) by exact Hself.
    assert (Hr1 : dicts h1 !! r = Some (dict_pop k0 d)) by apply lookup_insert_eq.
    destruct (first_folding_spec _ _ _ Hk0) as [Hin0 Hlow0].
    assert (Hnone : first_folding key (dict_pop k0 d) = None).
    { apply first_folding_absent. intros k Hin Heq.
      rewrite keys_pop in Hin by exact Hnd.
      apply List.filter_In in Hin as [Hin Hne].
      apply negb_true_iff, String.eqb_neq in Hne. apply Hne.
      apply (NoDup_map_injective lower (keys d)); auto. congruence. }
    exists h1. split; [now apply delete_folding|]. split; [reflexivity|].
    split; [|split].
    + rewrite (has_folding h1 self r (dict_pop k0 d)) by assumption.
      now rewrite lower_in_keys_folding, Hnone.
    + now apply (get_no_folding h1 self r (dict_pop k0 d)).
    + now apply (delete_no_folding h1 self r (dict_pop k0 d)).
Qed.

(** The theorem at a node on [{"Movies": 1, "Year": 2}], for the key
    "Movies". *)
Lemma delete_removes_the_entry_witness :
  let h := {| dicts := {[ 10%nat := [("Movies", VScalar (SInt 1));
                                      ("Year", VScalar (SInt 2))] ]};
              nodes := {[ 0%nat := cls (Some 10%nat) ]} |} in
  exists h1,
    delete 0%nat "Movies" true h = Ret tt h1
    /\ dicts h1 = <[10%nat := [("Year", VScalar (SInt 2))]]> (dicts h)
    /\ has 0%nat "Movies" true h1 = Ret false h1.
Proof.
  intros h.
  destruct (delete_removes_the_entry h 0%nat 10%nat
              [("Movies", VScalar (SInt 1)); ("Year", VScalar (SInt 2))] "Movies")
    as (Hexact & _).
  - vm_compute. reflexivity.
  - vm_compute. reflexivity.
  - repeat constructor; simpl; intuition discriminate.
  - destruct Hexact as (h1 & Hdel & _ & Hdicts & Hhas & _); [now left|].
    exists h1. split; [exact Hdel|]. split; [exact Hdicts|exact Hhas].
Defined.

(** *** What the accessors leave alone *)

Lemma get_extends h self key case_sensitive :
  extends h (state_of (get self key case_sensitive h)).
Proof.
  unfold get, bind, node, items.
  destruct (nodes h !! self) as [[[r|]]|]; simpl; try apply extends_refl.
  destruct (dicts h !! r) as [d|]; simpl; try apply extends_refl.
  assert (Hwrap : forall k, extends h (state_of (
            match subscript d k h with
            | Ret item s' => wrap item s'
            | Raise e s' => Raise e s'
            end))).
  { intros k. unfold subscript. destruct (dict_get k d) as [item|]; simpl;
      [|apply extends_refl].
    destruct (wrap_unwrap item h) as (y & h' & -> & Hext & _). exact Hext. }
  destruct case_sensitive.
  - destruct (contains key d); [apply Hwrap|apply extends_refl].
  - destruct (lower_in_keys key d); [|apply extends_refl].
    unfold first_matching_key. destruct (matching_keys key d) as [|k0 ?]; simpl;
      [apply extends_refl|apply Hwrap].
Qed.

Lemma get_raise h self key case_sensitive :
  returns (get self key case_sensitive h) = false ->
  state_of (get self key case_sensitive h) = h.
Proof.
  unfold get, bind, node, items.
  destruct (nodes h !! self) as [[[r|]]|]; simpl; try reflexivity.
  destruct (dicts h !! r) as [d|]; simpl; try reflexivity.
  assert (Hwrap : forall k,
            returns (match subscript d k h with
                     | Ret item s' => wrap item s'
                     | Raise e s' => Raise e s'
                     end) = false ->
            state_of (match subscript d k h with
                      | Ret item s' => wrap item s'
                      | Raise e s' => Raise e s'
                      end) = h).
  { intros k. unfold subscript. destruct (dict_get k d) as [item|]; simpl; [|reflexivity].
    rewrite wrap_returns. discriminate. }
  destruct case_sensitive.
  - destruct (contains key d); [apply Hwrap|reflexivity].
  - destruct (lower_in_keys key d); [|reflexivity].
    unfold first_matching_key. destruct (matching_keys key d) as [|k0 ?]; simpl;
      [reflexivity|apply Hwrap].
Qed.

(** The heaps that differ at most in the items of the dict of [self]. *)
Lemma set_changes_own_dict h self key v case_sensitive :
  changes_own_dict self h (state_of (set self key v case_sensitive h)).
Proof.
  assert (Hsame : changes_own_dict self h h) by (split; auto).
  assert (Hstore : forall r k item d0,
            nodes h !! self = Some (cls (Some r)) ->
            changes_own_dict self h
              {| dicts := <[r := dict_set k item d0]> (dicts h); nodes := nodes h |}).
  { intros r k item d0 Hself. split; [reflexivity|]. intros r' Hr'. simpl.
    apply lookup_insert_ne. intros <-. now apply (Hr' _ Hself). }
  unfold set, setitem, store, bind, node, items.
  destruct (nodes h !! self) as [[[r|]]|] eqn:Hself; simpl; try exact Hsame.
  destruct case_sensitive.
  - pose proof (unwrap_state v h) as Hst.
    destruct (unwrap v h) as [item h1|e h1]; simpl in Hst; subst h1; [|exact Hsame].
    destruct (dicts h !! r) as [d|]; simpl; [now apply Hstore|exact Hsame].
  - destruct (dicts h !! r) as [d|] eqn:Hr; simpl; [|exact Hsame].
    destruct (lower_in_keys key d); [|exact Hsame].
    unfold first_matching_key. destruct (matching_keys key d) as [|k0 ?]; simpl;
      [exact Hsame|].
    pose proof (unwrap_state v h) as Hst.
    destruct (unwrap v h) as [item h1|e h1]; simpl in Hst; subst h1; [|exact Hsame].
    rewrite Hr. simpl. now apply Hstore.
Qed.

Lemma delete_changes_own_dict h self key case_sensitive :
  changes_own_dict self h (state_of (delete self key case_sensitive h)).
Proof.
  assert (Hsame : changes_own_dict self h h) by (split; auto).
  assert (Hstore : forall r d0,
            nodes h !! self = Some (cls (Some r)) ->
            changes_own_dict self h
              {| dicts := <[r := d0]> (dicts h); nodes := nodes h |}).
  { intros r d0 Hself. split; [reflexivity|]. intros r' Hr'. simpl.
    apply lookup_insert_ne. intros <-. now apply (Hr' _ Hself). }
  unfold delete, pop, store, bind, node, items.
  destruct (nodes h !! self) as [[[r|]]|] eqn:Hself; simpl; try exact Hsame.
  destruct (dicts h !! r) as [d|] eqn:Hr; simpl; [|exact Hsame].
  destruct case_sensitive.
  - destruct (contains key d); [|exact Hsame]. rewrite Hr. simpl. now apply Hstore.
  - destruct (lower_in_keys key d); [|exact Hsame].
    unfold first_matching_key. destruct (matching_keys key d) as [|k0 ?]; simpl;
      [exact Hsame|].
    rewrite Hr. simpl. now apply Hstore.
Qed.

Lemma delete_raise h self key case_sensitive :
  returns (delete self key case_sensitive h) = false ->
  state_of (delete self key case_sensitive h) = h.
Proof.
  unfold delete, pop, store, bind, node, items.
  destruct (nodes h !! self) as [[[r|]]|] eqn:Hself; simpl; try reflexivity.
  destruct (dicts h !! r) as [d|] eqn:Hr; simpl; [|reflexivity].
  destruct case_sensitive.
  - destruct (contains key d); [|reflexivity]. rewrite Hr. discriminate.
  - destruct (lower_in_keys key d); [|reflexivity].
    unfold first_matching_key. destruct (matching_keys key d) as [|k0 ?]; simpl;
      [reflexivity|].
    rewrite Hr. discriminate.
Qed.

(** X6. What the accessors never do, on any heap and in every outcome:
    [has] changes nothing; [get] changes no dict and no node that was
    there, it only makes new nodes; [set] and [delete] change no node and
    no dict object other than the one of the node they are called on; and
    a [get] or a [delete] that raises has changed nothing. *)
Theorem accessors_leave_the_rest h self key case_sensitive v :
  state_of (has self key case_sensitive h) = h
  /\ extends h (state_of (get self key case_sensitive h))
  /\ changes_own_dict self h (state_of (set self key v case_sensitive h))
  /\ changes_own_dict self h (state_of (delete self key case_sensitive h))
  /\ (returns (get self key case_sensitive h) = false ->
      state_of (get self key case_sensitive h) = h)
  /\ (returns (delete self key case_sensitive h) = false ->
      state_of (delete self key case_sensitive h) = h).
Proof.
  split; [|split; [apply get_extends|split; [apply set_changes_own_dict|
    split; [apply delete_changes_own_dict|split; [apply get_raise|apply delete_raise]]]]].
  unfold has, bind, node, items.
  destruct (nodes h !! self) as [[[r|]]|]; simpl; try reflexivity.
  destruct (dicts h !! r) as [d|]; simpl; try reflexivity.
  destruct (case_sensitive && contains key d); [reflexivity|].
  destruct (negb case_sensitive && lower_in_keys key d); reflexivity.
Qed.

End YAMLAccessors.

(** ** Properties of the procedures of the YAML book *)

Section YAMLBookProcedures.
Import Py bdk yaml_book vocabulary.

Variable to_field_names : NounPhrase -> list string.
Variable safe_dump : gmap loc dict -> pyvalue -> string.
Variable safe_load : string -> run (option loc).

Implicit Types (h : heap) (d : dict) (key k : string) (r yaml : loc).

(** *** Properties by noun phrase *)

Lemma has_folding_none h yaml r d field_name :
  nodes h !! yaml = Some (cls (Some r)) -> dicts h !! r = Some d ->
  first_folding field_name d = None ->
  has yaml field_name false h = Ret false h.
Proof.
  intros Hyaml Hr Hnone. rewrite (has_folding h yaml r d) by assumption.
  now rewrite lower_in_keys_folding, Hnone.
Qed.

Lemma has_folding_some h yaml r d field_name k0 :
  nodes h !! yaml = Some (cls (Some r)) -> dicts h !! r = Some d ->
  first_folding field_name d = Some k0 ->
  has yaml field_name false h = Ret true h.
Proof.
  intros Hyaml Hr Hk0. rewrite (has_folding h yaml r d) by assumption.
  now rewrite lower_in_keys_folding, Hk0.
Qed.

Lemma get_first_field_skip h yaml r d p skipped field_names :
  nodes h !! yaml = Some (cls (Some r)) -> dicts h !! r = Some d ->
  (forall f, In f skipped -> first_folding f d = None) ->
  get_first_field yaml p (skipped ++ field_names) h = get_first_field yaml p field_names h.
Proof.
  intros Hyaml Hr. induction skipped as [|f skipped IH]; intros Hnone; [reflexivity|].
  simpl. unfold bind at 1, lift at 1.
  rewrite (has_folding_none h yaml r d f) by (auto; apply Hnone; now left).
  apply IH. intros f' Hf'. apply Hnone. now right.
Qed.

Lemma set_first_field_skip h yaml r d v skipped field_names :
  nodes h !! yaml = Some (cls (Some r)) -> dicts h !! r = Some d ->
  (forall f, In f skipped -> first_folding f d = None) ->
  set_first_field yaml v (skipped ++ field_names) h = set_first_field yaml v field_names h.
Proof.
  intros Hyaml Hr. induction skipped as [|f skipped IH]; intros Hnone; [reflexivity|].
  simpl. unfold bind at 1.
  rewrite (has_folding_none h yaml r d f) by (auto; apply Hnone; now left).
  apply IH. intros f' Hf'. apply Hnone. now right.
Qed.

Lemma get_first_field_found h yaml r d p field_name rest k0 item :
  nodes h !! yaml = Some (cls (Some r)) -> dicts h !! r = Some d ->
  first_folding field_name d = Some k0 ->
  dict_get k0 d = Some item ->
  get_first_field yaml p (field_name :: rest) h = lift (wrap item) h.
Proof.
  intros Hyaml Hr Hk0 Hitem. simpl. unfold bind at 1, lift at 1.
  rewrite (has_folding_some h yaml r d field_name k0) by assumption.
  unfold lift.
  rewrite (get_folding h yaml r d field_name k0) by assumption.
  now rewrite (get_present h yaml r d k0 item).
Qed.

(** X7. With a noun phrase, [get_property_by_name] reads the first candidate
    field name that matches a key of the mapping by lower-cased names, and
    for it the first such key: it returns the item under that key, wrapped,
    and raises nothing. The candidates before it, which match no key, and
    those after it play no part. *)
Theorem get_property_by_name_first_match h yaml r d np skipped field_name rest k0 :
  nodes h !! yaml = Some (cls (Some r)) ->
  dicts h !! r = Some d ->
  to_field_names np = (skipped ++ field_name :: rest)%list ->
  (forall f, In f skipped -> first_folding f d = None) ->
  first_folding field_name d = Some k0 ->
  exists item y h',
    dict_get k0 d = Some item
    /\ wrap item h = Ret y h'
    /\ get_property_by_name to_field_names yaml (PropertyNounPhrase np) h = Ret y h'
    /\ extends h h'.
Proof.
  intros Hyaml Hr Hnames Hskipped Hk0.
  destruct (first_folding_get _ _ _ Hk0) as [item Hitem].
  destruct (wrap_unwrap item h) as (y & h' & Hwrap & Hext & _).
  exists item, y, h'. split; [exact Hitem|]. split; [exact Hwrap|]. split; [|exact Hext].
  unfold get_property_by_name. rewrite Hnames.
  rewrite (get_first_field_skip h yaml r d) by assumption.
  rewrite (get_first_field_found h yaml r d _ field_name rest k0 item) by assumption.
  unfold lift. now rewrite Hwrap.
Qed.


(** X8. With a noun phrase none of whose candidate field names matches a key
    of the mapping by lower-cased names, or on a node without a mapping,
    [get_property_by_name] raises [ValueError] of the property and leaves
    the heap as it is. With a noun phrase it never raises [KeyError]: it
    returns or raises that [ValueError]. With a [str] the lookup is exact: a
    name that is no key raises [KeyError] of the name, also when a key has
    the same lower-cased name. *)
Theorem get_property_by_name_errors h yaml c np :
  nodes h !! yaml = Some c ->
  (forall r, value c = Some r -> is_Some (dicts h !! r)) ->
  ((forall r d, value c = Some r -> dicts h !! r = Some d ->
      forall f, In f (to_field_names np) -> first_folding f d = None) ->
   get_property_by_name to_field_names yaml (PropertyNounPhrase np) h
   = Raise (ValueError (PropertyNounPhrase np)) h)
  /\ (returns (get_property_by_name to_field_names yaml (PropertyNounPhrase np) h) = true
      \/ get_property_by_name to_field_names yaml (PropertyNounPhrase np) h
         = Raise (ValueError (PropertyNounPhrase np)) h)
  /\ (forall name,
        (forall r d, value c = Some r -> dicts h !! r = Some d -> ~ In name (keys d)) ->
        get_property_by_name to_field_names yaml (PropertyStr name) h
        = Raise (ConceptError (KeyError name)) h).
Proof.
  intros Hyaml Hdict. unfold get_property_by_name.
  destruct c as [[r|]].
  - destruct (Hdict r eq_refl) as [d Hr].
    assert (Hloop : forall field_names,
              (forall f, In f field_names -> first_folding f d = None) ->
              get_first_field yaml (PropertyNounPhrase np) field_names h
              = Raise (ValueError (PropertyNounPhrase np)) h).
    { intros field_names Hnone.
      rewrite <- (app_nil_r field_names).
      now rewrite (get_first_field_skip h yaml r d). }
    split; [|split].
    + intros Hnone. apply Hloop. intros f Hf. now apply (Hnone r d).
    + induction (to_field_names np) as [|f field_names IH].
      * right. reflexivity.
      * destruct (first_folding f d) as [k0|] eqn:Hk0.
        -- left. destruct (first_folding_get _ _ _ Hk0) as [item Hitem].
           rewrite (get_first_field_found h yaml r d _ f field_names k0 item)
             by assumption.
           unfold lift. destruct (wrap_unwrap item h) as (y & h' & -> & _). reflexivity.
        -- change (f :: field_names) with ([f] ++ field_names)%list.
           rewrite (get_first_field_skip h yaml r d) by
             (auto; intros f' [<-|[]]; exact Hk0).
           exact IH.
    + intros name Hnotin. unfold lift.
      rewrite (get_absent h yaml r d name); auto.
      apply dict_get_keys. now apply (Hnotin r d).
  - assert (Hhas : forall f, has yaml f false h = Ret false h).
    { intros f. unfold has, bind, node. rewrite Hyaml. reflexivity. }
    assert (Hloop : forall field_names,
              get_first_field yaml (PropertyNounPhrase np) field_names h
              = Raise (ValueError (PropertyNounPhrase np)) h).
    { induction field_names as [|f field_names IH]; [reflexivity|].
      simpl. unfold bind at 1, lift at 1. rewrite Hhas. exact IH. }
    split; [|split].
    + intros _. apply Hloop.
    + right. apply Hloop.
    + intros name _. unfold lift, get, bind, node. rewrite Hyaml. reflexivity.
Qed.

(** *** [set_property_to_value], and back *)

Lemma set_first_field_found h yaml r d v field_name rest k0 item :
  nodes h !! yaml = Some (cls (Some r)) -> dicts h !! r = Some d ->
  first_folding field_name d = Some k0 ->
  unwrap v h = Ret item h ->
  set_first_field yaml v (field_name :: rest) h
  = Ret tt {| dicts := <[r := dict_set k0 item d]> (dicts h); nodes := nodes h |}.
Proof.
  intros Hyaml Hr Hk0 Hitem. simpl. unfold bind at 1.
  rewrite (has_folding_some h yaml r d field_name k0) by assumption.
  unfold bind. now rewrite (set_folding h yaml r d field_name k0 v item).
Qed.

(** X9. With a noun phrase, [set_property_to_value] writes under the key
    that [get_property_by_name] reads: for the first candidate field name
    that matches a key by lower-cased names, the unwrapped value is put
    under the first such key; the mapping gets no new key and the node is
    returned. [get_property_by_name] with the same noun phrase then returns
    that value, wrapped. With a [str], the value is put under that exact
    name, which is added when it is new, and is read back by that name. *)
Theorem set_property_to_value_then_get h yaml r d np skipped field_name rest k0 v item :
  nodes h !! yaml = Some (cls (Some r)) ->
  dicts h !! r = Some d ->
  to_field_names np = (skipped ++ field_name :: rest)%list ->
  (forall f, In f skipped -> first_folding f d = None) ->
  first_folding field_name d = Some k0 ->
  unwrap v h = Ret item h ->
  (exists h1,
      set_property_to_value to_field_names yaml (PropertyNounPhrase np) v h = Ret yaml h1
      /\ h1 = {| dicts := <[r := dict_set k0 item d]> (dicts h); nodes := nodes h |}
      /\ keys (dict_set k0 item d) = keys d
      /\ dict_get k0 (dict_set k0 item d) = Some item
      /\ exists y h2,
           wrap item h1 = Ret y h2
           /\ get_property_by_name to_field_names yaml (PropertyNounPhrase np) h1
              = Ret y h2)
  /\ (forall name, exists h1,
        set_property_to_value to_field_names yaml (PropertyStr name) v h = Ret yaml h1
        /\ h1 = {| dicts := <[r := dict_set name item d]> (dicts h); nodes := nodes h |}
        /\ exists y h2,
             wrap item h1 = Ret y h2
             /\ get_property_by_name to_field_names yaml (PropertyStr name) h1
                = Ret y h2).
Proof.
  intros Hyaml Hr Hnames Hskipped Hk0 Hitem. split.
  - set (h1 := {| dicts := <[r := dict_set k0 item d]> (dicts h); nodes := nodes h |}).
    assert (Hyaml1 : nodes h1 !! yaml = Some (cls (Some r))) by exact Hyaml.
    assert (Hr1 : dicts h1 !! r = Some (dict_set k0 item d)) by apply lookup_insert_eq.
    destruct (first_folding_spec _ _ _ Hk0) as [Hin _].
    assert (Hkeys : keys (dict_set k0 item d) = keys d) by now apply dict_set_present.
    exists h1. split; [|split; [reflexivity|split; [exact Hkeys|split]]].
    + unfold set_property_to_value. rewrite Hnames. unfold bind.
      rewrite (set_first_field_skip h yaml r d) by assumption.
      now rewrite (set_first_field_found h yaml r d v field_name rest k0 item).
    + apply dict_get_set.
    + destruct (wrap_unwrap item h1) as (y & h2 & Hwrap & _).
      exists y, h2. split; [exact Hwrap|].
      unfold get_property_by_name. rewrite Hnames.
      rewrite (get_first_field_skip h1 yaml r (dict_set k0 item d)); auto.
      * rewrite (get_first_field_found h1 yaml r (dict_set k0 item d) _ field_name rest
                   k0 item); auto.
        -- unfold lift. now rewrite Hwrap.
        -- rewrite <- Hk0. now apply first_folding_keys.
        -- apply dict_get_set.
      * intros f Hf. rewrite <- (Hskipped f Hf). now apply first_folding_keys.
  - intros name.
    set (h1 := {| dicts := <[r := dict_set name item d]> (dicts h); nodes := nodes h |}).
    assert (Hyaml1 : nodes h1 !! yaml = Some (cls (Some r))) by exact Hyaml.
    assert (Hr1 : dicts h1 !! r = Some (dict_set name item d)) by apply lookup_insert_eq.
    exists h1. split; [|split; [reflexivity|]].
    + unfold set_property_to_value, bind.
      now rewrite (set_exact h yaml r d name v item).
    + destruct (wrap_unwrap item h1) as (y & h2 & Hwrap & _).
      exists y, h2. split; [exact Hwrap|].
      unfold get_property_by_name, lift.
      rewrite (get_present h1 yaml r (dict_set name item d) name item); auto.
      * now rewrite Hwrap.
      * apply dict_get_set.
Qed.

(** *** Conversions *)

Lemma substring_none n s : substring n 0 s = "".
Proof.
  revert s. induction n as [|n IH]; intros [|c s]; simpl; auto.
Qed.

Lemma substring_all s : substring 0 (String.length s) s = s.
Proof. induction s as [|c s IH]; simpl; [reflexivity|now rewrite IH]. Qed.

Lemma read_after_write s : read (write StringIO_new s) = "".
Proof. unfold read, write. simpl. rewrite Nat.sub_diag. apply substring_none. Qed.

Lemma encode_nonempty text : text <> "" -> encode text <> [].
Proof. intros Hne Henc. apply Hne. now apply encode_empty. Qed.

(** X10. The text procedures are the bytes methods, with nothing lost in
    between. [convert_to_text] returns the text that PyYAML writes for the
    mapping, and the empty text for a node without a mapping.
    [convert_from_text] of the empty text makes a node without a mapping and
    does not call the parser; for another text it hands that very text to
    the parser and makes a node on the root that comes back, and when the
    parser raises it raises the same and makes no node. So the text of a
    node, when it is not empty, is loaded from what was dumped. *)
Theorem text_conversions h :
  (forall yaml, nodes h !! yaml = Some (cls None) ->
     convert_to_text safe_dump yaml h = Ret "" h)
  /\ (forall yaml r, nodes h !! yaml = Some (cls (Some r)) ->
        convert_to_text safe_dump yaml h = Ret (safe_dump (dicts h) (VDict r)) h)
  /\ (exists node,
        convert_from_text safe_load "" h
        = Ret node {| dicts := dicts h; nodes := <[node := cls None]> (nodes h) |}
        /\ nodes h !! node = None)
  /\ (forall text, text <> "" ->
        convert_from_text safe_load text h = (do root <- safe_load text; new root) h)
  /\ (forall text e h', text <> "" ->
        safe_load text h = Raise e h' ->
        convert_from_text safe_load text h = Raise e h')
  /\ (forall yaml r, nodes h !! yaml = Some (cls (Some r)) ->
        safe_dump (dicts h) (VDict r) <> "" ->
        (do text <- convert_to_text safe_dump yaml; convert_from_text safe_load text) h
        = (do root <- safe_load (safe_dump (dicts h) (VDict r)); new root) h).
Proof.
  assert (Htext : forall yaml r, nodes h !! yaml = Some (cls (Some r)) ->
            convert_to_text safe_dump yaml h = Ret (safe_dump (dicts h) (VDict r)) h).
  { intros yaml r Hyaml. unfold convert_to_text, to_bytes, bind, node.
    rewrite Hyaml. simpl. unfold ret. now rewrite decode_encode. }
  assert (Hfrom : forall text, text <> "" ->
            convert_from_text safe_load text h = (do root <- safe_load text; new root) h).
  { intros text Hne. unfold convert_from_text, from_bytes.
    destruct (encode text) as [|b bs] eqn:Henc.
    - now apply encode_nonempty in Henc.
    - rewrite <- Henc, decode_encode. reflexivity. }
  split; [|split; [exact Htext|split; [|split; [exact Hfrom|split]]]].
  - intros yaml Hyaml. unfold convert_to_text, to_bytes, bind, node.
    rewrite Hyaml. reflexivity.
  - exact (new_fresh None h).
  - intros text e h' Hne Hload. rewrite Hfrom by exact Hne. unfold bind.
    now rewrite Hload.
  - intros yaml r Hyaml Hne. unfold bind at 1. rewrite (Htext yaml r Hyaml).
    now apply Hfrom.
Qed.

(** X11. [convert_to_file] returns a stream that holds the text that PyYAML
    writes for the value of the node and whose cursor is at the end of that
    text, so that nothing is left to read. [convert_from_file] of that
    stream as it is hands the empty text to the parser; for a parser that
    loads the empty text as [None], the result is a new node without a
    mapping, whatever the node held. Of the same stream with its cursor
    back at the start, [convert_from_file] hands all the text to the
    parser. *)
Theorem file_conversions h yaml c :
  nodes h !! yaml = Some c ->
  exists io,
    convert_to_file safe_dump yaml h = Ret io h
    /\ getvalue io = safe_dump (dicts h) (value_of (value c))
    /\ tell io = String.length (getvalue io)
    /\ read io = ""
    /\ convert_from_file safe_load io h = (do root <- safe_load ""; new root) h
    /\ (safe_load "" h = Ret None h ->
        exists node,
          convert_from_file safe_load io h
          = Ret node {| dicts := dicts h; nodes := <[node := cls None]> (nodes h) |}
          /\ nodes h !! node = None)
    /\ convert_from_file safe_load {| getvalue := getvalue io; tell := 0 |} h
       = (do root <- safe_load (getvalue io); new root) h.
Proof.
  intros Hyaml.
  exists (write StringIO_new (safe_dump (dicts h) (value_of (value c)))).
  assert (Hfrom : convert_from_file safe_load
                    (write StringIO_new (safe_dump (dicts h) (value_of (value c)))) h
                  = (do root <- safe_load ""; new root) h).
  { unfold convert_from_file, from_stream. now rewrite read_after_write. }
  split; [|split; [reflexivity|split; [reflexivity|split;
    [apply read_after_write|split; [exact Hfrom|split]]]]].
  - unfold convert_to_file, to_stream, bind, node. rewrite Hyaml. reflexivity.
  - intros Hload. rewrite Hfrom. unfold bind. rewrite Hload. exact (new_fresh None h).
  - unfold convert_from_file, from_stream, read. simpl.
    now rewrite Nat.sub_0_r, substring_all.
Qed.

(** *** The bytes methods *)


(** *** [merge] with nothing to merge *)

(** X12. [merge] returns the receiver and changes nothing when either node
    has no mapping, or when the mapping of the other node is empty. In
    particular the merge into a node without a mapping does not give it the
    mapping of the other node: what the merger returns is dropped. *)
Theorem merge_with_an_empty_side limit h yaml another_yaml y a :
  nodes h !! yaml = Some y ->
  nodes h !! another_yaml = Some a ->
  value y = None \/ value a = None
  \/ (exists rn, value a = Some rn /\ dicts h !! rn = Some []) ->
  merge (S limit) yaml another_yaml h = Ret yaml h.
Proof.
  intros Hyaml Hanother Hempty.
  unfold merge, bind, node. rewrite Hyaml, Hanother.
  destruct y as [[rb|]], a as [[rn|]]; simpl; try reflexivity.
  destruct Hempty as [Hy|[Ha|(rn' & [= <-] & Hrn)]]; try discriminate.
  unfold bind. rewrite (items_lookup _ _ _ Hrn). reflexivity.
Qed.

End YAMLBookProcedures.

Section YAMLBookExamples.
Import Py bdk yaml_book vocabulary.

(** The theorem at a node on [{"Release Date": 1999}] and a noun phrase with
    the candidates "release_date" and "release date". *)
Lemma get_property_by_name_first_match_witness :
  let h := {| dicts := {[ 10%nat := [("Release Date", VScalar (SInt 1999))] ]};
              nodes := {[ 0%nat := cls (Some 10%nat) ]} |} in
  exists item y h',
    dict_get "Release Date" [("Release Date", VScalar (SInt 1999))] = Some item
    /\ wrap item h = Ret y h'
    /\ get_property_by_name (fun _ => ["release_date"; "release date"]) 0%nat
         (PropertyNounPhrase (from_word_list ["release"; "date"])) h
       = Ret y h'
    /\ extends h h'.
Proof.
  intros h.
  apply (get_property_by_name_first_match (fun _ => ["release_date"; "release date"])
           h 0%nat 10%nat [("Release Date", VScalar (SInt 1999))]
           (from_word_list ["release"; "date"]) ["release_date"] "release date" []
           "Release Date").
  - vm_compute. reflexivity.
  - vm_compute. reflexivity.
  - reflexivity.
  - intros f [<-|[]]. vm_compute. reflexivity.
  - vm_compute. reflexivity.
Defined.

(** The theorem at a node on [{"Movies": 1}], for the noun phrase with the
    candidates "release_date" and "release date", and for the name
    "movies". *)
Lemma get_property_by_name_errors_witness :
  let h := {| dicts := {[ 10%nat := [("Movies", VScalar (SInt 1))] ]};
              nodes := {[ 0%nat := cls (Some 10%nat) ]} |} in
  get_property_by_name (fun _ => ["release_date"; "release date"]) 0%nat
    (PropertyNounPhrase (from_word_list ["release"; "date"])) h
  = Raise (ValueError (PropertyNounPhrase (from_word_list ["release"; "date"]))) h
  /\ get_property_by_name (fun _ => ["release_date"; "release date"]) 0%nat
       (PropertyStr "movies") h
     = Raise (ConceptError (KeyError "movies")) h.
Proof.
  intros h.
  destruct (get_property_by_name_errors (fun _ => ["release_date"; "release date"])
              h 0%nat (cls (Some 10%nat)) (from_word_list ["release"; "date"]))
    as (Hnone & _ & Hstr).
  - vm_compute. reflexivity.
  - intros r [= <-]. vm_compute. eauto.
  - split.
    + apply Hnone. intros r d [= <-] Hd. vm_compute in Hd. injection Hd as <-.
      intros f [<-|[<-|[]]]; vm_compute; reflexivity.
    + apply Hstr. intros r d [= <-] Hd. vm_compute in Hd. injection Hd as <-.
      simpl. intros [H|[]]. discriminate H.
Defined.

(** The theorem at a node on [{"Release Date": 1999}], for the value
    [2001]. *)
Lemma set_property_to_value_then_get_witness :
  let h := {| dicts := {[ 10%nat := [("Release Date", VScalar (SInt 1999))] ]};
              nodes := {[ 0%nat := cls (Some 10%nat) ]} |} in
  exists h1,
    set_property_to_value (fun _ => ["release_date"; "release date"]) 0%nat
      (PropertyNounPhrase (from_word_list ["release"; "date"])) (YScalar (SInt 2001)) h
    = Ret 0%nat h1
    /\ h1 = {| dicts := <[10%nat := dict_set "Release Date" (VScalar (SInt 2001))
                                      [("Release Date", VScalar (SInt 1999))]]> (dicts h);
               nodes := nodes h |}.
Proof.
  intros h.
  destruct (set_property_to_value_then_get
              (fun _ => ["release_date"; "release date"])
              h 0%nat 10%nat [("Release Date", VScalar (SInt 1999))]
              (from_word_list ["release"; "date"]) ["release_date"] "release date" []
              "Release Date" (YScalar (SInt 2001)) (VScalar (SInt 2001)))
    as ((h1 & Hset & Hh1 & _) & _).
  - vm_compute. reflexivity.
  - vm_compute. reflexivity.
  - reflexivity.
  - intros f [<-|[]]. vm_compute. reflexivity.
  - vm_compute. reflexivity.
  - reflexivity.
  - exists h1. split; [exact Hset|exact Hh1].
Defined.

(** The theorem at a node on the empty dict, for a library that writes it
    as "{}" and its line end, and that loads the empty text as [None]. *)
Lemma file_conversions_witness :
  let safe_dump : gmap loc dict -> pyvalue -> string := fun _ _ => "{}" ++ newline in
  let safe_load : string -> run (option loc) := fun _ h => Ret None h in
  let h := {| dicts := {[ 10%nat := [] ]}; nodes := {[ 0%nat := cls (Some 10%nat) ]} |} in
  exists io,
    convert_to_file safe_dump 0%nat h = Ret io h
    /\ getvalue io = "{}" ++ newline
    /\ tell io = 3
    /\ read io = "".
Proof.
  intros safe_dump safe_load h.
  destruct (file_conversions safe_dump safe_load h 0%nat (cls (Some 10%nat)))
    as (io & Hto & Hvalue & Htell & Hread & _).
  - vm_compute. reflexivity.
  - exists io. split; [exact Hto|]. split; [exact Hvalue|]. split; [|exact Hread].
    rewrite Htell, Hvalue. reflexivity.
Defined.

(** The theorem at a node without a mapping, merged with a node on
    [{"a": 1}]. *)
Lemma merge_with_an_empty_side_witness :
  let h := {| dicts := {[ 12%nat := [("a", VScalar (SInt 1))] ]};
              nodes := {[ 0%nat := cls None; 1%nat := cls (Some 12%nat) ]} |} in
  merge 1 0%nat 1%nat h = Ret 0%nat h.
Proof.
  intros h.
  apply (merge_with_an_empty_side 0 h 0%nat 1%nat (cls None) (cls (Some 12%nat))).
  - vm_compute. reflexivity.
  - vm_compute. reflexivity.
  - left. reflexivity.
Defined.

End YAMLBookExamples.

(** ** What [merge] writes *)

Section MergeWrites.
Import Py bdk yaml_book vocabulary.

Implicit Types (h : heap) (d : dict) (key k : string).

(** The dict objects of a value are determined by the value. *)
Lemma denotes_footprint t : forall D v F t' F',
  denotes D v t F -> denotes D v t' F' -> F = F'.
Proof.
  induction t as [s|ts IH|m IH] using document_nested_ind; intros D v F t' F' H1 H2.
  - inversion H1; subst. inversion H2; subst. reflexivity.
  - inversion H1 as [|vs ts0 F0 Hall|]; subst.
    inversion H2 as [|vs' ts' F0' Hall'|]; subst.
    clear H1 H2. revert ts' F' Hall'.
    induction Hall as [|a b F1 la lb F2 Hab Hrest IHrest Hdisj]; intros ts' F' Hall'.
    + inversion Hall'; reflexivity.
    + inversion Hall' as [|a' b' F1' la' lb' F2' Hab' Hrest' Hdisj']; subst.
      inversion IH as [|? ? Hb Hlb]; subst.
      f_equal; [exact (Hb _ _ _ _ _ Hab Hab')|exact (IHrest Hlb _ _ Hrest')].
  - inversion H1 as [| |r d m0 F0 Hr Hall Hnotin Hnd]; subst.
    inversion H2 as [| |r' d' m' F0' Hr' Hall' Hnotin' Hnd']; subst.
    rewrite Hr in Hr'. injection Hr' as <-.
    f_equal. clear H1 H2 Hr Hnotin Hnotin' Hnd Hnd'. revert m' F0' Hall'.
    induction Hall as [|a b F1 la lb F2 [Hk Hab] Hrest IHrest Hdisj]; intros m' F' Hall'.
    + inversion Hall'; reflexivity.
    + inversion Hall' as [|a' b' F1' la' lb' F2' [Hk' Hab'] Hrest' Hdisj']; subst.
      inversion IH as [|? ? Hb Hlb]; subst.
      f_equal; [exact (Hb _ _ _ _ _ Hab Hab')|exact (IHrest Hlb _ _ Hrest')].
Qed.

(** The item under a key of a dict that denotes a mapping denotes a
    document, with dict objects among those of the dict. *)
Lemma items_denote_item D d m F k v :
  items_denote D d m F ->
  dict_get k d = Some v ->
  exists t Fv, denotes D v t Fv /\ Fv ⊆ F.
Proof.
  intros Hd Hget.
  destruct (items_denote_split _ _ _ _ _ _ Hd Hget)
    as (tb & Fbv & Frest & _ & _ & Hbv & -> & _ & _).
  exists tb, Fbv. split; [exact Hbv|]. clear. set_solver.
Qed.

(** The items under two keys of such a dict share no dict object. *)
Lemma items_denote_two D d m F k k' v v' t t' Fv Fv' :
  items_denote D d m F ->
  k <> k' ->
  dict_get k d = Some v ->
  dict_get k' d = Some v' ->
  denotes D v t Fv ->
  denotes D v' t' Fv' ->
  Fv ## Fv'.
Proof.
  intros Hd Hne. revert v v' t t' Fv Fv'.
  induction Hd as [|[k1 v1] [k1' t1] F1 d m F2 [Hk Hv1] Hrest IH Hdisj];
    intros v v' t t' Fv Fv' Hget Hget' Hv Hv'; [discriminate|].
  simpl in Hget, Hget', Hk, Hv1. subst k1'.
  destruct (String.eqb k k1) eqn:E; destruct (String.eqb k' k1) eqn:E'.
  - apply String.eqb_eq in E, E'. congruence.
  - injection Hget as <-.
    rewrite (denotes_footprint _ _ _ _ _ _ Hv Hv1).
    destruct (items_denote_item _ _ _ _ _ _ Hrest Hget') as (t2 & F2' & Hv2 & Hsub).
    rewrite (denotes_footprint _ _ _ _ _ _ Hv' Hv2).
    clear -Hdisj Hsub. set_solver.
  - injection Hget' as <-.
    rewrite (denotes_footprint _ _ _ _ _ _ Hv' Hv1).
    destruct (items_denote_item _ _ _ _ _ _ Hrest Hget) as (t2 & F2' & Hv2 & Hsub).
    rewrite (denotes_footprint _ _ _ _ _ _ Hv Hv2).
    clear -Hdisj Hsub. set_solver.
  - now apply (IH v v' t t').
Qed.

Lemma dict_get_cons_other {V} k k1 (v1 : V) (d : list (string * V)) :
  k <> k1 -> dict_get k ((k1, v1) :: d) = dict_get k d.
Proof. intros Hne. simpl. apply String.eqb_neq in Hne. now rewrite Hne. Qed.

(** The loop of the dict strategy, from the base [db0] in the heap [h0],
    when the recursive calls write to their base only: it writes to the
    base dict and to the dict objects of its first items only; a key that
    is new to the base gets the very item of the incoming dict, and a key
    of the base alone keeps its item. *)
Lemma strategy_merge_writes_base limit rb h0 db0 mb0 Fb0 :
  writes_base_only limit ->
  items_denote (dicts h0) db0 mb0 Fb0 ->
  rb ∉ Fb0 ->
  forall dn mn Fn h db h',
    items_denote (dicts h) dn mn Fn ->
    (forall k t, In (k, t) mn -> height t < limit) ->
    List.NoDup (keys dn) ->
    Fn ## Fb0 ->
    rb ∉ Fn ->
    dicts h !! rb = Some db ->
    (forall k, In k (keys dn) -> dict_get k db = dict_get k db0) ->
    (forall k bv t F, In k (keys dn) -> dict_get k db0 = Some bv ->
       denotes (dicts h0) bv t F -> denotes (dicts h) bv t F) ->
    strategy_merge_with (value_strategy limit) rb dn h = Ret tt h' ->
    (forall l, l <> rb -> l ∉ Fb0 -> dicts h' !! l = dicts h !! l)
    /\ exists db',
         dicts h' !! rb = Some db'
         /\ (forall k v, dict_get k dn = Some v -> dict_get k db = None ->
               dict_get k db' = Some v)
         /\ (forall k, dict_get k dn = None -> dict_get k db' = dict_get k db).
Proof.
  intros Hrec Hb0 Hrb0 dn.
  induction dn as [|[k v] dn IH];
    intros mn Fn h db h' Hn Hheight Hnd Hsep Hrb_n Hrb Hsame Hkept Hrun.
  - simpl in Hrun. unfold ret in Hrun. injection Hrun as <-.
    split; [reflexivity|]. exists db. split; [exact Hrb|]. split; [discriminate|reflexivity].
  - inversion Hn as [|kv [k' t] F1 dn' mn' F2 [Hk Hv] Hrest Hdisj]; subst.
    simpl in Hk. subst k'.
    change (keys ((k, v) :: dn)) with (k :: keys dn) in Hnd.
    apply List.NoDup_cons_iff in Hnd as [Hnotin Hnd].
    assert (Hheight' : forall k0 t0, In (k0, t0) mn' -> height t0 < limit)
      by (intros k0 t0 Hin; apply (Hheight k0); now right).
    assert (Hk_rest : dict_get k dn = None) by now apply dict_get_keys.
    simpl in Hrun. unfold bind at 1 in Hrun. rewrite (items_lookup _ _ _ Hrb) in Hrun.
    unfold bind at 1 in Hrun.
    (* what the step does to the heap and to the base *)
    assert (Hstep : exists h2 item,
              strategy_merge_with (value_strategy limit) rb dn h2 = Ret tt h'
              /\ dicts h2 !! rb = Some (dict_set k item db)
              /\ (dict_get k db = None -> item = v)
              /\ exists Fw, Fw ⊆ Fb0
                   /\ (forall l, l <> rb -> l ∉ Fw -> dicts h2 !! l = dicts h !! l)
                   /\ forall k2 bv2 t2 F2', k2 <> k -> dict_get k2 db0 = Some bv2 ->
                        denotes (dicts h0) bv2 t2 F2' -> Fw ## F2').
    { destruct (dict_get k db) as [bv|] eqn:Hget.
      - unfold bind at 1 in Hrun.
        destruct (value_strategy limit bv v h) as [merged h1|e h1] eqn:Hvs;
          [|discriminate].
        assert (Hget0 : dict_get k db0 = Some bv)
          by (rewrite <- Hsame; [exact Hget|now left]).
        destruct (items_denote_item _ _ _ _ _ _ Hb0 Hget0) as (tb & Fbv & Hbv0 & Hsub).
        assert (Hbv : denotes (dicts h) bv tb Fbv)
          by (apply (Hkept k); [now left|exact Hget0|exact Hbv0]).
        assert (Hframe : forall l, l ∉ Fbv -> dicts h1 !! l = dicts h !! l).
        { apply (Hrec tb t bv v h Fbv F1 merged h1); auto.
          - apply (Hheight k). now left.
          - clear -Hsub Hsep. set_solver. }
        assert (Hrb1 : dicts h1 !! rb = Some db).
        { rewrite Hframe; [exact Hrb|]. clear -Hsub Hrb0. set_solver. }
        unfold setitem, bind in Hrun. rewrite (items_lookup _ _ _ Hrb1) in Hrun.
        unfold store in Hrun.
        eexists _, merged. split; [exact Hrun|]. split; [apply lookup_insert_eq|].
        split; [discriminate|].
        exists Fbv. split; [exact Hsub|]. split.
        + intros l Hne Hl. simpl. rewrite lookup_insert_ne by congruence. now apply Hframe.
        + intros k2 bv2 t2 F2' Hne Hget2 Hbv2.
          apply (items_denote_two _ _ _ _ k k2 bv bv2 tb t2 _ _ Hb0); auto.
      - unfold setitem, bind in Hrun. rewrite (items_lookup _ _ _ Hrb) in Hrun.
        unfold store in Hrun.
        eexists _, v. split; [exact Hrun|]. split; [apply lookup_insert_eq|].
        split; [reflexivity|].
        exists ∅. split; [set_solver|]. split.
        + intros l Hne _. simpl. now rewrite lookup_insert_ne by congruence.
        + intros. set_solver. }
    clear Hrun.
    destruct Hstep as (h2 & item & Hrun & Hrb2 & Hnew & Fw & Hw & Hframe & Hothers).
    destruct (IH mn' F2 h2 (dict_set k item db) h') as (Hframe' & db' & Hrb' & Hadd & Hkeep).
    + apply (items_denote_frame (dicts h)); [exact Hrest|].
      intros l Hl. apply Hframe.
      * intros ->. apply Hrb_n. clear -Hl. set_solver.
      * clear -Hl Hw Hsep. set_solver.
    + exact Hheight'.
    + exact Hnd.
    + clear -Hsep. set_solver.
    + clear -Hrb_n. set_solver.
    + exact Hrb2.
    + intros k2 Hin.
      assert (Hne : k2 <> k) by (intros ->; contradiction).
      rewrite dict_get_set_other by exact Hne. apply Hsame. now right.
    + intros k2 bv2 t2 F2' Hin Hget2 Hbv2.
      assert (Hne : k2 <> k) by (intros ->; contradiction).
      apply (denotes_frame _ (dicts h)); [apply (Hkept k2); auto; now right|].
      intros l Hl. apply Hframe.
      * intros ->. destruct (items_denote_item _ _ _ _ _ _ Hb0 Hget2)
          as (t3 & F3 & Hbv3 & Hsub3).
        rewrite (denotes_footprint _ _ _ _ _ _ Hbv2 Hbv3) in Hl.
        apply Hrb0. clear -Hl Hsub3. set_solver.
      * pose proof (Hothers k2 bv2 t2 F2' Hne Hget2 Hbv2) as Hd.
        clear -Hl Hd. set_solver.
    + exact Hrun.
    + split.
      * intros l Hne Hl. rewrite Hframe' by assumption. apply Hframe; [exact Hne|].
        clear -Hl Hw. set_solver.
      * exists db'. split; [exact Hrb'|]. split.
        -- intros k2 v2 Hget2 Hnone.
           destruct (String.eqb k2 k) eqn:E.
           ++ apply String.eqb_eq in E. subst k2. simpl in Hget2.
              rewrite String.eqb_refl in Hget2. injection Hget2 as <-.
              rewrite (Hkeep k Hk_rest), dict_get_set. f_equal. now apply Hnew.
           ++ simpl in Hget2. rewrite E in Hget2. apply String.eqb_neq in E.
              apply Hadd; [exact Hget2|]. now rewrite dict_get_set_other.
        -- intros k2 Hget2. simpl in Hget2.
           destruct (String.eqb k2 k) eqn:E; [discriminate|].
           apply String.eqb_neq in E.
           rewrite (Hkeep k2 Hget2). now apply dict_get_set_other.
Qed.

(** [value_strategy] writes to the dict objects of its base only. *)
Lemma value_strategy_writes_base limit : writes_base_only limit.
Proof.
  induction limit as [|limit IH];
    intros B N bv nv h FB FN res h' Hheight HB HN Hsep Hrun l Hl; [lia|].
  inversion HB as [sb|vb tb Fb Hb|rb db mb Fb Hrb Hb Hrb_b Hnd_b]; subst;
    inversion HN as [sn|vn tn Fn Hn|rn dn mn Fn Hrn Hn Hrn_n Hnd_n]; subst;
    try (simpl in Hrun; unfold ret in Hrun; injection Hrun as _ <-; reflexivity).
  change (value_strategy (S limit) (VDict rb) (VDict rn) h)
    with (bind (items rn)
            (fun nxt_items =>
               bind (strategy_merge_with (value_strategy limit) rb nxt_items)
                    (fun _ => ret (VDict rb))) h) in Hrun.
  unfold bind at 1 in Hrun. rewrite (items_lookup _ _ _ Hrn) in Hrun.
  unfold bind in Hrun.
  destruct (strategy_merge_with (value_strategy limit) rb dn h) as [[] h1|e h1] eqn:Hloop;
    [|discriminate].
  unfold ret in Hrun. injection Hrun as _ <-.
  destruct (strategy_merge_writes_base limit rb h db mb Fb IH Hb Hrb_b
              dn mn Fn h db h1) as [Hframe _]; auto.
  - intros k t Hin. pose proof (height_item _ _ _ Hin). lia.
  - clear -Hsep. set_solver.
  - clear -Hsep. set_solver.
  - apply Hframe; clear -Hl; set_solver.
Qed.

(** X13. For two nodes whose mappings are made of separate dict objects,
    and a recursion limit above the depth of the other mapping, [merge]
    returns and has written to dict objects of the receiver only: the
    mapping of the other node is as it was, at every depth. A key that
    only the other mapping has is added to the receiver with the very item
    of the other mapping, so that a nested mapping under such a key is
    from then on one dict object that both nodes hold; a key that only the
    receiver has keeps its item. *)
Theorem merge_writes_the_receiver_only limit h yaml another_yaml rb rn B N FB FN db dn :
  nodes h !! yaml = Some (cls (Some rb)) ->
  nodes h !! another_yaml = Some (cls (Some rn)) ->
  denotes (dicts h) (VDict rb) (DMap B) FB ->
  denotes (dicts h) (VDict rn) (DMap N) FN ->
  FB ## FN ->
  height (DMap N) < limit ->
  dicts h !! rb = Some db ->
  dicts h !! rn = Some dn ->
  exists h' db',
    merge limit yaml another_yaml h = Ret yaml h'
    /\ (forall l, l ∉ FB -> dicts h' !! l = dicts h !! l)
    /\ (forall l, l ∈ FN -> dicts h' !! l = dicts h !! l)
    /\ dicts h' !! rn = Some dn
    /\ dicts h' !! rb = Some db'
    /\ (forall k v, dict_get k dn = Some v -> dict_get k db = None ->
          dict_get k db' = Some v)
    /\ (forall k, dict_get k dn = None -> dict_get k db' = dict_get k db).
Proof.
  intros Hyaml Hanother HB HN Hsep Hheight Hdb Hdn.
  destruct (value_strategy_refines limit (DMap B) (DMap N) (VDict rb) (VDict rn)
              h FB FN Hheight HB HN Hsep)
    as (h' & res & F' & Hrun & _ & _ & _ & _ & Hsame).
  rewrite (Hsame rb rn eq_refl eq_refl) in Hrun. clear Hsame.
  assert (Hwrites : forall l, l ∉ FB -> dicts h' !! l = dicts h !! l)
    by exact (value_strategy_writes_base limit _ _ _ _ _ _ _ _ _ Hheight HB HN Hsep Hrun).
  destruct limit as [|limit]; [lia|].
  inversion HB as [| |rb' db0 mb Fb Hrb Hb Hrb_b Hnd_b]; subst.
  inversion HN as [| |rn' dn0 mn Fn Hrn Hn Hrn_n Hnd_n]; subst.
  rewrite Hdb in Hrb. injection Hrb as <-.
  rewrite Hdn in Hrn. injection Hrn as <-.
  change (value_strategy (S limit) (VDict rb) (VDict rn) h)
    with (bind (items rn)
            (fun nxt_items =>
               bind (strategy_merge_with (value_strategy limit) rb nxt_items)
                    (fun _ => ret (VDict rb))) h) in Hrun.
  unfold bind at 1 in Hrun. rewrite (items_lookup _ _ _ Hdn) in Hrun.
  unfold bind in Hrun.
  destruct (strategy_merge_with (value_strategy limit) rb dn h) as [[] h1|e h1] eqn:Hloop;
    [|discriminate].
  unfold ret in Hrun. injection Hrun as <-.
  destruct (strategy_merge_writes_base limit rb h db B Fb
              (value_strategy_writes_base limit) Hb Hrb_b dn N Fn h db h1)
    as (_ & db' & Hrb' & Hadd & Hkeep); auto.
  - intros k t Hin. pose proof (height_item _ _ _ Hin). lia.
  - clear -Hsep. set_solver.
  - clear -Hsep. set_solver.
  - exists h1, db'. split; [|split; [exact Hwrites|split; [|split; [|split; [exact Hrb'|
      split; [exact Hadd|exact Hkeep]]]]]].
    + unfold merge, bind, node. rewrite Hyaml, Hanother. simpl.
      change (value_strategy (S limit) (VDict rb) (VDict rn) h)
        with (bind (items rn)
                (fun nxt_items =>
                   bind (strategy_merge_with (value_strategy limit) rb nxt_items)
                        (fun _ => ret (VDict rb))) h).
      unfold bind at 1. rewrite (items_lookup _ _ _ Hdn). unfold bind.
      rewrite Hloop. reflexivity.
    + intros l Hl. apply Hwrites. clear -Hl Hsep. set_solver.
    + rewrite Hwrites; [exact Hdn|]. clear -Hsep. set_solver.
Qed.

(** The theorem at the nodes on [{"a": {"y": 2}}] and [{"b": {"x": 1}}]:
    after the merge the receiver holds under "b" the dict object 13 of the
    other node. *)
Lemma merge_writes_the_receiver_only_witness :
  let h := {| dicts := {[ 10%nat := [("a", VDict 11%nat)];
                          11%nat := [("y", VScalar (SInt 2))];
                          12%nat := [("b", VDict 13%nat)];
                          13%nat := [("x", VScalar (SInt 1))] ]};
              nodes := {[ 0%nat := cls (Some 10%nat); 1%nat := cls (Some 12%nat) ]} |} in
  exists h' db',
    merge 3 0%nat 1%nat h = Ret 0%nat h'
    /\ dicts h' !! 12%nat = Some [("b", VDict 13%nat)]
    /\ dicts h' !! 10%nat = Some db'
    /\ dict_get "b" db' = Some (VDict 13%nat)
    /\ dict_get "a" db' = Some (VDict 11%nat).
Proof.
  intros h.
  assert (Hmap : forall r r' k x,
             dicts h !! r = Some [(k, VDict r')] ->
             dicts h !! r' = Some [(x.1, VScalar x.2)] ->
             r <> r' ->
             denotes (dicts h) (VDict r) (DMap [(k, DMap [(x.1, DScalar x.2)])])
                     ({[r]} ∪ (({[r']} ∪ (∅ ∪ ∅)) ∪ ∅))).
  { intros r r' k x Hr Hr' Hne.
    apply denotes_dict with (d := [(k, VDict r')]); [exact Hr| |set_solver|].
    - constructor; [split; [reflexivity|]|constructor|set_solver].
      apply denotes_dict with (d := [(x.1, VScalar x.2)]); [exact Hr'| |set_solver|].
      + constructor; [split; [reflexivity|constructor]|constructor|set_solver].
      + repeat constructor. simpl. tauto.
    - repeat constructor. simpl. tauto. }
  destruct (merge_writes_the_receiver_only 3 h 0%nat 1%nat 10%nat 12%nat
              [("a", DMap [("y", DScalar (SInt 2))])]
              [("b", DMap [("x", DScalar (SInt 1))])]
              ({[10%nat]} ∪ (({[11%nat]} ∪ (∅ ∪ ∅)) ∪ ∅))
              ({[12%nat]} ∪ (({[13%nat]} ∪ (∅ ∪ ∅)) ∪ ∅))
              [("a", VDict 11%nat)] [("b", VDict 13%nat)])
    as (h' & db' & Hrun & _ & _ & Hother & Hrb & Hadd & Hkeep).
  - vm_compute. reflexivity.
  - vm_compute. reflexivity.
  - apply (Hmap 10%nat 11%nat "a" ("y", SInt 2)); [vm_compute; reflexivity..|lia].
  - apply (Hmap 12%nat 13%nat "b" ("x", SInt 1)); [vm_compute; reflexivity..|lia].
  - set_solver.
  - simpl. lia.
  - vm_compute. reflexivity.
  - vm_compute. reflexivity.
  - exists h', db'. split; [exact Hrun|]. split; [exact Hother|]. split; [exact Hrb|].
    split.
    + apply Hadd; reflexivity.
    + rewrite Hkeep; reflexivity.
Defined.

End MergeWrites.

(** ** Further properties of the message filter and of [read_sms_messages] *)

Section FilterSlots.
Import Py bdk sms_message twilio_book sms_message_filter filter_vocabulary.

Variable datetime : Type.
Variable datetime_str : datetime -> string.
Variable messages_list : query datetime -> list (MessageInstance datetime).

Implicit Types (s : SMSMessageFilter datetime) (e : FilterExpression datetime).

(** X14. From any state of the visitor, a supported comparison raises
    nothing, sets its own slot and leaves the four others as they were:
    the sender number and the recipient number get [str] of the value,
    whatever the value is; the exact date, the lower bound and the upper
    bound get the datetime. With the value on the left and the field on
    the right the traversal ends in the same state. *)
Theorem comparison_sets_its_slot s (v : pyobject datetime) (t : datetime) :
  (exists s',
      accept datetime_str (comparison SENDER_NUMBER EQUALS v) s = Ret tt s'
      /\ sender_number s' = holds (str datetime datetime_str (Some v))
      /\ recipient_number s' = recipient_number s
      /\ date_sent s' = date_sent s
      /\ date_sent_before s' = date_sent_before s
      /\ date_sent_after s' = date_sent_after s)
  /\ (exists s',
         accept datetime_str (comparison RECIPIENT_NUMBER EQUALS v) s = Ret tt s'
         /\ recipient_number s' = holds (str datetime datetime_str (Some v))
         /\ sender_number s' = sender_number s
         /\ date_sent s' = date_sent s
         /\ date_sent_before s' = date_sent_before s
         /\ date_sent_after s' = date_sent_after s)
  /\ (exists s',
         accept datetime_str (comparison DATE_SENT EQUALS (ObjDatetime t)) s = Ret tt s'
         /\ date_sent s' = holds t
         /\ sender_number s' = sender_number s
         /\ recipient_number s' = recipient_number s
         /\ date_sent_before s' = date_sent_before s
         /\ date_sent_after s' = date_sent_after s)
  /\ (exists s',
         accept datetime_str (comparison DATE_SENT GREATER_THAN (ObjDatetime t)) s
         = Ret tt s'
         /\ date_sent_after s' = holds t
         /\ sender_number s' = sender_number s
         /\ recipient_number s' = recipient_number s
         /\ date_sent s' = date_sent s
         /\ date_sent_before s' = date_sent_before s)
  /\ (exists s',
         accept datetime_str (comparison DATE_SENT LESS_THAN (ObjDatetime t)) s
         = Ret tt s'
         /\ date_sent_before s' = holds t
         /\ sender_number s' = sender_number s
         /\ recipient_number s' = recipient_number s
         /\ date_sent s' = date_sent s
         /\ date_sent_after s' = date_sent_after s)
  /\ (forall np op,
         allowed np = true ->
         accept datetime_str (value_first v op np) s
         = accept datetime_str (comparison np op v) s).
Proof.
  split; [|split; [|split; [|split; [|split]]]];
    try (eexists; split; [reflexivity|]; repeat split).
  intros np op Hallowed. unfold value_first, comparison. simpl.
  unfold visit_binary_expression, visit_noun_phrases, visit_value, bind, assign.
  rewrite Hallowed. reflexivity.
Qed.

(** *** Slots are never cleared *)

Lemma keeps_set_refl s : keeps_set s s.
Proof. repeat split; auto. Qed.

Lemma keeps_set_trans s1 s2 s3 : keeps_set s1 s2 -> keeps_set s2 s3 -> keeps_set s1 s3.
Proof.
  intros (H1 & H2 & H3 & H4 & H5) (G1 & G2 & G3 & G4 & G5). repeat split; auto.
Qed.

Lemma assign_datetime_keeps s setter :
  (forall t, keeps_set s (setter t s)) ->
  keeps_set s (state_of (assign_datetime datetime s setter s)).
Proof.
  intros Hsetter. unfold assign_datetime.
  destruct (current_value s) as [[x|t|x]|]; simpl; auto using keeps_set_refl.
Qed.

(** X15. The traversal of a filter never clears an output slot: whatever
    the tree and the state it starts from, and whether it returns or
    raises, every slot that held a value still holds one; a later
    comparison can replace the value of a slot and nothing more. *)
Theorem accept_never_clears_a_slot e : forall s,
  keeps_set s (state_of (accept datetime_str e s)).
Proof.
  induction e as [l IHl op r IHr|op e _|noun_phrases|v]; intros s.
  - simpl. unfold visit_binary_expression, bind at 1.
    specialize (IHl s).
    destruct (accept datetime_str l s) as [[] s1|el s1]; simpl in IHl; [|exact IHl].
    unfold bind at 1. specialize (IHr s1).
    destruct (accept datetime_str r s1) as [[] s2|er s2]; simpl in IHr;
      [|now apply (keeps_set_trans s s1)].
    apply (keeps_set_trans s s2); [now apply (keeps_set_trans s s1)|].
    unfold bind, self.
    destruct op; simpl; try apply keeps_set_refl.
    + destruct (current_noun_phrase_is datetime SENDER_NUMBER s2);
        [repeat split; auto|].
      destruct (current_noun_phrase_is datetime RECIPIENT_NUMBER s2);
        [repeat split; auto|].
      destruct (current_noun_phrase_is datetime DATE_SENT s2); [|apply keeps_set_refl].
      apply assign_datetime_keeps. intros t. repeat split; auto.
    + destruct (current_noun_phrase_is datetime DATE_SENT s2); [|apply keeps_set_refl].
      apply assign_datetime_keeps. intros t. repeat split; auto.
    + destruct (current_noun_phrase_is datetime DATE_SENT s2); [|apply keeps_set_refl].
      apply assign_datetime_keeps. intros t. repeat split; auto.
  - apply keeps_set_refl.
  - simpl. unfold visit_noun_phrases.
    destruct noun_phrases as [|np [|np' rest]]; simpl; try apply keeps_set_refl.
    destruct (allowed np); simpl; repeat split; auto.
  - simpl. repeat split; auto.
Qed.

(** *** The field and the value that a comparison reads *)

(** X16. The visitor keeps the last field and the last value that it has
    seen, and a comparison reads them wherever they were set. An equality
    between two values, on a visitor whose last field is the sender number,
    sets the sender number to the second value: after
    [sender number == v AND a == b] the sender number is [str] of [b]. An
    equality between the sender number and the recipient number, on a
    visitor that has seen no value, sets the recipient number to the text
    "None" and leaves the sender number as it was. *)
Theorem comparison_reads_the_last_field_and_value (a b v : pyobject datetime) :
  (forall s,
      current_noun_phrase s = Some SENDER_NUMBER ->
      exists s',
        accept datetime_str
          (FilterBinaryExpression (ValueExpression a) EQUALS (ValueExpression b)) s
        = Ret tt s'
        /\ sender_number s' = holds (str datetime datetime_str (Some b))
        /\ recipient_number s' = recipient_number s)
  /\ (exists s',
         accept datetime_str
           (conjunction (comparison SENDER_NUMBER EQUALS v)
              (FilterBinaryExpression (ValueExpression a) EQUALS (ValueExpression b)))
           SMSMessageFilter_new
         = Ret tt s'
         /\ sender_number s' = holds (str datetime datetime_str (Some b))
         /\ recipient_number s' = unset)
  /\ (forall s,
         current_value s = None ->
         exists s',
           accept datetime_str
             (FilterBinaryExpression (NounPhrasesExpression [SENDER_NUMBER]) EQUALS
                (NounPhrasesExpression [RECIPIENT_NUMBER])) s
           = Ret tt s'
           /\ recipient_number s' = holds "None"
           /\ sender_number s' = sender_number s).
Proof.
  split; [|split].
  - intros s Hfield. eexists. split.
    { simpl. unfold visit_binary_expression, visit_value, bind, assign, self.
      unfold current_noun_phrase_is. simpl. rewrite Hfield. reflexivity. }
    split; reflexivity.
  - eexists. split; [reflexivity|]. split; reflexivity.
  - intros s Hvalue. eexists. split.
    { simpl. unfold visit_binary_expression, visit_noun_phrases, bind, assign, self.
      simpl. rewrite Hvalue. reflexivity. }
    split; reflexivity.
Qed.

(** *** Pages *)

Lemma slice_from_skipn {A : Type} (offset : option Z) (l : list A) :
  exists a,
    match offset with Some offset => slice_from offset l | None => l end = skipn a l.
Proof.
  destruct offset as [offset|]; [|now exists 0%nat].
  unfold slice_from. eexists. reflexivity.
Qed.

Lemma slice_to_firstn {A : Type} (limit : option Z) (l : list A) :
  exists b,
    match limit with Some limit => slice_to limit l | None => l end = firstn b l
    /\ forall lim, limit = Some lim -> (0 <= lim)%Z -> (b <= Z.to_nat lim)%nat.
Proof.
  destruct limit as [limit|].
  - unfold slice_to. eexists. split; [reflexivity|].
    intros lim [= <-] Hlim. destruct (Z.ltb_spec limit 0); lia.
  - exists (length l). split; [now rewrite firstn_all|discriminate].
Qed.

Lemma slice_from_negative {A : Type} (k : nat) (l : list A) :
  (0 < k)%nat ->
  slice_from (- Z.of_nat k) l = skipn (length l - k) l.
Proof.
  intros Hk. unfold slice_from.
  destruct (Z.ltb_spec (- Z.of_nat k) 0) as [_|Hge]; [|lia].
  f_equal. lia.
Qed.

Lemma slice_to_negative {A : Type} (k : nat) (l : list A) :
  (0 < k)%nat ->
  slice_to (- Z.of_nat k) l = firstn (length l - k) l.
Proof.
  intros Hk. unfold slice_to.
  destruct (Z.ltb_spec (- Z.of_nat k) 0) as [_|Hge]; [|lia].
  f_equal. lia.
Qed.

(** X17. [read_sms_messages] passes a negative offset or limit to the
    slices of Python as it is, and raises nothing: with [fetched] the list
    that the provider answers, the offset [-k] gives the last [k] messages
    (all of them when there are fewer), and the limit [-k] drops the last
    [k] messages (all of them when there are fewer). *)
Theorem read_sms_messages_negative_bounds filter_expression sent visitor (k : nat) :
  run_filter datetime_str filter_expression sent = Ret visitor sent ->
  (0 < k)%nat ->
  let fetched := messages_list (query_of visitor) in
  let page offset limit :=
    read_sms_messages datetime_str messages_list offset limit filter_expression sent in
  let answer messages :=
    Ret (map from_message_instance messages) (query_of visitor :: sent) in
  page (Some (- Z.of_nat k)%Z) None = answer (skipn (length fetched - k) fetched)
  /\ page None (Some (- Z.of_nat k)%Z) = answer (firstn (length fetched - k) fetched)
  /\ ((length fetched <= k)%nat ->
      page (Some (- Z.of_nat k)%Z) None = answer fetched
      /\ page None (Some (- Z.of_nat k)%Z) = answer [])
  /\ ((k <= length fetched)%nat ->
      length (skipn (length fetched - k) fetched) = k
      /\ length (firstn (length fetched - k) fetched) = (length fetched - k)%nat).
Proof.
  intros Hfilter Hk fetched page answer.
  assert (Hpage : forall offset limit,
             page offset limit
             = answer (let messages := match offset with
                                       | Some offset => slice_from offset fetched
                                       | None => fetched
                                       end in
                       match limit with
                       | Some limit => slice_to limit messages
                       | None => messages
                       end)).
  { intros offset limit. unfold page, twilio_book.read_sms_messages, bind.
    rewrite Hfilter. reflexivity. }
  assert (Hfrom : page (Some (- Z.of_nat k)%Z) None
                  = answer (skipn (length fetched - k) fetched)).
  { rewrite Hpage. simpl. now rewrite slice_from_negative. }
  assert (Hto : page None (Some (- Z.of_nat k)%Z)
                = answer (firstn (length fetched - k) fetched)).
  { rewrite Hpage. simpl. now rewrite slice_to_negative. }
  split; [exact Hfrom|]. split; [exact Hto|]. split.
  - intros Hfew. rewrite Hfrom, Hto.
    replace (length fetched - k)%nat with 0%nat by lia. split; reflexivity.
  - intros Hmany. rewrite length_skipn, length_firstn. lia.
Qed.

(** X18. Whatever the offset and the limit, negative ones included,
    [read_sms_messages] returns the records of a run of consecutive
    messages of the list that the provider answers, in the order of that
    list; with a limit that is not negative, of at most that many
    messages. It sends the one query of the filter. *)
Theorem read_sms_messages_returns_a_run filter_expression sent visitor offset limit :
  run_filter datetime_str filter_expression sent = Ret visitor sent ->
  exists before page after,
    messages_list (query_of visitor) = (before ++ page ++ after)%list
    /\ read_sms_messages datetime_str messages_list offset limit filter_expression sent
       = Ret (map from_message_instance page) (query_of visitor :: sent)
    /\ (length page <= length (messages_list (query_of visitor)))%nat
    /\ forall lim, limit = Some lim -> (0 <= lim)%Z -> (length page <= Z.to_nat lim)%nat.
Proof.
  intros Hfilter. set (fetched := messages_list (query_of visitor)).
  destruct (slice_from_skipn offset fetched) as [a Ha].
  destruct (slice_to_firstn limit (skipn a fetched)) as (b & Hb & Hbound).
  exists (firstn a fetched), (firstn b (skipn a fetched)), (skipn b (skipn a fetched)).
  split; [|split; [|split]].
  - now rewrite !firstn_skipn.
  - unfold twilio_book.read_sms_messages, bind. rewrite Hfilter.
    unfold client_messages_list, ret. fold fetched.
    rewrite <- Hb, <- Ha. reflexivity.
  - rewrite length_firstn, length_skipn. lia.
  - intros lim Hlim Hnonneg. rewrite length_firstn.
    pose proof (Hbound lim Hlim Hnonneg). lia.
Qed.

(** *** From the filter to the query *)

(** X19. The field of a comparison decides the parameter of the one query
    that [read_sms_messages] sends: the sender number goes to [from_], the
    recipient number to [to], and the date sent to [date_sent],
    [date_sent_after] or [date_sent_before] by the operator; every other
    parameter of the query is unset. For a conjunction of two supported
    comparisons that set different slots, the order of the two does not
    matter: the same query is sent and the same records are returned. For
    two that set the same slot, the later one decides: the query is the
    one of the later comparison alone. *)
Theorem read_sms_messages_query_of_comparisons (v : pyobject datetime) (t : datetime)
    sent :
  let read filter :=
    read_sms_messages datetime_str messages_list None None (Some filter) sent in
  let asks q := Ret (map from_message_instance (messages_list q)) (q :: sent) in
  read (comparison SENDER_NUMBER EQUALS v)
  = asks {| to := unset; from_ := holds (str datetime datetime_str (Some v));
            twilio_book.date_sent := unset; twilio_book.date_sent_before := unset;
            twilio_book.date_sent_after := unset |}
  /\ read (comparison RECIPIENT_NUMBER EQUALS v)
     = asks {| to := holds (str datetime datetime_str (Some v)); from_ := unset;
               twilio_book.date_sent := unset; twilio_book.date_sent_before := unset;
               twilio_book.date_sent_after := unset |}
  /\ read (comparison DATE_SENT EQUALS (ObjDatetime t))
     = asks {| to := unset; from_ := unset;
               twilio_book.date_sent := holds t; twilio_book.date_sent_before := unset;
               twilio_book.date_sent_after := unset |}
  /\ read (comparison DATE_SENT GREATER_THAN (ObjDatetime t))
     = asks {| to := unset; from_ := unset;
               twilio_book.date_sent := unset; twilio_book.date_sent_before := unset;
               twilio_book.date_sent_after := holds t |}
  /\ read (comparison DATE_SENT LESS_THAN (ObjDatetime t))
     = asks {| to := unset; from_ := unset;
               twilio_book.date_sent := unset; twilio_book.date_sent_before := holds t;
               twilio_book.date_sent_after := unset |}
  /\ (forall a b x y,
        sets a x -> sets b y -> x <> y ->
        read (conjunction a b) = read (conjunction b a))
  /\ (forall a b x,
        sets a x -> sets b x ->
        read (conjunction a b) = read b).
Proof.
  intros read asks. do 5 (split; [reflexivity|]). split.
  - intros a b x y Ha Hb Hne.
    destruct Ha; inversion Hb; subst; try reflexivity; now contradiction Hne.
  - intros a b x Ha Hb. destruct Ha; inversion Hb; subst; reflexivity.
Qed.

End FilterSlots.

Section FilterSlotsExamples.
Import Py bdk sms_message twilio_book sms_message_filter filter_vocabulary.

(** The theorem at a new visitor, for the value "+1800": the comparison
    with the value first does what the comparison with the field first
    does. *)
Lemma comparison_sets_its_slot_witness :
  accept (fun _ : Z => "") (value_first (ObjStr "+1800") EQUALS SENDER_NUMBER)
         SMSMessageFilter_new
  = accept (fun _ : Z => "") (comparison SENDER_NUMBER EQUALS (ObjStr "+1800"))
           SMSMessageFilter_new.
Proof.
  destruct (comparison_sets_its_slot Z (fun _ => "") SMSMessageFilter_new
              (ObjStr "+1800") 0%Z) as (_ & _ & _ & _ & _ & Horder).
  apply Horder. reflexivity.
Defined.

(** The theorem at a visitor that has seen the sender number, for the
    values "a" and "b". *)
Lemma comparison_reads_the_last_field_and_value_witness :
  exists s' : SMSMessageFilter Z,
    accept (fun _ => "")
      (FilterBinaryExpression (ValueExpression (ObjStr "a")) EQUALS
         (ValueExpression (ObjStr "b")))
      (set_current_noun_phrase Z SENDER_NUMBER SMSMessageFilter_new)
    = Ret tt s'
    /\ sender_number s' = holds "b"
    /\ recipient_number s' = unset.
Proof.
  destruct (comparison_reads_the_last_field_and_value Z (fun _ => "")
              (ObjStr "a") (ObjStr "b") (ObjStr "c")) as (Hstale & _).
  apply (Hstale (set_current_noun_phrase Z SENDER_NUMBER SMSMessageFilter_new)).
  reflexivity.
Defined.

(** The theorem for ten messages, without a filter: the offset [-3] gives
    the messages 7, 8 and 9. *)
Lemma read_sms_messages_negative_bounds_witness :
  read_sms_messages (fun _ => "")
    (fun _ => map numbered [0; 1; 2; 3; 4; 5; 6; 7; 8; 9]%Z)
    (Some (-3)%Z) None None []
  = Ret (map from_message_instance (map numbered [7; 8; 9]%Z))
        [query_of SMSMessageFilter_new].
Proof.
  destruct (read_sms_messages_negative_bounds Z (fun _ => "")
              (fun _ => map numbered [0; 1; 2; 3; 4; 5; 6; 7; 8; 9]%Z) None []
              SMSMessageFilter_new 3 eq_refl) as (Hlast & _).
  - lia.
  - exact Hlast.
Defined.

(** The theorem for ten messages, without a filter, at the offset [-3] and
    the limit [2]. *)
Lemma read_sms_messages_returns_a_run_witness :
  exists before page after,
    map numbered [0; 1; 2; 3; 4; 5; 6; 7; 8; 9]%Z = (before ++ page ++ after)%list
    /\ read_sms_messages (fun _ => "")
         (fun _ => map numbered [0; 1; 2; 3; 4; 5; 6; 7; 8; 9]%Z)
         (Some (-3)%Z) (Some 2%Z) None []
       = Ret (map from_message_instance page) [query_of SMSMessageFilter_new]
    /\ (length page <= 10)%nat
    /\ forall lim, Some 2%Z = Some lim -> (0 <= lim)%Z -> (length page <= Z.to_nat lim)%nat.
Proof.
  exact (read_sms_messages_returns_a_run Z (fun _ => "")
           (fun _ => map numbered [0; 1; 2; 3; 4; 5; 6; 7; 8; 9]%Z) None []
           SMSMessageFilter_new (Some (-3)%Z) (Some 2%Z) eq_refl).
Defined.

(** The theorem at the comparisons [sender number == "+1800"] and
    [recipient number == "+1900"], without messages. *)
Lemma read_sms_messages_query_of_comparisons_witness :
  let a : FilterExpression Z := comparison SENDER_NUMBER EQUALS (ObjStr "+1800") in
  let b : FilterExpression Z := comparison RECIPIENT_NUMBER EQUALS (ObjStr "+1900") in
  read_sms_messages (fun _ => "") (fun _ => []) None None (Some (conjunction a b)) []
  = read_sms_messages (fun _ => "") (fun _ => []) None None (Some (conjunction b a)) [].
Proof.
  intros a b.
  destruct (read_sms_messages_query_of_comparisons Z (fun _ => "") (fun _ => [])
              (ObjStr "") 0%Z []) as (_ & _ & _ & _ & _ & Horder & _).
  apply (Horder a b SenderNumber RecipientNumber).
  - constructor.
  - constructor.
  - discriminate.
Defined.

End FilterSlotsExamples.

(** ** Properties of the OpenWeather book *)

Section OpenWeatherProperties.
Import Py bdk openweather_book weather_vocabulary PrimFloat.

Variable getenv : string -> option string.
Variable requests_get : string -> PrimFloat.float -> RequestException + Response.
Variable quote : string -> string.
Variable NounPhrase_str : NounPhrase -> string.
Variable NounPhrase_bool : NounPhrase -> bool.

Implicit Types (s : state) (c : call).

Lemma get_state url timeout s :
  state_of (get requests_get url timeout s)
  = {| self := self s; sent := {| url := url; timeout_of := timeout |} :: sent s |}.
Proof. unfold get. destruct (requests_get url timeout); reflexivity. Qed.

(** What [set_timeout] leaves: the book with the new timeout, or the book
    as it was. *)
Lemma set_timeout_state timeout s :
  (PrimFloat.leb timeout 0 = true /\ set_timeout timeout s
                                      = Raise (ValueError "timeout must be positive") s)
  \/ (PrimFloat.leb timeout 0 = false
      /\ set_timeout timeout s
         = Ret tt {| self := {| _base_url := _base_url (self s);
                                _api_key := _api_key (self s);
                                _timeout := timeout |};
                     sent := sent s |}).
Proof.
  unfold set_timeout. destruct (PrimFloat.leb timeout 0); [left|right]; auto.
Qed.

(** What [connect] leaves: one more request, with the timeout of the book,
    and a book that differs at most in its key. *)
Lemma connect_state api_key s :
  let key := match getenv "API_KEY" with Some v => v | None => api_key end in
  let o := connect getenv requests_get api_key s in
  sent (state_of o) = connect_request key s :: sent s
  /\ _base_url (self (state_of o)) = _base_url (self s)
  /\ _timeout (self (state_of o)) = _timeout (self s)
  /\ _api_key (self (state_of o)) = (if returns o then Some key else _api_key (self s)).
Proof.
  intros key o. subst o. unfold connect. fold key.
  unfold bind, get, connect_request, json_of, get_default, contains, ret, raise. simpl.
  destruct (requests_get _ _) as [e|response]; simpl; [auto|].
  destruct (status_code response =? 401)%Z; simpl; [|auto].
  destruct (body response) as [data|]; simpl; [|auto].
  destruct data as [|b|z|x|t|items|members]; simpl; auto.
  destruct (match member "message" members with Some v => v | None => JString "" end)
    as [|b|z|x|t|items|members']; simpl; auto;
    match goal with |- context [if ?c then _ else _] => destruct c end; simpl; auto.
Qed.

(** What [current_temperature] leaves: one more request, with the timeout
    of the book, and the book as it was. *)
Lemma current_temperature_state city unit s :
  state_of (current_temperature requests_get quote NounPhrase_str NounPhrase_bool
              city unit s)
  = {| self := self s;
       sent := temperature_request quote NounPhrase_str NounPhrase_bool city unit s
               :: sent s |}.
Proof.
  unfold current_temperature, temperature_request.
  unfold bind, get, raise_for_status, json_of, subscript, ret, raise. simpl.
  destruct (requests_get _ _) as [e|response]; simpl; [reflexivity|].
  destruct ((400 <=? status_code response)%Z && (status_code response <? 600)%Z);
    simpl; [reflexivity|].
  destruct (body response) as [data|]; simpl; [|reflexivity].
  destruct data as [|b|z|x|t|items|members]; simpl; try reflexivity.
  destruct (member "main" members) as [main|]; simpl; [|reflexivity].
  destruct main as [|b|z|x|t|items|members']; simpl; try reflexivity.
  destruct (member "temp" members'); reflexivity.
Qed.

(** *** The timeout *)

Lemma after_call c s :
  let s' := after getenv requests_get quote NounPhrase_str NounPhrase_bool c s in
  _base_url (self s') = _base_url (self s)
  /\ (_timeout (self s') = _timeout (self s)
      \/ (c = SetTimeout (_timeout (self s'))
          /\ PrimFloat.leb (_timeout (self s')) 0 = false))
  /\ (forall r, In r (sent s') -> In r (sent s) \/ timeout_of r = _timeout (self s)).
Proof.
  destruct c as [timeout|api_key|city unit]; simpl.
  - destruct (set_timeout_state timeout s) as [(Hle & ->)|(Hle & ->)]; simpl; auto.
  - destruct (connect_state api_key s) as (Hsent & Hurl & Htimeout & _).
    split; [exact Hurl|]. split; [now left|].
    intros r. rewrite Hsent. intros [<-|Hin]; [right; reflexivity|now left].
  - rewrite current_temperature_state. simpl. split; [reflexivity|]. split; [now left|].
    intros r [<-|Hin]; [right; reflexivity|now left].
Qed.

Lemma after_all_timeout calls : forall done s,
  (PrimFloat.leb (_timeout (self s)) 0 = false
   /\ (_timeout (self s) = DEFAULT_TIMEOUT \/ In (SetTimeout (_timeout (self s))) done)
   /\ _base_url (self s) = OPENWEATHER_BASE_URL
   /\ forall r, In r (sent s) ->
        PrimFloat.leb (timeout_of r) 0 = false
        /\ (timeout_of r = DEFAULT_TIMEOUT \/ In (SetTimeout (timeout_of r)) done)) ->
  let s' := after_all getenv requests_get quote NounPhrase_str NounPhrase_bool calls s in
  PrimFloat.leb (_timeout (self s')) 0 = false
  /\ (_timeout (self s') = DEFAULT_TIMEOUT
      \/ In (SetTimeout (_timeout (self s'))) (done ++ calls))
  /\ _base_url (self s') = OPENWEATHER_BASE_URL
  /\ forall r, In r (sent s') ->
       PrimFloat.leb (timeout_of r) 0 = false
       /\ (timeout_of r = DEFAULT_TIMEOUT
           \/ In (SetTimeout (timeout_of r)) (done ++ calls)).
Proof.
  induction calls as [|c calls IH]; intros done s (Hpos & Hfrom & Hurl & Hsent).
  - simpl. rewrite app_nil_r. auto.
  - simpl.
    replace (done ++ c :: calls)%list with ((done ++ [c]) ++ calls)%list
      by now rewrite <- app_assoc.
    apply IH.
    destruct (after_call c s) as (Hurl' & Htimeout & Hsent').
    assert (Hold : forall t, t = DEFAULT_TIMEOUT \/ In (SetTimeout t) done ->
                     t = DEFAULT_TIMEOUT \/ In (SetTimeout t) (done ++ [c])).
    { intros t [Ht|Ht]; [now left|right]. apply in_or_app. now left. }
    split; [|split; [|split]].
    + destruct Htimeout as [->|[_ Hle]]; assumption.
    + destruct Htimeout as [->|[Hc _]]; [now apply Hold|].
      right. apply in_or_app. right. left. exact Hc.
    + now rewrite Hurl'.
    + intros r Hr. destruct (Hsent' r Hr) as [Hin | ->].
      * destruct (Hsent r Hin) as [Hle Ht]. split; [exact Hle|now apply Hold].
      * split; [exact Hpos|now apply Hold].
Qed.

(** X20. After any sequence of calls of the methods of a new book, whether
    they return or raise, the timeout of the book is not below or equal to
    zero: it is the default 30 or the timeout of a call of the setter in
    the sequence; the same holds of the timeout of every request that was
    sent, and the base address is the one of the class. The test of the
    setter lets not-a-number through: after [timeout = nan] the timeout is
    not-a-number, which is not above zero either. *)
Theorem timeout_is_never_below_zero calls :
  let run := after_all getenv requests_get quote NounPhrase_str NounPhrase_bool in
  let s := run calls new_state in
  PrimFloat.leb (_timeout (self s)) 0 = false
  /\ (_timeout (self s) = DEFAULT_TIMEOUT \/ In (SetTimeout (_timeout (self s))) calls)
  /\ _base_url (self s) = OPENWEATHER_BASE_URL
  /\ (forall r, In r (sent s) ->
        PrimFloat.leb (timeout_of r) 0 = false
        /\ (timeout_of r = DEFAULT_TIMEOUT \/ In (SetTimeout (timeout_of r)) calls))
  /\ (_timeout (self (run [SetTimeout nan] s)) = nan
      /\ PrimFloat.ltb 0 nan = false).
Proof.
  intros run s. split; [|split; [|split; [|split]]];
    try (apply (after_all_timeout calls [] new_state);
         (split; [reflexivity|split; [now left|split; [reflexivity|intros r []]]])).
  split; reflexivity.
Qed.

(** *** [connect] *)

(** The outcome of [connect], by the answer of the network. *)
Lemma connect_outcome api_key s :
  let key := match getenv "API_KEY" with Some v => v | None => api_key end in
  let s1 := {| self := self s; sent := connect_request key s :: sent s |} in
  let stored := {| self := {| _base_url := _base_url (self s);
                              _api_key := Some key;
                              _timeout := _timeout (self s) |};
                   sent := connect_request key s :: sent s |} in
  connect getenv requests_get api_key s
  = match answer requests_get (connect_request key s) with
    | inl e => Raise (Requests e) s1
    | inr response =>
        if (status_code response =? 401)%Z then
          match body response with
          | None => Raise JSONDecodeError s1
          | Some (JObject members) =>
              match contains "Invalid API key"
                      (match member "message" members with
                       | Some v => v
                       | None => JString ""
                       end) s1 with
              | Ret true _ => Raise (ValueError "Invalid API key") s1
              | Ret false _ => Ret tt stored
              | Raise e _ => Raise e s1
              end
          | Some _ => Raise AttributeError s1
          end
        else Ret tt stored
    end.
Proof.
  intros key s1 stored. unfold connect. fold key.
  unfold answer, bind, get, connect_request, json_of, get_default, ret, raise in *.
  simpl.
  destruct (requests_get _ _) as [e|response]; simpl; [reflexivity|].
  destruct (status_code response =? 401)%Z; simpl; [|reflexivity].
  destruct (body response) as [data|]; simpl; [|reflexivity].
  destruct data as [|b|z|x|t|items|members]; simpl; try reflexivity.
  destruct (match member "message" members with Some v => v | None => JString "" end)
    as [|b|z|x|t|items|members']; simpl; try reflexivity;
    match goal with |- context [if ?c then _ else _] => destruct c end; reflexivity.
Qed.

(** X21. [connect] sends one request, to the base address with the key and
    the city London, with the timeout of the book. The key is the value of
    the variable API_KEY of the environment when that is set, and then the
    key that is passed plays no part; it is the key that is passed
    otherwise. When [connect] returns, the book holds that key and is
    otherwise as it was; when it raises, the book is as it was. It returns
    for every answer whose status is not 401, whatever the body; for the
    status 401 and a body with a text message, it raises
    [ValueError("Invalid API key")] when the message contains
    "Invalid API key" and it returns when it does not, as it does for a
    body without a message. An exception of the request is raised as it
    is. *)
Theorem connect_stores_the_key_unless_refused api_key s :
  let key := match getenv "API_KEY" with Some v => v | None => api_key end in
  let o := connect getenv requests_get api_key s in
  sent (state_of o) = connect_request key s :: sent s
  /\ (returns o = true ->
      self (state_of o) = {| _base_url := _base_url (self s);
                             _api_key := Some key;
                             _timeout := _timeout (self s) |})
  /\ (returns o = false -> self (state_of o) = self s)
  /\ (forall e,
        answer requests_get (connect_request key s) = inl e ->
        o = Raise (Requests e) (state_of o))
  /\ (forall response,
        answer requests_get (connect_request key s) = inr response ->
        status_code response <> 401%Z ->
        returns o = true)
  /\ (forall response members,
        answer requests_get (connect_request key s) = inr response ->
        status_code response = 401%Z ->
        body response = Some (JObject members) ->
        match member "message" members with
        | Some (JString text) =>
            if str_contains "Invalid API key" text
            then o = Raise (ValueError "Invalid API key") (state_of o)
            else returns o = true
        | Some _ => True
        | None => returns o = true
        end)
  /\ (forall v other_key,
        getenv "API_KEY" = Some v ->
        connect getenv requests_get other_key s = o).
Proof.
  intros key o. pose proof (connect_outcome api_key s) as Hout. simpl in Hout.
  fold key in Hout. fold o in Hout.
  split; [exact (proj1 (connect_state api_key s))|].
  split; [|split; [|split; [|split; [|split]]]].
  - pose proof (connect_state api_key s) as (_ & Hurl & Htimeout & Hkey).
    fold key o in Hurl, Htimeout, Hkey. intros Hret. rewrite Hret in Hkey.
    destruct (self (state_of o)) as [u k t]. simpl in *. congruence.
  - pose proof (connect_state api_key s) as (_ & Hurl & Htimeout & Hkey).
    fold key o in Hurl, Htimeout, Hkey. intros Hret. rewrite Hret in Hkey.
    destruct (self (state_of o)) as [u k t], (self s) as [u' k' t']. simpl in *.
    congruence.
  - intros e Hans. rewrite Hout, Hans. reflexivity.
  - intros response Hans Hstatus. apply Z.eqb_neq in Hstatus.
    rewrite Hout, Hans, Hstatus. reflexivity.
  - intros response members Hans Hstatus Hbody. rewrite Hout, Hans, Hstatus, Hbody.
    simpl.
    destruct (member "message" members) as [[|b|z|x|text|items|members']|]; simpl; auto.
    destruct (str_contains "Invalid API key" text); reflexivity.
  - intros v other_key Henv. subst o key. unfold connect. now rewrite Henv.
Qed.

(** *** [current_temperature] *)

(** The outcome of [current_temperature], by the answer of the network. *)
Lemma current_temperature_outcome city unit s :
  let request := temperature_request quote NounPhrase_str NounPhrase_bool city unit s in
  let s1 := {| self := self s; sent := request :: sent s |} in
  current_temperature requests_get quote NounPhrase_str NounPhrase_bool city unit s
  = match answer requests_get request with
    | inl e => Raise (Requests e) s1
    | inr response =>
        if is_error_status (status_code response)
        then Raise (Requests (HTTPError (status_code response))) s1
        else match body response with
             | None => Raise JSONDecodeError s1
             | Some weather_data =>
                 match subscript weather_data "main" s1 with
                 | Ret main _ => subscript main "temp" s1
                 | Raise e _ => Raise e s1
                 end
             end
    end.
Proof.
  intros request s1. unfold current_temperature. subst s1 request.
  unfold answer, temperature_request, is_error_status.
  unfold bind, get, raise_for_status, json_of, ret, raise. simpl.
  destruct (requests_get _ _) as [e|response]; simpl; [reflexivity|].
  destruct ((400 <=? status_code response)%Z && (status_code response <? 600)%Z);
    simpl; [reflexivity|].
  destruct (body response) as [data|]; simpl; [|reflexivity].
  destruct data as [|b|z|x|t|items|members]; simpl; try reflexivity.
  destruct (member "main" members) as [main|]; simpl; [|reflexivity].
  destruct main as [|b|z|x|t|items|members']; simpl; try reflexivity.
  destruct (member "temp" members'); reflexivity.
Qed.

(** X22. [current_temperature] sends one request, with the timeout of the
    book, and leaves the book as it was, whether it returns or raises. An
    exception of the request is raised as it is, and an answer with a
    status of the 4xx or 5xx raises [HTTPError]. The procedure returns
    exactly when the status is another one and the body is a JSON object
    whose member "main" is an object with a member "temp": it returns
    that member, whatever JSON value it is. A body that is an object
    without "main" raises [KeyError]; no outcome is a default value.
    Before [connect], the request carries the text "None" as the key. *)
Theorem current_temperature_returns_main_temp city unit s :
  let request := temperature_request quote NounPhrase_str NounPhrase_bool city unit s in
  let o := current_temperature requests_get quote NounPhrase_str NounPhrase_bool
             city unit s in
  state_of o = {| self := self s; sent := request :: sent s |}
  /\ timeout_of request = _timeout (self s)
  /\ (forall e,
        answer requests_get request = inl e -> o = Raise (Requests e) (state_of o))
  /\ (forall response,
        answer requests_get request = inr response ->
        is_error_status (status_code response) = true ->
        o = Raise (Requests (HTTPError (status_code response))) (state_of o))
  /\ (forall temperature,
        o = Ret temperature (state_of o)
        <-> exists response members main,
              answer requests_get request = inr response
              /\ is_error_status (status_code response) = false
              /\ body response = Some (JObject members)
              /\ member "main" members = Some (JObject main)
              /\ member "temp" main = Some temperature)
  /\ (forall response members,
        answer requests_get request = inr response ->
        is_error_status (status_code response) = false ->
        body response = Some (JObject members) ->
        member "main" members = None ->
        o = Raise (KeyError "main") (state_of o))
  /\ (_api_key (self s) = None ->
      url request
      = _base_url (self s) ++ "?appid=None&q=" ++ quote (NounPhrase_str city)
        ++ "&units=" ++ units NounPhrase_str NounPhrase_bool unit).
Proof.
  intros request o.
  pose proof (current_temperature_state city unit s) as Hstate.
  pose proof (current_temperature_outcome city unit s) as Hout. simpl in Hout.
  fold request in Hstate, Hout. fold o in Hstate, Hout.
  split; [exact Hstate|]. split; [reflexivity|].
  split; [|split; [|split; [|split]]].
  - intros e Hans. rewrite Hstate, Hout, Hans. reflexivity.
  - intros response Hans Hstatus. rewrite Hstate, Hout, Hans, Hstatus. reflexivity.
  - intros temperature. rewrite Hstate, Hout. split.
    + destruct (answer requests_get request) as [e|response]; [discriminate|].
      destruct (is_error_status (status_code response)) eqn:Hstatus; [discriminate|].
      destruct (body response) as [data|] eqn:Hbody; [|discriminate].
      destruct data as [|b|z|x|t|items|members]; simpl; try discriminate.
      unfold ret, raise.
      destruct (member "main" members) as [main|] eqn:Hmain; [|discriminate].
      destruct main as [|b|z|x|t|items|members']; simpl; try discriminate.
      unfold ret, raise.
      destruct (member "temp" members') as [temp|] eqn:Htemp; [|discriminate].
      intros [= <-]. exists response, members, members'. auto.
    + intros (response & members & main & -> & -> & -> & Hmain & Htemp).
      simpl. rewrite Hmain. simpl. rewrite Htemp. reflexivity.
  - intros response members Hans Hstatus Hbody Hmain.
    rewrite Hstate, Hout, Hans, Hstatus, Hbody. simpl. rewrite Hmain. reflexivity.
  - intros Hkey. unfold request, temperature_request. simpl. rewrite Hkey. reflexivity.
Qed.

End OpenWeatherProperties.

Section OpenWeatherExamples.
Import Py bdk openweather_book weather_vocabulary PrimFloat.

(** The theorem for a network that answers 401 with the message of
    OpenWeather for a key that it does not know, and an environment
    without API_KEY. *)
Lemma connect_stores_the_key_unless_refused_witness :
  let refused := {| status_code := 401;
                    body := Some (JObject [("cod", JInt 401);
                                           ("message", JString "Invalid API key. Please see https://openweathermap.org/faq#error401 for more info.")]) |} in
  let o := connect (fun _ => None) (fun _ _ => inr refused) "abc" new_state in
  o = Raise (ValueError "Invalid API key") (state_of o)
  /\ self (state_of o) = OpenWeatherBook_new.
Proof.
  intros refused o.
  destruct (connect_stores_the_key_unless_refused (fun _ => None) (fun _ _ => inr refused)
              "abc" new_state) as (_ & _ & Hraise & _ & _ & Hrefused & _).
  split.
  - exact (Hrefused refused _ eq_refl eq_refl eq_refl).
  - apply Hraise. reflexivity.
Defined.

(** The theorem for a network that answers 200 with the body
    [{"main": {"temp": 280.5}}]. *)
Lemma current_temperature_returns_main_temp_witness :
  let weather := {| status_code := 200;
                    body := Some (JObject [("main", JObject [("temp", JFloat 280.5)])]) |} in
  let o := current_temperature (fun _ _ => inr weather) (fun text => text)
             (fun np => String.concat " " (words np)) (fun _ => true)
             (from_word_list ["London"]) None new_state in
  o = Ret (JFloat 280.5) (state_of o).
Proof.
  intros weather o.
  destruct (current_temperature_returns_main_temp (fun _ _ => inr weather)
              (fun text => text) (fun np => String.concat " " (words np)) (fun _ => true)
              (from_word_list ["London"]) None new_state)
    as (_ & _ & _ & _ & Hreturns & _).
  apply Hreturns. exists weather, [("main", JObject [("temp", JFloat 280.5)])],
    [("temp", JFloat 280.5)].
  repeat split.
Defined.

End OpenWeatherExamples.
